(** * CBClient template generator: identifier normalisation and tree writing

    A shallow embedding of [Python.py] (the Fabric template generator):
    the two identifier normalisers [slugify_modid] and [safe_pkg], the
    metadata record [Meta] with [normalized] and [base_package], the file
    writer [write_file], the generation routine [generate], and the
    methods of the window [App] that build the record from the form, fix
    the id field, show the preview and start a run.

    Python strings are sequences of Unicode code points; they are modelled
    as lists of code points ([N]).  The parts of the Unicode character
    database that concern code points outside ASCII (case mapping, the
    alphabetic and word classes) are not part of the program: they are the
    fields of the class [UnicodeTables], and every theorem below holds for
    every instance of it.

    A run of [generate] is modelled with what it reads (the file system at
    the candidate directory, the clock) as inputs and with what it does
    (directories made, files written, lines logged) as a trace of calls.
    Each of these calls can raise: which call raises, and what, is a
    further input of the run, and a text without a UTF-8 encoding makes
    [write_text] raise.  Paths are those of a POSIX system. *)

From Stdlib Require Import Strings.String Strings.Ascii.
From Stdlib Require Import List NArith Bool Lia Arith.
Import ListNotations.

Local Open Scope N_scope.

(** ** Code points and strings *)

Definition codepoint := N.
Definition str := list codepoint.

(** The code point of an ASCII character, and the Python string of an
    ASCII literal. *)
Definition cp (a : ascii) : codepoint := N_of_ascii a.
Definition lit (s : string) : str := map N_of_ascii (list_ascii_of_string s).

Definition c_space  : codepoint := Eval cbv in cp " ".
Definition c_hyphen : codepoint := Eval cbv in cp "-".
Definition c_dot    : codepoint := Eval cbv in cp ".".
Definition c_slash  : codepoint := Eval cbv in cp "/".
Definition c_under  : codepoint := Eval cbv in cp "_".
Definition c_nl     : codepoint := 10.

Definition in_range (lo hi c : codepoint) : bool := (lo <=? c) && (c <=? hi).

Definition is_lower (c : codepoint) : bool := in_range 97 122 c.   (* [a-z] *)
Definition is_upper (c : codepoint) : bool := in_range 65 90 c.    (* [A-Z] *)
Definition is_digit (c : codepoint) : bool := in_range 48 57 c.    (* [0-9] *)
Definition is_ascii (c : codepoint) : bool := c <? 128.

(** What the Unicode character database says about code points outside
    ASCII.  [lower_ext s i] is the lower-case mapping of the non-ASCII code
    point at index [i] of [s] (one code point may map to several, and the
    mapping of a capital sigma depends on its neighbours, hence the whole
    string); [isalpha_ext] is [str.isalpha] and [isword_ext] is the class
    [\w] of [re], both on a non-ASCII code point. *)
Class UnicodeTables := {
  lower_ext : str -> nat -> str;
  isalpha_ext : codepoint -> bool;
  isword_ext : codepoint -> bool
}.

(** Tables under which no code point outside ASCII has case, is a letter
    or is a word character.  They agree with every other instance on ASCII
    input and serve to run the model there. *)
Definition ascii_tables : UnicodeTables := {|
  lower_ext := fun s i => firstn 1 (skipn i s);
  isalpha_ext := fun _ => false;
  isword_ext := fun _ => false
|}.

Section PythonStrings.
Context {UT : UnicodeTables}.

(** [str.lower]: ASCII capitals move to their small letters, other ASCII
    code points stay, the rest follows the Unicode tables. *)
Definition ascii_lower (c : codepoint) : codepoint :=
  if is_upper c then c + 32 else c.

Fixpoint lower_from (whole : str) (i : nat) (s : str) : str :=
  match s with
  | [] => []
  | c :: r =>
      (if is_ascii c then [ascii_lower c] else lower_ext whole i)
        ++ lower_from whole (S i) r
  end.

Definition lower (s : str) : str := lower_from s 0 s.

(** [c.isalpha()] for a one-character string. *)
Definition isalpha (c : codepoint) : bool :=
  if is_ascii c then is_lower c || is_upper c else isalpha_ext c.

(** [\w] in a [str] pattern: alphanumeric or underscore. *)
Definition isword (c : codepoint) : bool :=
  if is_ascii c then is_lower c || is_upper c || is_digit c || (c =? c_under)
  else isword_ext c.

(** [c.isspace()], the characters that [str.strip()] removes. *)
Definition isspace (c : codepoint) : bool :=
  in_range 9 13 c || in_range 28 32 c || (c =? 133) || (c =? 160)
  || (c =? 5760) || in_range 8192 8202 c || (c =? 8232) || (c =? 8233)
  || (c =? 8239) || (c =? 8287) || (c =? 12288).

(** [s.replace(a, b)] for one-character [a] and [b]. *)
Definition replace_char (a b : codepoint) (s : str) : str :=
  map (fun c => if c =? a then b else c) s.

(** [re.sub(r'[^CLS]', '', s)]: every character outside the class goes. *)
Definition re_keep (cls : codepoint -> bool) (s : str) : str := filter cls s.

(** [re.sub(r'[CLS]+', repl, s)]: each maximal run of class characters is
    replaced by [repl] of the run.  [run] holds the run being read, latest
    character first. *)
Definition flush (repl : str -> str) (run : str) : str :=
  match run with
  | [] => []
  | _ => repl (rev run)
  end.

Fixpoint re_sub_plus (cls : codepoint -> bool) (repl : str -> str)
    (run s : str) : str :=
  match s with
  | [] => flush repl run
  | c :: r =>
      if cls c then re_sub_plus cls repl (c :: run) r
      else flush repl run ++ c :: re_sub_plus cls repl [] r
  end.

(** [s.lstrip(..)], [s.rstrip(..)], [s.strip(..)] with the characters to
    remove given by a predicate. *)
Fixpoint lstrip_by (p : codepoint -> bool) (s : str) : str :=
  match s with
  | [] => []
  | c :: r => if p c then lstrip_by p r else s
  end.

Definition rstrip_by (p : codepoint -> bool) (s : str) : str :=
  rev (lstrip_by p (rev s)).

Definition strip_by (p : codepoint -> bool) (s : str) : str :=
  rstrip_by p (lstrip_by p s).

(** The same with the characters given as a string, as in [s.strip('_-')]. *)
Definition mem (chars : str) (c : codepoint) : bool := existsb (N.eqb c) chars.
Definition lstrip_chars (chars s : str) : str := lstrip_by (mem chars) s.
Definition strip_chars (chars s : str) : str := strip_by (mem chars) s.

(** [s.strip()]: white space goes from both ends. *)
Definition strip (s : str) : str := strip_by isspace s.

(** [s.split(sep)] for a one-character separator, and [sep.join(parts)]. *)
Fixpoint split_on (sep : codepoint) (s : str) : list str :=
  match s with
  | [] => [[]]
  | c :: r =>
      if c =? sep then [] :: split_on sep r
      else match split_on sep r with
           | p :: ps => (c :: p) :: ps
           | [] => [[c]]
           end
  end.

Fixpoint join (sep : str) (parts : list str) : str :=
  match parts with
  | [] => []
  | [p] => p
  | p :: ps => p ++ sep ++ join sep ps
  end.

(** Truth value of a string: [s] is true when it is not empty. *)
Definition truthy (s : str) : bool :=
  match s with [] => false | _ => true end.

(** [a or b] on strings. *)
Definition str_or (a b : str) : str := if truthy a then a else b.

(** ** The identifier normalisers *)

(** [[a-z0-9_-]] and [[_-]]. *)
Definition slug_char (c : codepoint) : bool :=
  is_lower c || is_digit c || (c =? c_under) || (c =? c_hyphen).
Definition is_sep (c : codepoint) : bool := (c =? c_under) || (c =? c_hyphen).

Definition slugify_modid (s : str) : str :=
  let s := re_keep slug_char (replace_char c_space c_under (lower s)) in
  let s := strip_chars (lit "_-") (re_sub_plus is_sep (firstn 1) [] s) in
  let s := match s with
           | c :: _ => if isalpha c then s
                       else lit "c" ++ lstrip_chars (lit "0123456789_-") s
           | [] => lit "c" ++ lstrip_chars (lit "0123456789_-") s
           end in
  firstn 64 (str_or s (lit "cbclient")).

(** [[a-z0-9_.]] and [[.]]. *)
Definition pkg_char (c : codepoint) : bool :=
  is_lower c || is_digit c || (c =? c_under) || (c =? c_dot).
Definition is_dot (c : codepoint) : bool := c =? c_dot.

(** One segment of [safe_pkg]: [p if p[0].isalpha() or p[0] == '_' else
    'p' + p].  The segments it is applied to are not empty. *)
Definition pkg_segment (p : str) : str :=
  match p with
  | [] => p
  | c :: _ => if isalpha c || (c =? c_under) then p else lit "p" ++ p
  end.

(** The list [parts] of [safe_pkg]. *)
Definition pkg_parts (s : str) : list str :=
  let s := re_keep pkg_char
             (replace_char c_space c_under
                (replace_char c_hyphen c_under (lower s))) in
  filter truthy
    (split_on c_dot
       (strip_chars (lit ".") (re_sub_plus is_dot (fun _ => lit ".") [] s))).

Definition safe_pkg (s : str) : str :=
  let parts := pkg_parts s in
  str_or (join (lit ".") (map pkg_segment parts)) (lit "com.example").

End PythonStrings.

(** ** Paths

    [pathlib.Path] on a POSIX system: an anchor (empty, [/] or [//]) and
    the list of names below it.  A name is never empty, never [.] and has
    no slash. *)

Record Path := { anchor : str; names : list str }.

Definition str_eqb (a b : str) : bool :=
  if list_eq_dec N.eq_dec a b then true else false.

Definition parse_anchor (s : str) : str :=
  match s with
  | 47 :: 47 :: 47 :: _ => lit "/"
  | 47 :: 47 :: _ => lit "//"
  | 47 :: _ => lit "/"
  | _ => []
  end.

(** A name of a path: not empty and not [.]. *)
Definition is_name (n : str) : bool := truthy n && negb (str_eqb n (lit ".")).

Definition parse_names (s : str) : list str :=
  filter is_name (split_on c_slash s).

(** [Path(s)] *)
Definition path_of_str (s : str) : Path :=
  {| anchor := parse_anchor s; names := parse_names s |}.

(** [p / s]: an absolute [s] replaces [p]. *)
Definition joinpath (p : Path) (s : str) : Path :=
  let q := path_of_str s in
  if truthy (anchor q) then q
  else {| anchor := anchor p; names := names p ++ names q |}.

Notation "p // s" := (joinpath p s) (at level 40, left associativity).

(** [str(p)], [p.parent], [p.name] and [p.relative_to(base)] (the names of
    [p] below [base], or nothing when [p] is not below [base]). *)
Definition path_str (p : Path) : str :=
  match anchor p, names p with
  | [], [] => lit "."
  | a, ns => a ++ join (lit "/") ns
  end.

Definition parent (p : Path) : Path :=
  {| anchor := anchor p; names := removelast (names p) |}.

Definition name (p : Path) : str := last (names p) [].

Fixpoint strip_prefix (pre l : list str) : option (list str) :=
  match pre, l with
  | [], _ => Some l
  | a :: pre', b :: l' => if str_eqb a b then strip_prefix pre' l' else None
  | _ :: _, [] => None
  end.

Definition relative_to (base p : Path) : option Path :=
  if str_eqb (anchor base) (anchor p) then
    match strip_prefix (names base) (names p) with
    | Some ns => Some {| anchor := []; names := ns |}
    | None => None
    end
  else None.

(** ** The metadata record *)

Record Meta := {
  out_dir : Path;
  project_name : str;
  client_name : str;
  mod_id : str;
  maven_group : str;
  mod_version : str;
  authors : list str;
  description : str;
  license_name : str
}.

Section Metadata.
Context {UT : UnicodeTables}.

Definition base_package (self : Meta) : str :=
  safe_pkg (maven_group self ++ lit "." ++ mod_id self).

(** The class [[\w\-. ]] of the project name. *)
Definition project_char (c : codepoint) : bool :=
  isword c || (c =? c_hyphen) || (c =? c_dot) || (c =? c_space).

(** [tuple(..) or ('Unknown',)] *)
Definition tuple_or (a b : list str) : list str :=
  match a with [] => b | _ => a end.

Definition normalized (self : Meta) : Meta := {|
  out_dir := out_dir self;
  project_name :=
    str_or (strip (re_keep project_char (project_name self))) (lit "CBClient");
  client_name := str_or (strip (client_name self)) (lit "CBClient");
  mod_id := slugify_modid (mod_id self);
  maven_group := safe_pkg (maven_group self);
  mod_version := str_or (strip (mod_version self)) (lit "0.1.0");
  authors :=
    tuple_or
      (map strip (filter (fun a => truthy (strip a)) (authors self)))
      [lit "Unknown"];
  description :=
    strip (str_or (description self)
                  (client_name self ++ lit " - Fabric client mod"));
  license_name := str_or (strip (license_name self)) (lit "MIT")
|}.

End Metadata.

(** ** Library functions used by the generator *)

Definition dq : str := [34].
Definition unlines (lines : list str) : str := join [c_nl] lines.

(** The exceptions that a run can raise, apart from failures of the
    operating system. *)
Inductive exn :=
| NotADirectoryError (p : Path)
| KeyError (key : str)
| ValueError
| Base64Error
| UnicodeEncodeError
| OSError (errno : N).

(** *** UTF-8, the encoding of [write_text]

    Surrogates have no encoding ([UnicodeEncodeError]). *)
Definition utf8_char (c : codepoint) : option (list N) :=
  if c <? 128 then Some [c]
  else if c <? 2048 then Some [192 + c / 64; 128 + c mod 64]
  else if in_range 55296 57343 c then None
  else if c <? 65536 then
    Some [224 + c / 4096; 128 + (c / 64) mod 64; 128 + c mod 64]
  else if c <? 1114112 then
    Some [240 + c / 262144; 128 + (c / 4096) mod 64;
          128 + (c / 64) mod 64; 128 + c mod 64]
  else None.

Fixpoint utf8_encode (s : str) : option (list N) :=
  match s with
  | [] => Some []
  | c :: r =>
      match utf8_char c, utf8_encode r with
      | Some b, Some bs => Some (b ++ bs)
      | _, _ => None
      end
  end.

(** *** [json.dumps(value, indent=2)] *)

#[warnings="-register-all"] Inductive json :=
| JInt (n : N)
| JBool (b : bool)
| JStr (s : str)
| JList (l : list json)
| JDict (l : list (str * json)).

Fixpoint assoc {A : Type} (k : str) (l : list (str * A)) : option A :=
  match l with
  | [] => None
  | (k', v) :: r => if str_eqb k k' then Some v else assoc k r
  end.

Definition json_get (k : str) (j : json) : option json :=
  match j with
  | JDict l => assoc k l
  | _ => None
  end.

Fixpoint uint_digits (u : Decimal.uint) : str :=
  match u with
  | Decimal.Nil => []
  | Decimal.D0 u => 48 :: uint_digits u
  | Decimal.D1 u => 49 :: uint_digits u
  | Decimal.D2 u => 50 :: uint_digits u
  | Decimal.D3 u => 51 :: uint_digits u
  | Decimal.D4 u => 52 :: uint_digits u
  | Decimal.D5 u => 53 :: uint_digits u
  | Decimal.D6 u => 54 :: uint_digits u
  | Decimal.D7 u => 55 :: uint_digits u
  | Decimal.D8 u => 56 :: uint_digits u
  | Decimal.D9 u => 57 :: uint_digits u
  end.

Definition decimal (n : N) : str := uint_digits (N.to_uint n).

Definition hex_digit (d : N) : codepoint := if d <? 10 then 48 + d else 87 + d.
Definition hex4 (n : N) : str :=
  [hex_digit ((n / 4096) mod 16); hex_digit ((n / 256) mod 16);
   hex_digit ((n / 16) mod 16); hex_digit (n mod 16)].
Definition u_escape (n : N) : str := [92; 117] ++ hex4 n.

(** The escapes of a string with [ensure_ascii]: quote and backslash, the
    short escapes, and [\uXXXX] for everything outside the printable ASCII
    range (a surrogate pair above the basic plane). *)
Definition json_escape_char (c : codepoint) : str :=
  if c =? 34 then [92; 34]
  else if c =? 92 then [92; 92]
  else if c =? 10 then [92; 110]
  else if c =? 13 then [92; 114]
  else if c =? 9 then [92; 116]
  else if c =? 8 then [92; 98]
  else if c =? 12 then [92; 102]
  else if in_range 32 126 c then [c]
  else if c <? 65536 then u_escape c
  else u_escape (55296 + ((c - 65536) / 1024) mod 1024)
         ++ u_escape (56320 + (c - 65536) mod 1024).

Definition json_quote (s : str) : str := dq ++ flat_map json_escape_char s ++ dq.

Definition indent (depth : nat) : str := repeat c_space (2 * depth).

Fixpoint dumps_at (depth : nat) (j : json) : str :=
  match j with
  | JInt n => decimal n
  | JBool b => if b then lit "true" else lit "false"
  | JStr s => json_quote s
  | JList l =>
      match l with
      | [] => lit "[]"
      | _ =>
          lit "[" ++ [c_nl] ++ indent (S depth)
          ++ join (lit "," ++ [c_nl] ++ indent (S depth))
                  (map (dumps_at (S depth)) l)
          ++ [c_nl] ++ indent depth ++ lit "]"
      end
  | JDict l =>
      match l with
      | [] => lit "{}"
      | _ =>
          lit "{" ++ [c_nl] ++ indent (S depth)
          ++ join (lit "," ++ [c_nl] ++ indent (S depth))
                  (map (fun kv => json_quote (fst kv) ++ lit ": "
                                  ++ dumps_at (S depth) (snd kv)) l)
          ++ [c_nl] ++ indent depth ++ lit "}"
      end
  end.

Definition dumps (j : json) : str := dumps_at 0 j.

(** *** [str.format] with keyword arguments

    The templates use plain replacement fields [{name}] and the escapes
    [{{] and [}}]; field names are looked up as they stand.  [field] holds
    the name being read, latest character first. *)
Fixpoint format_from (env : list (str * str)) (field : option str) (s : str)
    : exn + str :=
  match s with
  | [] => match field with None => inr [] | Some _ => inl ValueError end
  | c :: r =>
      match field with
      | Some acc =>
          if c =? 125 then
            match assoc (rev acc) env with
            | None => inl (KeyError (rev acc))
            | Some v =>
                match format_from env None r with
                | inr out => inr (v ++ out)
                | inl e => inl e
                end
            end
          else format_from env (Some (c :: acc)) r
      | None =>
          if c =? 123 then
            match r with
            | c2 :: r2 =>
                if c2 =? 123 then
                  match format_from env None r2 with
                  | inr out => inr (123 :: out)
                  | inl e => inl e
                  end
                else format_from env (Some []) r
            | [] => inl ValueError
            end
          else if c =? 125 then
            match r with
            | c2 :: r2 =>
                if c2 =? 125 then
                  match format_from env None r2 with
                  | inr out => inr (125 :: out)
                  | inl e => inl e
                  end
                else inl ValueError
            | [] => inl ValueError
            end
          else
            match format_from env None r with
            | inr out => inr (c :: out)
            | inl e => inl e
            end
      end
  end.

Definition format (template : str) (env : list (str * str)) : exn + str :=
  format_from env None template.

(** *** [base64.b64decode]

    Characters outside the alphabet are skipped; what remains is read in
    groups of four, the last of which may end with padding. *)
Definition b64_value (c : codepoint) : option N :=
  if is_upper c then Some (c - 65)
  else if is_lower c then Some (c - 71)
  else if is_digit c then Some (c + 4)
  else if c =? 43 then Some 62
  else if c =? 47 then Some 63
  else if c =? 61 then Some 64
  else None.

Fixpoint b64_values (s : str) : list N :=
  match s with
  | [] => []
  | c :: r =>
      match b64_value c with
      | Some v => v :: b64_values r
      | None => b64_values r
      end
  end.

Definition is_nil {A : Type} (l : list A) : bool :=
  match l with [] => true | _ => false end.

Fixpoint b64_groups (v : list N) : option (list N) :=
  match v with
  | [] => Some []
  | a :: b :: c :: d :: r =>
      if (a <? 64) && (b <? 64) && (c <? 64) && (d <? 64) then
        match b64_groups r with
        | Some bs =>
            Some ((a * 4 + b / 16) :: ((b mod 16) * 16 + c / 4)
                    :: ((c mod 4) * 64 + d) :: bs)
        | None => None
        end
      else if (a <? 64) && (b <? 64) && (c <? 64) && (d =? 64) && is_nil r then
        Some [a * 4 + b / 16; (b mod 16) * 16 + c / 4]
      else if (a <? 64) && (b <? 64) && (c =? 64) && (d =? 64) && is_nil r then
        Some [a * 4 + b / 16]
      else None
  | _ => None
  end.

Definition b64decode (s : str) : exn + list N :=
  match b64_groups (b64_values s) with
  | Some b => inr b
  | None => inl Base64Error
  end.

(** *** [datetime] and the format [%Y%m%d_%H%M%S] *)

Record datetime := {
  year : N; month : N; day : N; hour : N; minute : N; second : N;
  microsecond : N
}.

Definition digit (n : N) : codepoint := 48 + n mod 10.
Definition pad2 (n : N) : str := [digit (n / 10); digit n].
Definition pad4 (n : N) : str :=
  [digit (n / 1000); digit (n / 100); digit (n / 10); digit n].

Definition timestamp (now : datetime) : str :=
  pad4 (year now) ++ pad2 (month now) ++ pad2 (day now) ++ lit "_"
  ++ pad2 (hour now) ++ pad2 (minute now) ++ pad2 (second now).

(** *** The file system as the generator sees it

    What is at a path: nothing, a file, or a directory with its entries. *)
Inductive node :=
| File
| Dir (entries : list str).

Definition filesystem := Path -> option node.

(** ** Effects

    A run performs calls of [mkdir], [write_bytes], [write_text] and of the
    log callback, in order.  Each of these calls can raise: what a call
    raises, given the calls made before it in the run, is an input of the
    run (the [system]).  A run ends with a value or with an exception; a
    call that raises is the last event of its run, and what was done
    before it stays done. *)
Inductive event :=
| Mkdir (p : Path)                      (* p.mkdir(parents=True, exist_ok=True) *)
| WriteBytes (p : Path) (b : list N)    (* p.write_bytes(b) *)
| WriteText (p : Path) (s : str)        (* p.write_text(s, encoding='utf-8') *)
| Log (line : str).

Definition system := list event -> event -> option exn.

Definition outcome (A : Type) : Type := (list event * (exn + A))%type.

(** A computation: from the system and the calls made so far to the new
    calls and the result. *)
Definition io (A : Type) : Type := system -> list event -> outcome A.

Definition ret {A : Type} (a : A) : io A := fun _ _ => ([], inr a).
Definition raise {A : Type} (e : exn) : io A := fun _ _ => ([], inl e).
Definition try {A : Type} (r : exn + A) : io A := fun _ _ => ([], r).

Definition emit (e : event) : io unit :=
  fun os done =>
    ([e], match os done e with
          | Some x => inl x
          | None => inr tt
          end).

Definition bind {A B : Type} (m : io A) (f : A -> io B) : io B :=
  fun os done =>
    match m os done with
    | (t1, inl e) => (t1, inl e)
    | (t1, inr a) => let (t2, r) := f a os (done ++ t1) in (t1 ++ t2, r)
    end.

Notation "x <- m ;; k" := (bind m (fun x => k))
  (at level 61, m at next level, right associativity).
Notation "m ;; k" := (bind m (fun _ => k))
  (at level 61, right associativity).
(** ** Constants and templates of the generator *)

Definition LOCKED : list (str * str) := [
  (lit "minecraft_version", lit "1.21.4");
  (lit "yarn_mappings", lit "1.21.4+build.4");
  (lit "loader_version", lit "0.18.4");
  (lit "fabric_api_version", lit "0.119.4+1.21.4");
  (lit "loom_version", lit "1.14.9");
  (lit "recommended_gradle", lit "9.3.1");
  (lit "java_version", lit "21")
].

(** [LOCKED[key]] for the keys that the generator reads, all present. *)
Definition LOCKED_at (key : str) : str :=
  match assoc key LOCKED with
  | Some v => v
  | None => []
  end.

Definition ICON_B64 : str :=
  lit "iVBORw0KGgoAAAANSUhEUgAAABAAAAAQCAQAAAC1+jfqAAAAJElEQVR4AWP8z8Dwn4GBgYGJ"
  ++ lit "gYGBoYHhP0YGBgYGAEo5A6oE9g8pAAAAAElFTkSuQmCC".

(** The template texts, line by line as they stand in the source, each
    between the newline after the opening quotes and the indentation of
    the closing ones. *)
Definition tpl_settings_gradle : str := unlines [
  [];
  lit "        pluginManagement {{";
  lit "            repositories {{";
  lit "                maven {{ url = 'https://maven.fabricmc.net/' }}";
  lit "                gradlePluginPortal()";
  lit "            }}";
  lit "        }}";
  lit "        rootProject.name = '{project_name}'";
  lit "    "
].

Definition tpl_gradle_properties : str := unlines [
  [];
  lit "        org.gradle.jvmargs=-Xmx2G -Dfile.encoding=UTF-8";
  lit "        org.gradle.parallel=true";
  lit "        minecraft_version={minecraft_version}";
  lit "        yarn_mappings={yarn_mappings}";
  lit "        loader_version={loader_version}";
  lit "        fabric_api_version={fabric_api_version}";
  lit "        loom_version={loom_version}";
  lit "        maven_group={maven_group}";
  lit "        archives_base_name={mod_id}";
  lit "        mod_version={mod_version}";
  lit "    "
].

Definition tpl_build_gradle : str := unlines [
  [];
  lit "        plugins {{";
  lit "            id 'fabric-loom' version '{loom_version}'";
  lit "            id 'maven-publish'";
  lit "        }}";
  lit "        version = project.mod_version";
  lit "        group = project.maven_group";
  lit "        base {{ archivesName = project.archives_base_name }}";
  lit "        ";
  lit "        repositories {{";
  lit "            maven {{ url = 'https://maven.fabricmc.net/' }}";
  lit "            mavenCentral()";
  lit "        }}";
  lit "        ";
  lit "        dependencies {{";
  lit "            minecraft " ++ dq ++ lit "com.mojang:minecraft:${{minecraft_version}}" ++ dq;
  lit "            mappings " ++ dq ++ lit "net.fabricmc:yarn:${{yarn_mappings}}:v2" ++ dq;
  lit "            modImplementation " ++ dq ++ lit "net.fabricmc:fabric-loader:${{loader_version}}" ++ dq;
  lit "            modImplementation " ++ dq ++ lit "net.fabricmc.fabric-api:fabric-api:${{fabric_api_version}}" ++ dq;
  lit "        }}";
  lit "        ";
  lit "        tasks.withType(JavaCompile).configureEach {{";
  lit "            it.options.encoding = 'UTF-8'";
  lit "            it.options.release = {java_version}";
  lit "        }}";
  lit "        ";
  lit "        java {{";
  lit "            toolchain {{ languageVersion = JavaLanguageVersion.of({java_version}) }}";
  lit "            withSourcesJar()";
  lit "        }}";
  lit "        ";
  lit "        processResources {{";
  lit "            inputs.property " ++ dq ++ lit "version" ++ dq ++ lit ", project.version";
  lit "            filesMatching(" ++ dq ++ lit "fabric.mod.json" ++ dq ++ lit ") {{ expand " ++ dq ++ lit "version" ++ dq ++ lit ": project.version }}";
  lit "        }}";
  lit "    "
].

Definition tpl_readme : str := unlines [
  [];
  lit "        # {client_name} (Fabric {minecraft_version})";
  lit "        ";
  lit "        Run: `./gradlew runClient` (or `.\gradlew.bat runClient` on Windows)";
  lit "        Build: `./gradlew build`";
  lit "        ";
  lit "        Press Right Shift in-game to open GUI.";
  lit "    "
].

Definition tpl_cbclient_java : str := unlines [
  [];
  lit "        package {pkg};";
  lit "        import {pkg}.module.ModuleManager;";
  lit "        import {pkg}.gui.ClientScreen;";
  lit "        import net.fabricmc.api.ClientModInitializer;";
  lit "        import net.fabricmc.fabric.api.client.event.lifecycle.v1.ClientTickEvents;";
  lit "        import net.fabricmc.fabric.api.client.keybinding.v1.KeyBindingHelper;";
  lit "        import net.minecraft.client.option.KeyBinding;";
  lit "        import net.minecraft.client.util.InputUtil;";
  lit "        import net.minecraft.text.Text;";
  lit "        import org.lwjgl.glfw.GLFW;";
  lit "        import org.slf4j.Logger;";
  lit "        import org.slf4j.LoggerFactory;";
  lit "        ";
  lit "        public class CBClient implements ClientModInitializer {{";
  lit "            public static final String MOD_ID = " ++ dq ++ lit "{mod_id}" ++ dq ++ lit ";";
  lit "            public static final String CLIENT_NAME = " ++ dq ++ lit "{client_name}" ++ dq ++ lit ";";
  lit "            public static final Logger LOGGER = LoggerFactory.getLogger(MOD_ID);";
  lit "            private static KeyBinding openGuiKey;";
  lit "            ";
  lit "            @Override";
  lit "            public void onInitializeClient() {{";
  lit "                LOGGER.info(" ++ dq ++ lit "[{{}}] init" ++ dq ++ lit ", CLIENT_NAME);";
  lit "                ModuleManager.init();";
  lit "                openGuiKey = KeyBindingHelper.registerKeyBinding(new KeyBinding(";
  lit "                    " ++ dq ++ lit "key.{mod_id}.open_gui" ++ dq ++ lit ", InputUtil.Type.KEYSYM,";
  lit "                    GLFW.GLFW_KEY_RIGHT_SHIFT, " ++ dq ++ lit "category.{mod_id}" ++ dq ++ lit "));";
  lit "                ClientTickEvents.END_CLIENT_TICK.register(client -> {{";
  lit "                    while (openGuiKey.wasPressed()) {{";
  lit "                        if (client.currentScreen == null)";
  lit "                            client.setScreen(new ClientScreen(Text.of(CLIENT_NAME)));";
  lit "                    }}";
  lit "                }});";
  lit "            }}";
  lit "        }}";
  lit "    "
].

Definition tpl_module_java : str := unlines [
  [];
  lit "        package {pkg}.module;";
  lit "        public abstract class Module {{";
  lit "            private final String name;";
  lit "            private boolean enabled;";
  lit "            public Module(String name) {{ this.name = name; }}";
  lit "            public String getName() {{ return name; }}";
  lit "            public boolean isEnabled() {{ return enabled; }}";
  lit "            public void setEnabled(boolean enabled) {{";
  lit "                if (this.enabled != enabled) {{";
  lit "                    this.enabled = enabled;";
  lit "                    if (enabled) onEnable(); else onDisable();";
  lit "                }}";
  lit "            }}";
  lit "            public void toggle() {{ setEnabled(!enabled); }}";
  lit "            protected void onEnable() {{}}";
  lit "            protected void onDisable() {{}}";
  lit "        }}";
  lit "    "
].

Definition tpl_module_manager_java : str := unlines [
  [];
  lit "        package {pkg}.module;";
  lit "        import java.util.*;";
  lit "        public final class ModuleManager {{";
  lit "            private static final List<Module> MODULES = new ArrayList<>();";
  lit "            public static void init() {{ MODULES.add(new ExampleModule()); }}";
  lit "            public static List<Module> all() {{ return Collections.unmodifiableList(MODULES); }}";
  lit "        }}";
  lit "    "
].

Definition tpl_example_module_java : str := unlines [
  [];
  lit "        package {pkg}.module;";
  lit "        import {pkg}.CBClient;";
  lit "        public class ExampleModule extends Module {{";
  lit "            public ExampleModule() {{ super(" ++ dq ++ lit "Example" ++ dq ++ lit "); }}";
  lit "            @Override protected void onEnable() {{ CBClient.LOGGER.info(" ++ dq ++ lit "Example ON" ++ dq ++ lit "); }}";
  lit "            @Override protected void onDisable() {{ CBClient.LOGGER.info(" ++ dq ++ lit "Example OFF" ++ dq ++ lit "); }}";
  lit "        }}";
  lit "    "
].

Definition tpl_client_screen_java : str := unlines [
  [];
  lit "        package {pkg}.gui;";
  lit "        import {pkg}.module.*;";
  lit "        import net.minecraft.client.gui.screen.Screen;";
  lit "        import net.minecraft.client.gui.widget.ButtonWidget;";
  lit "        import net.minecraft.text.Text;";
  lit "        ";
  lit "        public class ClientScreen extends Screen {{";
  lit "            public ClientScreen(Text title) {{ super(title); }}";
  lit "            @Override";
  lit "            protected void init() {{";
  lit "                int y = 40, x = this.width / 2 - 100;";
  lit "                for (Module m : ModuleManager.all()) {{";
  lit "                    ButtonWidget btn = ButtonWidget.builder(labelFor(m), b -> {{";
  lit "                        m.toggle(); b.setMessage(labelFor(m));";
  lit "                    }}).dimensions(x, y, 200, 20).build();";
  lit "                    this.addDrawableChild(btn);";
  lit "                    y += 24;";
  lit "                }}";
  lit "                this.addDrawableChild(ButtonWidget.builder(Text.of(" ++ dq ++ lit "Close" ++ dq ++ lit "), b -> this.close())";
  lit "                    .dimensions(x, y + 10, 200, 20).build());";
  lit "            }}";
  lit "            private Text labelFor(Module m) {{";
  lit "                return Text.of(m.getName() + " ++ dq ++ lit " : " ++ dq ++ lit " + (m.isEnabled() ? " ++ dq ++ lit "ON" ++ dq ++ lit " : " ++ dq ++ lit "OFF" ++ dq ++ lit "));";
  lit "            }}";
  lit "        }}";
  lit "    "
].

Definition tpl_mixin_java : str := unlines [
  [];
  lit "        package {pkg}.mixin;";
  lit "        import {pkg}.CBClient;";
  lit "        import net.minecraft.client.MinecraftClient;";
  lit "        import org.spongepowered.asm.mixin.Mixin;";
  lit "        import org.spongepowered.asm.mixin.injection.*;";
  lit "        import org.spongepowered.asm.mixin.injection.callback.CallbackInfoReturnable;";
  lit "        ";
  lit "        @Mixin(MinecraftClient.class)";
  lit "        public class MinecraftClientMixin {{";
  lit "            @Inject(method = " ++ dq ++ lit "getWindowTitle" ++ dq ++ lit ", at = @At(" ++ dq ++ lit "HEAD" ++ dq ++ lit "), cancellable = true)";
  lit "            private void cbclient$windowTitle(CallbackInfoReturnable<String> cir) {{";
  lit "                cir.setReturnValue(CBClient.CLIENT_NAME + " ++ dq ++ lit " | {minecraft_version}" ++ dq ++ lit ");";
  lit "            }}";
  lit "        }}";
  lit "    "
].

Definition gitignore_text : str := unlines [
  lit ".gradle/";
  lit "build/";
  lit "out/";
  lit ".idea/";
  lit "*.iml";
  lit "run/";
  lit "logs/"
].

(** ** Writing files and generating the tree *)

Inductive content :=
| Text (s : str)
| Bytes (b : list N).

(** [write_text] opens the file and then encodes the text: with a text
    that has no UTF-8 encoding the call is made and raises
    [UnicodeEncodeError]. *)
Definition write_file (path : Path) (c : content) : io unit :=
  emit (Mkdir (parent path)) ;;
  match c with
  | Bytes b => emit (WriteBytes path b)
  | Text s =>
      let text := strip s ++ [c_nl] in
      emit (WriteText path text) ;;
      match utf8_encode text with
      | Some _ => ret tt
      | None => raise UnicodeEncodeError
      end
  end.

(** The helper [t] of [generate]: the template filled from [LOCKED] and
    the keyword arguments (which win), then trimmed. *)
Definition t (template : str) (kw : list (str * str)) : io str :=
  s <- try (format template (kw ++ LOCKED)) ;;
  ret (strip s).

Section Generate.
Context {UT : UnicodeTables}.

(** The manifest and the two other JSON files, before serialisation. *)
Definition fabric_mod_json (meta : Meta) : json :=
  JDict [
    (lit "schemaVersion", JInt 1);
    (lit "id", JStr (mod_id meta));
    (lit "version", JStr (lit "${version}"));
    (lit "name", JStr (client_name meta));
    (lit "description", JStr (description meta));
    (lit "authors", JList (map JStr (authors meta)));
    (lit "license", JStr (license_name meta));
    (lit "icon", JStr (lit "assets/" ++ mod_id meta ++ lit "/icon.png"));
    (lit "environment", JStr (lit "client"));
    (lit "entrypoints",
       JDict [(lit "client", JList [JStr (base_package meta ++ lit ".CBClient")])]);
    (lit "mixins", JList [JStr (mod_id meta ++ lit ".mixins.json")]);
    (lit "depends", JDict [
       (lit "fabricloader", JStr (lit ">=0.18.0"));
       (lit "minecraft", JStr (lit "=" ++ LOCKED_at (lit "minecraft_version")));
       (lit "java", JStr (lit ">=" ++ LOCKED_at (lit "java_version")));
       (lit "fabric-api", JStr (lit "*"))
     ])
  ].

Definition mixins_json (meta : Meta) : json :=
  JDict [
    (lit "required", JBool true);
    (lit "minVersion", JStr (lit "0.8"));
    (lit "package", JStr (base_package meta ++ lit ".mixin"));
    (lit "compatibilityLevel", JStr (lit "JAVA_" ++ LOCKED_at (lit "java_version")));
    (lit "client", JList [JStr (lit "MinecraftClientMixin")]);
    (lit "injectors", JDict [(lit "defaultRequire", JInt 1)])
  ].

Definition lang_json (meta : Meta) : json :=
  JDict [
    (lit "key." ++ mod_id meta ++ lit ".open_gui",
       JStr (lit "Open " ++ client_name meta ++ lit " GUI"));
    (lit "category." ++ mod_id meta, JStr (client_name meta))
  ].

(** The choice of the target directory: the first lines of [generate]
    after the normalisation.  [iterdir] on a file raises. *)
Definition resolve_root (fs : filesystem) (now : datetime) (meta : Meta)
    : exn + Path :=
  let root := out_dir meta // project_name meta in
  match fs root with
  | None => inr root
  | Some File => inl (NotADirectoryError root)
  | Some (Dir []) => inr root
  | Some (Dir (_ :: _)) =>
      inr (out_dir meta // (project_name meta ++ lit "_" ++ timestamp now))
  end.

(** The rest of [generate]: every file of the tree, in the order of the
    source, below [root]. *)
Definition write_tree (root : Path) (meta : Meta) : io unit :=
  emit (Log (lit "Generating: " ++ path_str root)) ;;

  (* Root files *)
  c <- t tpl_settings_gradle [(lit "project_name", project_name meta)] ;;
  write_file (root // lit "settings.gradle") (Text c) ;;

  c <- t tpl_gradle_properties
         [(lit "maven_group", maven_group meta);
          (lit "mod_id", mod_id meta);
          (lit "mod_version", mod_version meta)] ;;
  write_file (root // lit "gradle.properties") (Text c) ;;

  c <- t tpl_build_gradle [] ;;
  write_file (root // lit "build.gradle") (Text c) ;;

  write_file (root // lit ".gitignore") (Text gitignore_text) ;;

  c <- t tpl_readme [(lit "client_name", client_name meta)] ;;
  write_file (root // lit "README.md") (Text c) ;;

  (* Resources *)
  let res := root // lit "src/main/resources" in

  write_file (res // lit "fabric.mod.json") (Text (dumps (fabric_mod_json meta))) ;;

  write_file (res // (mod_id meta ++ lit ".mixins.json"))
             (Text (dumps (mixins_json meta))) ;;

  (* Lang files *)
  let lang_dir := res // (lit "assets/" ++ mod_id meta ++ lit "/lang") in
  write_file (lang_dir // lit "en_us.json") (Text (dumps (lang_json meta))) ;;

  icon <- try (b64decode ICON_B64) ;;
  write_file (res // (lit "assets/" ++ mod_id meta ++ lit "/icon.png")) (Bytes icon) ;;

  (* Java sources *)
  let java_root :=
    root // (lit "src/main/java/"
             ++ replace_char c_dot c_slash (base_package meta)) in
  let pkg := base_package meta in

  c <- t tpl_cbclient_java
         [(lit "pkg", pkg); (lit "mod_id", mod_id meta);
          (lit "client_name", client_name meta)] ;;
  write_file (java_root // lit "CBClient.java") (Text c) ;;

  (* Module system *)
  c <- t tpl_module_java [(lit "pkg", pkg)] ;;
  write_file (java_root // lit "module/Module.java") (Text c) ;;

  c <- t tpl_module_manager_java [(lit "pkg", pkg)] ;;
  write_file (java_root // lit "module/ModuleManager.java") (Text c) ;;

  c <- t tpl_example_module_java [(lit "pkg", pkg)] ;;
  write_file (java_root // lit "module/ExampleModule.java") (Text c) ;;

  (* GUI *)
  c <- t tpl_client_screen_java [(lit "pkg", pkg)] ;;
  write_file (java_root // lit "gui/ClientScreen.java") (Text c) ;;

  (* Mixin *)
  c <- t tpl_mixin_java [(lit "pkg", pkg)] ;;
  write_file (java_root // lit "mixin/MinecraftClientMixin.java") (Text c) ;;

  emit (Log (lit "Done.")).

Definition generate (fs : filesystem) (now : datetime) (meta : Meta) : io Path :=
  let meta := normalized meta in
  root <- try (resolve_root fs now meta) ;;
  write_tree root meta ;;
  ret root.

End Generate.

(** ** The template set

    The tree that [generate] writes, as a catalogue: for each file the
    names of its path below the target directory and its content.  The
    theorem [write_tree_writes_template_set] shows that [write_tree]
    makes exactly the calls of this catalogue, in order, up to the first
    call that raises. *)

(** The text that [t] returns when the template is well formed. *)
Definition render (template : str) (kw : list (str * str)) : str :=
  match format template (kw ++ LOCKED) with
  | inr s => strip s
  | inl _ => []
  end.

(** The decoded icon. *)
Definition icon_png : list N :=
  Eval vm_compute in
    match b64decode ICON_B64 with inr b => b | inl _ => [] end.

(** The path with the names [ns] below [root]. *)
Definition below (root : Path) (ns : list str) : Path :=
  {| anchor := anchor root; names := names root ++ ns |}.

(** The write that [write_file] performs after [mkdir]. *)
Definition written (path : Path) (c : content) : event :=
  match c with
  | Bytes b => WriteBytes path b
  | Text s => WriteText path (strip s ++ [c_nl])
  end.

Definition resources_dir : list str := [lit "src"; lit "main"; lit "resources"].

Section TemplateSet.
Context {UT : UnicodeTables}.

(** The directory of the Java sources: one name per segment of the
    derived namespace. *)
Definition java_dir (meta : Meta) : list str :=
  [lit "src"; lit "main"; lit "java"] ++ split_on c_dot (base_package meta).

Definition template_set (meta : Meta) : list (list str * content) :=
  let pkg := base_package meta in
  [ ([lit "settings.gradle"],
     Text (render tpl_settings_gradle [(lit "project_name", project_name meta)]));
    ([lit "gradle.properties"],
     Text (render tpl_gradle_properties
             [(lit "maven_group", maven_group meta);
              (lit "mod_id", mod_id meta);
              (lit "mod_version", mod_version meta)]));
    ([lit "build.gradle"], Text (render tpl_build_gradle []));
    ([lit ".gitignore"], Text gitignore_text);
    ([lit "README.md"],
     Text (render tpl_readme [(lit "client_name", client_name meta)]));
    (resources_dir ++ [lit "fabric.mod.json"],
     Text (dumps (fabric_mod_json meta)));
    (resources_dir ++ [mod_id meta ++ lit ".mixins.json"],
     Text (dumps (mixins_json meta)));
    (resources_dir ++ [lit "assets"; mod_id meta; lit "lang"; lit "en_us.json"],
     Text (dumps (lang_json meta)));
    (resources_dir ++ [lit "assets"; mod_id meta; lit "icon.png"],
     Bytes icon_png);
    (java_dir meta ++ [lit "CBClient.java"],
     Text (render tpl_cbclient_java
             [(lit "pkg", pkg); (lit "mod_id", mod_id meta);
              (lit "client_name", client_name meta)]));
    (java_dir meta ++ [lit "module"; lit "Module.java"],
     Text (render tpl_module_java [(lit "pkg", pkg)]));
    (java_dir meta ++ [lit "module"; lit "ModuleManager.java"],
     Text (render tpl_module_manager_java [(lit "pkg", pkg)]));
    (java_dir meta ++ [lit "module"; lit "ExampleModule.java"],
     Text (render tpl_example_module_java [(lit "pkg", pkg)]));
    (java_dir meta ++ [lit "gui"; lit "ClientScreen.java"],
     Text (render tpl_client_screen_java [(lit "pkg", pkg)]));
    (java_dir meta ++ [lit "mixin"; lit "MinecraftClientMixin.java"],
     Text (render tpl_mixin_java [(lit "pkg", pkg)])) ].

End TemplateSet.

(** The tree writer: for each entry the parent directory is made and the
    file is written. *)
Definition tree_writer (root : Path) (entries : list (list str * content))
    : list event :=
  flat_map (fun e => [Mkdir (parent (below root (fst e)));
                      written (below root (fst e)) (snd e)]) entries.

(** The files of a trace: path and bytes (nothing when the text has no
    UTF-8 encoding and [write_text] raises). *)
Fixpoint written_files (tr : list event) : list (Path * option (list N)) :=
  match tr with
  | [] => []
  | WriteBytes p b :: r => (p, Some b) :: written_files r
  | WriteText p s :: r => (p, utf8_encode s) :: written_files r
  | _ :: r => written_files r
  end.

(** The calls of a whole run of [generate] with the target [root], and the
    run that ends well there. *)
Definition calls_at {UT : UnicodeTables} (root : Path) (meta : Meta)
    : list event :=
  Log (lit "Generating: " ++ path_str root)
    :: tree_writer root (template_set meta) ++ [Log (lit "Done.")].

Definition run_at {UT : UnicodeTables} (root : Path) (meta : Meta)
    : outcome Path :=
  (calls_at root meta, inr root).

(** What a call raises: what the system says, or else, for a text that
    has no encoding, [UnicodeEncodeError]. *)
Definition raises (os : system) (done : list event) (e : event) : option exn :=
  match os done e with
  | Some x => Some x
  | None =>
      match e with
      | WriteText _ s =>
          match utf8_encode s with
          | Some _ => None
          | None => Some UnicodeEncodeError
          end
      | _ => None
      end
  end.

(** A list of calls made one after the other, up to the first that
    raises. *)
Fixpoint perform (os : system) (done calls : list event) : outcome unit :=
  match calls with
  | [] => ([], inr tt)
  | e :: rest =>
      match raises os done e with
      | Some x => ([e], inl x)
      | None => let (tr, r) := perform os (done ++ [e]) rest in (e :: tr, r)
      end
  end.

(** A system on which no call raises. *)
Definition healthy (os : system) : Prop := forall done e, os done e = None.

Definition no_failure : system := fun _ _ => None.

(** The bytes of a content as [write_file] writes it. *)
Definition content_bytes (c : content) : option (list N) :=
  match c with
  | Bytes b => Some b
  | Text s => utf8_encode (strip s ++ [c_nl])
  end.

(** A content that has bytes: a text with a UTF-8 encoding, or bytes. *)
Definition encodable (c : content) : Prop := content_bytes c <> None.

(** A written file seen from the target directory. *)
Definition relativize (root : Path) (f : Path * option (list N))
    : option Path * option (list N) :=
  (relative_to root (fst f), snd f).

(** The binary and the text writes of a trace. *)
Fixpoint bytes_writes (tr : list event) : list (Path * list N) :=
  match tr with
  | [] => []
  | WriteBytes p b :: r => (p, b) :: bytes_writes r
  | _ :: r => bytes_writes r
  end.

Fixpoint text_writes (tr : list event) : list (Path * str) :=
  match tr with
  | [] => []
  | WriteText p s :: r => (p, s) :: text_writes r
  | _ :: r => text_writes r
  end.

(** The white space of ASCII, as bytes. *)
Definition ascii_space (b : N) : bool := in_range 9 13 b || in_range 28 32 b.

(** File systems and a time for the examples. *)
Definition path_eqb (p q : Path) : bool :=
  str_eqb (anchor p) (anchor q)
  && (if list_eq_dec (list_eq_dec N.eq_dec) (names p) (names q)
      then true else false).

Definition no_files : filesystem := fun _ => None.

Definition one_dir (d : Path) (entries : list str) : filesystem :=
  fun p => if path_eqb p d then Some (Dir entries) else None.

Definition some_time : datetime :=
  {| year := 2024; month := 5; day := 17; hour := 8; minute := 30; second := 9;
     microsecond := 120034 |}.

Definition later_time : datetime :=
  {| year := 2025; month := 12; day := 1; hour := 23; minute := 59; second := 58;
     microsecond := 0 |}.

(** The binary entries of a template set. *)
Definition binary_entries (entries : list (list str * content))
    : list (list str * list N) :=
  flat_map (fun e => match snd e with
                     | Bytes b => [(fst e, b)]
                     | Text _ => []
                     end) entries.

(** ** Regular expressions

    The patterns the specification names, with the usual meaning of a
    match of the whole string. *)

Inductive regex :=
| Cls (p : codepoint -> bool)      (* a character class *)
| Chr (c : codepoint)              (* one given character *)
| Cat (r1 r2 : regex)              (* r1 r2 *)
| Star (r : regex)                 (* r* *)
| UpTo (n : nat) (r : regex).      (* r{0,n} *)

Inductive fullmatch : regex -> str -> Prop :=
| M_cls p c : p c = true -> fullmatch (Cls p) [c]
| M_chr c : fullmatch (Chr c) [c]
| M_cat r1 r2 s1 s2 :
    fullmatch r1 s1 -> fullmatch r2 s2 -> fullmatch (Cat r1 r2) (s1 ++ s2)
| M_star_nil r : fullmatch (Star r) []
| M_star_cons r s1 s2 :
    fullmatch r s1 -> fullmatch (Star r) s2 -> fullmatch (Star r) (s1 ++ s2)
| M_upto_nil n r : fullmatch (UpTo n r) []
| M_upto_cons n r s1 s2 :
    fullmatch r s1 -> fullmatch (UpTo n r) s2 ->
    fullmatch (UpTo (S n) r) (s1 ++ s2).

(** [^[a-z][a-z0-9_-]{0,63}$] *)
Definition slug_re : regex := Cat (Cls is_lower) (UpTo 63 (Cls slug_char)).

(** The pattern of dotted names: a segment, [[a-z_]] then any number of
    [[a-z0-9_]], followed by any number of groups of a dot and a segment. *)
Definition seg_start (c : codepoint) : bool := is_lower c || (c =? c_under).
Definition seg_char (c : codepoint) : bool :=
  is_lower c || is_digit c || (c =? c_under).
Definition seg_re : regex := Cat (Cls seg_start) (Star (Cls seg_char)).
Definition pkg_re : regex := Cat seg_re (Star (Cat (Chr c_dot) seg_re)).

(** Two neighbouring characters of [s] both in the class [p]. *)
Fixpoint adjacent (p : codepoint -> bool) (s : str) : bool :=
  match s with
  | [] => false
  | a :: r =>
      match r with
      | [] => false
      | b :: _ => (p a && p b) || adjacent p r
      end
  end.

(** [s] ends with a character of the class [p]. *)
Definition ends_with (p : codepoint -> bool) (s : str) : bool :=
  match rev s with
  | [] => false
  | c :: _ => p c
  end.

(** ** Well-formed identifiers *)

Abbreviation All p s := (Forall (fun c => p c = true) s).
Abbreviation no_slash s := (All (fun c => negb (c =? c_slash)) s).

(** What a well-formed module id is: a small letter, then at most 63
    characters of [[a-z0-9_-]], no two separators side by side. *)
Definition slug_ok (y : str) : Prop :=
  exists c r, y = c :: r /\ is_lower c = true /\ All slug_char r /\
              (length r <= 63)%nat /\ adjacent is_sep y = false.

(** A segment of a dotted name: [[a-z_]] then characters of [[a-z0-9_]]. *)
Definition seg_ok (g : str) : Prop :=
  exists c r, g = c :: r /\ seg_start c = true /\ All seg_char r.

(** A string is blank when it is empty or all white space. *)
Definition blank (s : str) : bool := forallb isspace s.

(** The trimmed non-blank authors, in order. *)
Definition kept_authors (l : list str) : list str :=
  map strip (filter (fun a => negb (blank a)) l).

(** ** Auxiliary notions for the effects *)

(** The template is well formed and its fields are among the keys. *)
Definition format_ok (template : str) (kw : list (str * str)) : Prop :=
  exists s, format template (kw ++ LOCKED) = inr s.

(** ** Example inputs *)

(** The record that [main] passes to [generate] (with some working
    directory), and the same with a description of one space. *)
Definition main_meta : Meta := {|
  out_dir := path_of_str (lit "/home/user");
  project_name := lit "CBClient_client";
  client_name := lit "CBClient";
  mod_id := lit "cbclient";
  maven_group := lit "com.example";
  mod_version := lit "0.1.0";
  authors := [lit "Unknown"];
  description := lit "Fabric client mod";
  license_name := lit "MIT"
|}.

Definition blank_description_meta : Meta := {|
  out_dir := out_dir main_meta;
  project_name := project_name main_meta;
  client_name := client_name main_meta;
  mod_id := mod_id main_meta;
  maven_group := maven_group main_meta;
  mod_version := mod_version main_meta;
  authors := authors main_meta;
  description := lit " ";
  license_name := license_name main_meta
|}.

(** [main]'s record with blanks around the client name: the same canonical
    metadata. *)
Definition main_meta_spaced : Meta := {|
  out_dir := out_dir main_meta;
  project_name := project_name main_meta;
  client_name := lit "  CBClient ";
  mod_id := lit "CBClient";
  maven_group := maven_group main_meta;
  mod_version := mod_version main_meta;
  authors := [lit " Unknown"; lit ""];
  description := lit "Fabric client mod ";
  license_name := license_name main_meta
|}.

(** ** The two halves of [safe_pkg]

    [safe_pkg s] is [pkg_finish (pkg_clean s)]: the first half works on
    characters, the second on segments. *)

Section PkgHalves.
Context {UT : UnicodeTables}.

Definition pkg_clean (s : str) : str :=
  re_keep pkg_char
    (replace_char c_space c_under (replace_char c_hyphen c_under (lower s))).

Definition pkg_finish (z : str) : str :=
  str_or
    (join (lit ".")
       (map pkg_segment
          (filter truthy
             (split_on c_dot
                (strip_chars (lit ".")
                   (re_sub_plus is_dot (fun _ => lit ".") [] z))))))
    (lit "com.example").

End PkgHalves.

(** A dotted name: segments joined with single dots. *)
Definition dotted (y : str) : Prop :=
  exists g gs, y = join (lit ".") (g :: gs) /\ Forall seg_ok (g :: gs).

(** A text with something in it and no white space around it. *)
Definition trimmed (s : str) : Prop := blank s = false /\ strip s = s.

(** ** Notions for the trace of a run *)

(** A name that stays inside its directory: a real name, not [..], with no
    slash. *)
Definition safe_name (n : str) : bool :=
  is_name n && negb (str_eqb n (lit ".."))
  && forallb (fun c => negb (c =? c_slash)) n.

(** The path that a write event writes. *)
Definition write_path (e : event) : option Path :=
  match e with
  | WriteBytes p _ => Some p
  | WriteText p _ => Some p
  | _ => None
  end.

(** A list of strings without repetition, as a test. *)
Fixpoint nodupb (l : list str) : bool :=
  match l with
  | [] => true
  | x :: r => negb (existsb (str_eqb x) r) && nodupb r
  end.

(** The last twelve characters of the last name of a list of names, from
    the end. *)
Definition name_key (ns : list str) : str := firstn 12 (rev (last ns [])).


(** Names that are safe as path components. *)
Abbreviation safe_names ns := (Forall (fun n => safe_name n = true) ns).

(** A piece of a template without braces. *)
Abbreviation plain s :=
  (forallb (fun c => negb (c =? 123) && negb (c =? 125)) s = true).

(** The names of the Java source directory below the target, and what is
    shown of one Java source of the catalogue: its place and the package
    on its first line. *)
Abbreviation java_names := [lit "src"; lit "main"; lit "java"].

Abbreviation java_entry_ok meta subs file tpl kw :=
  (let gs := split_on c_dot (base_package meta) ++ subs in
   Forall seg_ok gs /\
   java_dir meta ++ subs ++ [file] = java_names ++ gs ++ [file] /\
   join (lit ".") gs
   = base_package meta ++ concat (map (fun q => lit "." ++ q) subs) /\
   exists rest,
     strip (render tpl kw) ++ [c_nl]
     = lit "package " ++ join (lit ".") gs ++ lit ";" ++ rest).

(** ** The clock

    What [datetime.now()] guarantees of its fields (with four digits for
    the year), and two times in the same second. *)
Definition calendar (d : datetime) : Prop :=
  1000 <= year d <= 9999 /\ 1 <= month d <= 12 /\ 1 <= day d <= 31 /\
  hour d < 24 /\ minute d < 60 /\ second d < 60 /\ microsecond d < 1000000.

Definition same_second (a b : datetime) : Prop :=
  year a = year b /\ month a = month b /\ day a = day b /\
  hour a = hour b /\ minute a = minute b /\ second a = second b.

(** ** Directories

    The directories above a path, from the anchor down: with
    [parents=True], [mkdir] makes the path and those of them that are
    missing. *)
Definition ancestors (p : Path) : list Path :=
  map (fun k => {| anchor := anchor p; names := firstn k (names p) |})
      (seq 0 (length (names p))).

(** What is asked of a call of a run with the target [root]: a file is
    written below the target; a directory is made at the target or below
    it, so that every directory the call can make is the target, below it,
    or above it. *)
Definition inside (root : Path) (e : event) : Prop :=
  match e with
  | WriteBytes p _ | WriteText p _ =>
      exists ns, ns <> [] /\ p = below root ns /\ safe_names ns
  | Mkdir p =>
      (exists ns, p = below root ns /\ safe_names ns) /\
      forall d, In d (p :: ancestors p) ->
                In d (ancestors root)
                \/ exists ms, d = below root ms /\ safe_names ms
  | Log _ => True
  end.

(** ** A run at a target

    The run [run] of [generate] takes place at [target]: its calls are the
    first calls of the run at [target], beginning with the log line that
    names it; when it ends well it returns [target] and has made all of
    them; and it ends well when no call raises in the system and every
    content has bytes. *)
Definition runs_at {UT : UnicodeTables} (os : system) (run : outcome Path)
    (target : Path) (cm : Meta) : Prop :=
  (exists tr, fst run = Log (lit "Generating: " ++ path_str target) :: tr) /\
  (exists rest, calls_at target cm = fst run ++ rest) /\
  (forall root, snd run = inr root ->
                root = target /\ fst run = calls_at target cm) /\
  (healthy os -> Forall (fun e => encodable (snd e)) (template_set cm) ->
   run = run_at target cm).

(** ** The form

    The state of the window [App], as far as its methods read and write
    it: the eight text variables of [self.vars], the text that
    [self.desc.get("1.0", "end")] returns, the text of the preview label
    and the text inserted into the log widget so far. *)
Record App := {
  vars_out : str;
  vars_project : str;
  vars_client : str;
  vars_modid : str;
  vars_group : str;
  vars_version : str;
  vars_authors : str;
  vars_license : str;
  desc : str;
  preview : str;
  log : str
}.

Definition c_comma : codepoint := Eval cbv in cp ",".

(** The right arrow and the space that start the preview text. *)
Definition arrow : str := [8594; c_space].

(** The dialog that ends [_generate]; [showerror] is given the text of
    the exception, which is kept as the exception here. *)
Inductive dialog :=
| showinfo (title message : str)
| showerror (title : str) (e : exn).

Definition set_modid (self : App) (v : str) : App := {|
  vars_out := vars_out self; vars_project := vars_project self;
  vars_client := vars_client self; vars_modid := v;
  vars_group := vars_group self; vars_version := vars_version self;
  vars_authors := vars_authors self; vars_license := vars_license self;
  desc := desc self; preview := preview self; log := log self
|}.

Definition set_authors (self : App) (v : str) : App := {|
  vars_out := vars_out self; vars_project := vars_project self;
  vars_client := vars_client self; vars_modid := vars_modid self;
  vars_group := vars_group self; vars_version := vars_version self;
  vars_authors := v; vars_license := vars_license self;
  desc := desc self; preview := preview self; log := log self
|}.

Definition set_preview (self : App) (v : str) : App := {|
  vars_out := vars_out self; vars_project := vars_project self;
  vars_client := vars_client self; vars_modid := vars_modid self;
  vars_group := vars_group self; vars_version := vars_version self;
  vars_authors := vars_authors self; vars_license := vars_license self;
  desc := desc self; preview := v; log := log self
|}.

Definition set_log (self : App) (v : str) : App := {|
  vars_out := vars_out self; vars_project := vars_project self;
  vars_client := vars_client self; vars_modid := vars_modid self;
  vars_group := vars_group self; vars_version := vars_version self;
  vars_authors := vars_authors self; vars_license := vars_license self;
  desc := desc self; preview := preview self; log := v
|}.

Definition _log_msg (self : App) (msg : str) : App :=
  set_log self (log self ++ msg ++ [c_nl]).

(** The log callback applied to the lines of a trace, in order. *)
Fixpoint log_lines (self : App) (tr : list event) : App :=
  match tr with
  | [] => self
  | Log line :: r => log_lines (_log_msg self line) r
  | _ :: r => log_lines self r
  end.

(** A system on which the log callback returns. *)
Definition quiet_log (os : system) : system :=
  fun done e =>
    match e with
    | Log _ => None
    | _ => os done e
    end.

Section Form.
Context {UT : UnicodeTables}.

Definition _meta (self : App) : Meta := {|
  out_dir := path_of_str (vars_out self);
  project_name := vars_project self;
  client_name := vars_client self;
  mod_id := vars_modid self;
  maven_group := vars_group self;
  mod_version := vars_version self;
  authors := split_on c_comma (vars_authors self);
  description := strip (desc self);
  license_name := vars_license self
|}.

Definition _update_preview (self : App) : App :=
  let meta := normalized (_meta self) in
  set_preview self (arrow ++ path_str (out_dir meta // project_name meta)).

Definition _fix_modid (self : App) : App :=
  _update_preview (set_modid self (slugify_modid (vars_modid self))).

(** [_generate]: the run with [_log_msg] as its log callback, then one
    dialog; every exception of the run is caught.  The log callback is
    [_log_msg], which returns, so that for this run no call of the log
    raises ([quiet_log]).  The result is the form after the run, what the
    run did, and the dialog. *)
Definition _generate (fs : filesystem) (os : system) (now : datetime)
    (self : App) : App * list event * dialog :=
  let (tr, r) := generate fs now (_meta self) (quiet_log os) [] in
  (log_lines self tr, tr,
   match r with
   | inr out => showinfo (lit "Pronto") (lit "Gerado em:" ++ c_nl :: path_str out)
   | inl e => showerror (lit "Erro") e
   end).

End Form.

(** A form for the examples: the initial values of the window. *)
Definition initial_form : App := {|
  vars_out := lit "/home/user";
  vars_project := lit "CBClient_client";
  vars_client := lit "CBClient";
  vars_modid := lit "cbclient";
  vars_group := lit "com.example";
  vars_version := lit "0.1.0";
  vars_authors := lit "GuilhermeBedYT";
  vars_license := lit "MIT";
  desc := lit "Custom Fabric client mod" ++ [c_nl];
  preview := [];
  log := []
|}.

(** [main]'s record with a lone surrogate as the client name, and a
    system in which the call number [n] of a run raises [ENOSPC]. *)
Definition surrogate_meta : Meta := {|
  out_dir := out_dir main_meta;
  project_name := project_name main_meta;
  client_name := [55296];
  mod_id := mod_id main_meta;
  maven_group := maven_group main_meta;
  mod_version := mod_version main_meta;
  authors := authors main_meta;
  description := description main_meta;
  license_name := license_name main_meta
|}.

Definition fails_at (n : nat) : system :=
  fun done _ => if Nat.eqb (length done) n then Some (OSError 28) else None.
(** ** Lemmas on the string primitives *)

Ltac classes :=
  unfold slug_char, pkg_char, seg_start, seg_char, is_sep, is_dot, is_lower,
    is_upper, is_digit, is_ascii, in_range, ascii_lower, c_space, c_hyphen,
    c_dot, c_slash, c_under, c_nl in *.

Ltac blia :=
  classes;
  repeat rewrite ?negb_true_iff, ?negb_false_iff, ?orb_true_iff,
    ?andb_true_iff, ?orb_false_iff, ?andb_false_iff, ?N.eqb_eq, ?N.eqb_neq, ?N.leb_le, ?N.leb_gt, ?N.ltb_lt,
    ?N.ltb_ge in *;
  lia.


Lemma lstrip_by_split (p : codepoint -> bool) (s : str) :
  exists pre, s = pre ++ lstrip_by p s /\ All p pre.
Proof.
  induction s as [|c r IH]; simpl.
  - exists []; auto.
  - destruct (p c) eqn:E.
    + destruct IH as [pre [H1 H2]]. exists (c :: pre). split.
      * simpl. now rewrite <- H1.
      * constructor; assumption.
    + exists []; auto.
Qed.

Lemma lstrip_by_head (p : codepoint -> bool) (s : str) (c : codepoint) (r : str) :
  lstrip_by p s = c :: r -> p c = false.
Proof.
  induction s as [|a t IH]; simpl; [discriminate|].
  destruct (p a) eqn:E; auto.
  intros H; injection H as -> _; exact E.
Qed.

Lemma lstrip_by_id (p : codepoint -> bool) (s : str) :
  match s with [] => True | c :: _ => p c = false end -> lstrip_by p s = s.
Proof. destruct s; simpl; auto. now intros ->. Qed.

Lemma ends_with_app (p : codepoint -> bool) (s : str) (c : codepoint) :
  ends_with p (s ++ [c]) = p c.
Proof. unfold ends_with. now rewrite rev_app_distr. Qed.

Lemma rstrip_by_split (p : codepoint -> bool) (s : str) :
  exists post, s = rstrip_by p s ++ post /\ All p post.
Proof.
  unfold rstrip_by.
  destruct (lstrip_by_split p (rev s)) as [pre [H1 H2]].
  exists (rev pre). split.
  - rewrite <- rev_app_distr, <- H1. now rewrite rev_involutive.
  - apply Forall_rev; assumption.
Qed.

Lemma rstrip_by_end (p : codepoint -> bool) (s : str) :
  ends_with p (rstrip_by p s) = false.
Proof.
  unfold ends_with, rstrip_by. rewrite rev_involutive.
  destruct (lstrip_by p (rev s)) eqn:E; auto.
  eapply lstrip_by_head; eauto.
Qed.

Lemma rstrip_by_id (p : codepoint -> bool) (s : str) :
  ends_with p s = false -> rstrip_by p s = s.
Proof.
  unfold ends_with, rstrip_by. intros H.
  rewrite lstrip_by_id; [apply rev_involutive|].
  destruct (rev s); auto.
Qed.

(** A prefix keeps the first character. *)
Lemma prefix_head (s t : str) (c : codepoint) (r : str) :
  s ++ t = c :: r -> s <> [] -> exists r', s = c :: r'.
Proof.
  destruct s as [|a s']; [congruence|].
  simpl. intros H _. injection H as -> _. eauto.
Qed.

Lemma adjacent_cons (p : codepoint -> bool) (a : codepoint) (s : str) :
  adjacent p (a :: s) =
  match s with [] => false | b :: _ => (p a && p b) || adjacent p s end.
Proof. reflexivity. Qed.

Lemma adjacent_suffix (p : codepoint -> bool) (pre s : str) :
  adjacent p (pre ++ s) = false -> adjacent p s = false.
Proof.
  induction pre as [|a t IH]; simpl app; auto.
  rewrite adjacent_cons. destruct (t ++ s) eqn:E.
  - destruct t; simpl in E; [subst; auto | discriminate].
  - intros H. apply orb_false_iff in H. tauto.
Qed.

Lemma adjacent_prefix (p : codepoint -> bool) (s post : str) :
  adjacent p (s ++ post) = false -> adjacent p s = false.
Proof.
  induction s as [|a t IH]; auto.
  simpl app. rewrite !adjacent_cons.
  destruct t as [|b t']; auto.
  simpl app in *. intros H. apply orb_false_iff in H. destruct H as [H1 H2].
  rewrite H1. simpl. auto.
Qed.

Lemma adjacent_spec (p : codepoint -> bool) (s : str) :
  adjacent p s = false <->
  (forall pre a b post, s = pre ++ a :: b :: post -> p a = true -> p b = true -> False).
Proof.
  split.
  - intros H pre a b post -> Ha Hb.
    apply adjacent_suffix in H. rewrite adjacent_cons, Ha, Hb in H. discriminate.
  - induction s as [|a t IH]; auto.
    intros H. rewrite adjacent_cons. destruct t as [|b t']; auto.
    apply orb_false_iff. split.
    + destruct (p a) eqn:Ea, (p b) eqn:Eb; auto.
      exfalso. apply (H [] a b t'); auto.
    + apply IH. intros pre x y post E. apply (H (a :: pre) x y post).
      now rewrite E.
Qed.

(** Collapsing runs to their first character. *)
Lemma flush_first_short (run : str) : (length (flush (firstn 1) run) <= 1)%nat.
Proof.
  destruct run; simpl; auto.
  destruct (rev run ++ [c]) eqn:E; simpl; auto.
Qed.

Lemma flush_first_All (p : codepoint -> bool) (run : str) :
  All p run -> All p (flush (firstn 1) run).
Proof.
  intros H. destruct run as [|c run']; simpl; auto.
  change (rev run' ++ [c]) with (rev (c :: run')).
  apply Forall_rev in H.
  destruct (rev (c :: run')); simpl; auto.
  constructor; auto. now inversion H.
Qed.

Lemma re_sub_first_All (p cls : codepoint -> bool) (s run : str) :
  All p run -> All p s -> All p (re_sub_plus cls (firstn 1) run s).
Proof.
  revert run. induction s as [|c r IH]; intros run Hrun Hs; simpl.
  - now apply flush_first_All.
  - inversion Hs; subst. destruct (cls c).
    + apply IH; auto.
    + apply Forall_app. split; [now apply flush_first_All|].
      constructor; auto.
Qed.

Lemma re_sub_first_adjacent (cls : codepoint -> bool) (s run : str) :
  adjacent cls (re_sub_plus cls (firstn 1) run s) = false.
Proof.
  revert run. induction s as [|c r IH]; intros run; cbn [re_sub_plus].
  - pose proof (flush_first_short run) as H. revert H.
    destruct (flush (firstn 1) run) as [|a [|b t]]; simpl; auto; lia.
  - destruct (cls c) eqn:E; [apply IH|].
    assert (Hc : adjacent cls (c :: re_sub_plus cls (firstn 1) [] r) = false).
    { rewrite adjacent_cons, E. specialize (IH []). revert IH.
      destruct (re_sub_plus cls (firstn 1) [] r); auto. }
    pose proof (flush_first_short run) as H. revert H.
    destruct (flush (firstn 1) run) as [|a [|b t]]; simpl length; try lia; auto.
    intros _. simpl app. rewrite adjacent_cons, E, andb_false_r. exact Hc.
Qed.

Lemma re_sub_first_id (cls : codepoint -> bool) (s : str) :
  adjacent cls s = false ->
  re_sub_plus cls (firstn 1) [] s = s /\
  (forall a, match s with [] => True | c :: _ => cls c = false end ->
             re_sub_plus cls (firstn 1) [a] s = a :: s).
Proof.
  induction s as [|c r IH]; intros H.
  - split; auto.
  - rewrite adjacent_cons in H.
    assert (Hr : adjacent cls r = false /\
                 (cls c = true -> match r with [] => True | b :: _ => cls b = false end)).
    { destruct r as [|b t]; auto. apply orb_false_iff in H. destruct H as [H1 H2].
      split; auto. intros Hc. now rewrite Hc in H1. }
    destruct Hr as [Hr1 Hr2]. destruct (IH Hr1) as [IH1 IH2]. split.
    + cbn [re_sub_plus]. destruct (cls c) eqn:E.
      * apply IH2. apply Hr2. reflexivity.
      * cbn [flush app]. now rewrite IH1.
    + intros a Ha. cbn [re_sub_plus]. rewrite Ha, IH1. reflexivity.
Qed.

Lemma strip_by_split (p : codepoint -> bool) (s : str) :
  exists pre post, s = pre ++ strip_by p s ++ post /\ All p pre /\ All p post.
Proof.
  unfold strip_by.
  destruct (lstrip_by_split p s) as [pre [H1 H2]].
  destruct (rstrip_by_split p (lstrip_by p s)) as [post [H3 H4]].
  exists pre, post. rewrite <- H3. auto.
Qed.

Lemma strip_by_head (p : codepoint -> bool) (s : str) (c : codepoint) (r : str) :
  strip_by p s = c :: r -> p c = false.
Proof.
  unfold strip_by. intros H.
  destruct (rstrip_by_split p (lstrip_by p s)) as [post [H1 _]].
  rewrite H in H1. simpl in H1. eapply lstrip_by_head; eauto.
Qed.

Lemma strip_by_end (p : codepoint -> bool) (s : str) :
  ends_with p (strip_by p s) = false.
Proof. apply rstrip_by_end. Qed.

Lemma strip_by_id (p : codepoint -> bool) (s : str) :
  match s with [] => True | c :: _ => p c = false end ->
  ends_with p s = false -> strip_by p s = s.
Proof.
  intros H1 H2. unfold strip_by. rewrite lstrip_by_id by assumption.
  now apply rstrip_by_id.
Qed.

Lemma lstrip_by_ext (p q : codepoint -> bool) (s : str) :
  (forall c, p c = q c) -> lstrip_by p s = lstrip_by q s.
Proof.
  intros H. induction s as [|c r IH]; simpl; auto. now rewrite H, IH.
Qed.

Lemma strip_by_ext (p q : codepoint -> bool) (s : str) :
  (forall c, p c = q c) -> strip_by p s = strip_by q s.
Proof.
  intros H. unfold strip_by, rstrip_by.
  now rewrite !(lstrip_by_ext p q) by assumption.
Qed.

Lemma mem_seps (c : codepoint) : mem (lit "_-") c = is_sep c.
Proof.
  unfold mem. change (lit "_-") with [95; 45].
  cbn [existsb]. apply eq_true_iff_eq. blia.
Qed.

Lemma mem_dot (c : codepoint) : mem (lit ".") c = is_dot c.
Proof.
  unfold mem. change (lit ".") with [46].
  cbn [existsb]. apply eq_true_iff_eq. blia.
Qed.

Lemma mem_digits_seps (c : codepoint) :
  mem (lit "0123456789_-") c = is_digit c || is_sep c.
Proof.
  unfold mem.
  change (lit "0123456789_-") with [48; 49; 50; 51; 52; 53; 54; 55; 56; 57; 95; 45].
  cbn [existsb]. apply eq_true_iff_eq. blia.
Qed.

(** ** The slug normaliser *)


Lemma upto_cls (p : codepoint -> bool) (n : nat) (s : str) :
  fullmatch (UpTo n (Cls p)) s <-> All p s /\ (length s <= n)%nat.
Proof.
  split.
  - intros H. remember (UpTo n (Cls p)) as re eqn:E. revert n E.
    induction H; intros m E; try discriminate.
    + split; [constructor | simpl; lia].
    + injection E as E1 E2. subst. inversion H; subst.
      destruct (IHfullmatch2 n eq_refl) as [Ha Hl].
      split; [constructor; auto | simpl; lia].
  - revert n. induction s as [|c r IH]; intros n [H1 H2].
    + constructor.
    + destruct n as [|n]; [simpl in H2; lia|].
      inversion H1; subst. change (c :: r) with ([c] ++ r).
      constructor; [now constructor|]. apply IH. simpl in H2. split; auto; lia.
Qed.

Lemma star_cls (p : codepoint -> bool) (s : str) :
  fullmatch (Star (Cls p)) s <-> All p s.
Proof.
  split.
  - intros H. remember (Star (Cls p)) as re eqn:E.
    induction H; try discriminate; auto.
    injection E as ->. inversion H; subst. constructor; auto.
  - induction 1 as [|c r Hc _ IH]; [constructor|].
    change (c :: r) with ([c] ++ r). constructor; [now constructor | exact IH].
Qed.

Lemma slug_re_spec (y : str) :
  fullmatch slug_re y <->
  exists c r, y = c :: r /\ is_lower c = true /\ All slug_char r /\
              (length r <= 63)%nat.
Proof.
  unfold slug_re. split.
  - intros H. inversion H as [| |? ? s1 s2 H1 H2| | | |]; subst.
    inversion H1; subst. apply upto_cls in H2. destruct H2.
    exists c, s2. auto.
  - intros (c & r & -> & Hc & Hr & Hl).
    change (c :: r) with ([c] ++ r). constructor; [now constructor|].
    apply upto_cls. auto.
Qed.

Lemma lower_is_slug_char (c : codepoint) : is_lower c = true -> slug_char c = true.
Proof. blia. Qed.

Lemma slug_ok_firstn (c : codepoint) (r : str) :
  is_lower c = true -> All slug_char r -> adjacent is_sep (c :: r) = false ->
  slug_ok (firstn 64 (c :: r)).
Proof.
  intros Hc Hr Ha. exists c, (firstn 63 r). repeat split; auto.
  - rewrite <- (firstn_skipn 63 r) in Hr. apply Forall_app in Hr. tauto.
  - apply firstn_le_length.
  - change (c :: firstn 63 r) with (firstn 64 (c :: r)).
    apply adjacent_prefix with (post := skipn 64 (c :: r)).
    now rewrite firstn_skipn.
Qed.

Section Slug.
Context {UT : UnicodeTables}.

Lemma isalpha_slug_char (c : codepoint) :
  slug_char c = true -> isalpha c = is_lower c.
Proof.
  intros H. unfold isalpha.
  assert (E : is_ascii c = true) by blia. rewrite E.
  assert (E' : is_upper c = false) by blia. rewrite E'. apply orb_false_r.
Qed.

Lemma slugify_modid_ok (s : str) : slug_ok (slugify_modid s).
Proof.
  unfold slugify_modid.
  set (s1 := re_keep slug_char _).
  assert (H1 : All slug_char s1).
  { apply Forall_forall. intros c Hc. apply filter_In in Hc. tauto. }
  set (s2' := re_sub_plus is_sep (firstn 1) [] s1).
  assert (H2 : All slug_char s2') by (apply re_sub_first_All; auto).
  assert (A2 : adjacent is_sep s2' = false) by apply re_sub_first_adjacent.
  unfold strip_chars. set (s2 := strip_by _ s2').
  destruct (strip_by_split (mem (lit "_-")) s2') as (pre & post & E & _ & _).
  fold s2 in E.
  assert (H3 : All slug_char s2).
  { rewrite E in H2. apply Forall_app in H2. destruct H2 as [_ H2].
    apply Forall_app in H2. tauto. }
  assert (A3 : adjacent is_sep s2 = false).
  { rewrite E in A2. apply adjacent_suffix in A2.
    now apply adjacent_prefix in A2. }
  unfold lstrip_chars.
  set (t := lstrip_by (mem (lit "0123456789_-")) s2).
  destruct (lstrip_by_split (mem (lit "0123456789_-")) s2) as (pre' & E' & _).
  fold t in E'.
  assert (Ht : All slug_char t).
  { rewrite E' in H3. apply Forall_app in H3. tauto. }
  assert (At : adjacent is_sep (lit "c" ++ t) = false).
  { change (lit "c" ++ t) with (99 :: t). rewrite adjacent_cons.
    destruct t as [|b t'] eqn:Et; auto.
    change (is_sep 99) with false. cbn [andb orb].
    rewrite E' in A3. now apply adjacent_suffix in A3. }
  assert (Hc : slug_ok (firstn 64 (str_or (lit "c" ++ t) (lit "cbclient")))).
  { change (str_or (lit "c" ++ t) (lit "cbclient")) with (99 :: t).
    apply slug_ok_firstn; auto. }
  destruct s2 as [|c r] eqn:Es2; [exact Hc|].
  destruct (isalpha c) eqn:Ea; [|exact Hc].
  change (str_or (c :: r) (lit "cbclient")) with (c :: r).
  inversion H3; subst.
  apply slug_ok_firstn; auto.
  rewrite <- isalpha_slug_char; auto.
Qed.

(** C1.  For every input string, [slugify_modid] returns a string that
    matches [^[a-z][a-z0-9_-]{0,63}$]: it is not empty, starts with a small
    letter, has only characters of [[a-z0-9_-]], at most 64 of them, and no
    two separator characters stand side by side. *)
Theorem slugify_modid_matches_slug_re (s : str) :
  fullmatch slug_re (slugify_modid s) /\
  (exists c r, slugify_modid s = c :: r /\ is_lower c = true) /\
  All slug_char (slugify_modid s) /\
  (1 <= length (slugify_modid s) <= 64)%nat /\
  (forall pre a b post,
      slugify_modid s = pre ++ a :: b :: post ->
      is_sep a = true -> is_sep b = true -> False).
Proof.
  destruct (slugify_modid_ok s) as (c & r & E & Hc & Hr & Hl & Ha).
  rewrite E in Ha |- *. split; [|split; [|split; [|split]]].
  - apply slug_re_spec. exists c, r. auto.
  - exists c, r. auto.
  - constructor; auto. now apply lower_is_slug_char.
  - simpl. lia.
  - exact (proj1 (adjacent_spec is_sep (c :: r)) Ha).
Qed.

(** *** Applying the normaliser twice *)

Lemma lower_from_ascii (whole : str) (i : nat) (s : str) :
  All (fun c => is_ascii c && negb (is_upper c)) s -> lower_from whole i s = s.
Proof.
  revert i. induction s as [|c r IH]; intros i H; simpl; auto.
  inversion H as [|? ? Hc Hr]; subst.
  apply andb_true_iff in Hc. destruct Hc as [H1 H2].
  apply negb_true_iff in H2.
  rewrite H1. unfold ascii_lower. rewrite H2. simpl. now rewrite IH.
Qed.

Lemma lower_slug (s : str) : All slug_char s -> lower s = s.
Proof.
  intros H. apply lower_from_ascii.
  eapply Forall_impl; [|exact H]. intros c Hc. cbv beta in *.
  apply andb_true_iff. rewrite negb_true_iff. blia.
Qed.

Lemma replace_char_absent (a b : codepoint) (s : str) :
  All (fun c => negb (c =? a)) s -> replace_char a b s = s.
Proof.
  unfold replace_char. induction 1 as [|c r Hc _ IH]; simpl; auto.
  apply negb_true_iff in Hc. now rewrite Hc, IH.
Qed.

Lemma re_keep_all (p : codepoint -> bool) (s : str) :
  All p s -> re_keep p s = s.
Proof.
  unfold re_keep. induction 1 as [|c r Hc _ IH]; simpl; auto.
  now rewrite Hc, IH.
Qed.

Lemma slugify_modid_fixed (y : str) :
  slug_ok y -> ends_with is_sep y = false -> slugify_modid y = y.
Proof.
  intros (c & r & -> & Hc & Hr & Hl & Ha) He.
  assert (Hy : All slug_char (c :: r)).
  { constructor; auto. now apply lower_is_slug_char. }
  unfold slugify_modid.
  rewrite lower_slug by assumption.
  rewrite replace_char_absent.
  2:{ eapply Forall_impl; [|exact Hy]. intros x Hx. cbv beta in *.
      apply negb_true_iff. blia. }
  rewrite re_keep_all by assumption.
  rewrite (proj1 (re_sub_first_id is_sep (c :: r) Ha)).
  unfold strip_chars. rewrite (strip_by_ext _ is_sep) by apply mem_seps.
  rewrite strip_by_id; auto.
  2:{ cbv beta iota. blia. }
  rewrite isalpha_slug_char, Hc by (now apply lower_is_slug_char).
  change (str_or (c :: r) (lit "cbclient")) with (c :: r).
  apply firstn_all2. simpl. lia.
Qed.

Lemma ends_with_suffix (p : codepoint -> bool) (pre t : str) :
  t <> [] -> ends_with p (pre ++ t) = ends_with p t.
Proof.
  intros Ht. unfold ends_with. rewrite rev_app_distr.
  destruct (rev t) eqn:E; auto.
  apply (f_equal (@rev codepoint)) in E. rewrite rev_involutive in E.
  simpl in E. congruence.
Qed.

Lemma ends_with_ext (p q : codepoint -> bool) (s : str) :
  (forall c, p c = q c) -> ends_with p s = ends_with q s.
Proof. intros H. unfold ends_with. destruct (rev s); auto. Qed.

(** The value that [slugify_modid] cuts to 64 characters does not end with
    a separator. *)
Lemma slugify_modid_uncut (s : str) :
  exists u, slugify_modid s = firstn 64 u /\ ends_with is_sep u = false.
Proof.
  unfold slugify_modid.
  set (s1 := re_keep slug_char _).
  unfold strip_chars, lstrip_chars.
  set (s2 := strip_by _ (re_sub_plus is_sep (firstn 1) [] s1)).
  assert (E2 : ends_with is_sep s2 = false).
  { rewrite <- (ends_with_ext (mem (lit "_-"))) by apply mem_seps.
    apply strip_by_end. }
  set (t := lstrip_by (mem (lit "0123456789_-")) s2).
  destruct (lstrip_by_split (mem (lit "0123456789_-")) s2) as (pre & E & _).
  fold t in E.
  assert (Et : ends_with is_sep (lit "c" ++ t) = false).
  { destruct t as [|b t'] eqn:Ht; [reflexivity|].
    rewrite ends_with_suffix by discriminate.
    rewrite E in E2. now rewrite ends_with_suffix in E2 by discriminate. }
  assert (Hc : exists u, firstn 64 (str_or (lit "c" ++ t) (lit "cbclient"))
                         = firstn 64 u /\ ends_with is_sep u = false).
  { exists (lit "c" ++ t). auto. }
  destruct s2 as [|c r] eqn:Es2; [exact Hc|].
  destruct (isalpha c); [|exact Hc].
  exists (c :: r). auto.
Qed.

Lemma short_slug_end (s : str) :
  (length (slugify_modid s) < 64)%nat ->
  ends_with is_sep (slugify_modid s) = false.
Proof.
  destruct (slugify_modid_uncut s) as (u & -> & Hu). intros H.
  rewrite firstn_all2; auto.
  destruct (Nat.le_gt_cases (length u) 64) as [Hl|Hl]; auto.
  rewrite firstn_length_le in H by lia. lia.
Qed.

(** C2, as amended.  Applying [slugify_modid] to its own result gives the
    result back whenever that result is shorter than 64 characters or, more
    generally, does not end with a separator. *)
Theorem slugify_modid_idempotent_uncut (x : str) :
  (length (slugify_modid x) < 64)%nat \/
  ends_with is_sep (slugify_modid x) = false ->
  slugify_modid (slugify_modid x) = slugify_modid x.
Proof.
  intros H. apply slugify_modid_fixed.
  - apply slugify_modid_ok.
  - destruct H as [H|H]; [now apply short_slug_end | exact H].
Qed.

End Slug.

(** Idempotence fails in general.  On an input of 63 letters, an underscore
    and one more letter, whatever the Unicode tables, the cut to 64
    characters leaves the underscore at the end, and the second application
    removes it. *)
Lemma slugify_modid_not_idempotent :
  ~ (exists UT : UnicodeTables,
        let x := repeat 97 63 ++ lit "_b" in
        slugify_modid (slugify_modid x) = slugify_modid x).
Proof. intros [UT H]. vm_compute in H. discriminate. Qed.

Lemma slugify_modid_idempotent_uncut_witness :
  let x := lit "My Mod 2" in
  ((length (@slugify_modid ascii_tables x) < 64)%nat \/
   ends_with is_sep (@slugify_modid ascii_tables x) = false) /\
  @slugify_modid ascii_tables (@slugify_modid ascii_tables x)
  = @slugify_modid ascii_tables x.
Proof.
  split.
  - right. reflexivity.
  - apply (@slugify_modid_idempotent_uncut ascii_tables (lit "My Mod 2")).
    right. reflexivity.
Defined.


(** ** The namespace normaliser *)


Lemma seg_re_spec (g : str) : fullmatch seg_re g <-> seg_ok g.
Proof.
  unfold seg_re, seg_ok. split.
  - intros H. inversion H as [| |? ? s1 s2 H1 H2| | | |]; subst.
    inversion H1; subst. apply star_cls in H2. exists c, s2. auto.
  - intros (c & r & -> & Hc & Hr). change (c :: r) with ([c] ++ r).
    constructor; [now constructor | now apply star_cls].
Qed.

Lemma join_cons (sep p : str) (ps : list str) :
  join sep (p :: ps) = p ++ concat (map (fun q => sep ++ q) ps).
Proof.
  revert p. induction ps as [|q qs IH]; intros p.
  - simpl. now rewrite app_nil_r.
  - change (join sep (p :: q :: qs)) with (p ++ sep ++ join sep (q :: qs)).
    rewrite IH. cbn [map concat]. now rewrite <- app_assoc.
Qed.

Lemma pkg_re_join (p : str) (ps : list str) :
  seg_ok p -> Forall seg_ok ps -> fullmatch pkg_re (join (lit ".") (p :: ps)).
Proof.
  intros Hp Hps. rewrite join_cons. unfold pkg_re.
  constructor; [now apply seg_re_spec|].
  induction Hps as [|q qs Hq _ IH]; cbn [map concat]; [constructor|].
  apply M_star_cons; auto.
  change (lit "." ++ q) with ([c_dot] ++ q).
  constructor; [constructor | now apply seg_re_spec].
Qed.

Lemma split_on_nonempty (sep : codepoint) (s : str) : split_on sep s <> [].
Proof.
  destruct s as [|c r]; simpl; [discriminate|].
  destruct (c =? sep); [discriminate|].
  destruct (split_on sep r); discriminate.
Qed.

Lemma split_on_pkg (s : str) :
  All pkg_char s -> Forall (fun g => All seg_char g) (split_on c_dot s).
Proof.
  induction 1 as [|c r Hc _ IH]; simpl.
  - constructor; constructor.
  - destruct (c =? c_dot) eqn:E.
    + constructor; [constructor | exact IH].
    + destruct (split_on c_dot r) as [|g gs].
      * constructor; [|constructor]. constructor; [blia | constructor].
      * inversion IH; subst. constructor; auto. constructor; auto. blia.
Qed.

(** Splitting a joined list of dot-free, non-empty list of segments gives
    the segments back. *)
Lemma split_on_undotted (g : str) :
  All seg_char g -> split_on c_dot g = [g].
Proof.
  induction 1 as [|c r Hc _ IH]; simpl; auto.
  assert (E : (c =? c_dot) = false) by blia.
  now rewrite E, IH.
Qed.

Lemma split_on_app (g rest : str) :
  All seg_char g ->
  split_on c_dot (g ++ c_dot :: rest) = g :: split_on c_dot rest.
Proof.
  induction 1 as [|c r Hc _ IH]; simpl.
  - reflexivity.
  - assert (E : (c =? c_dot) = false) by blia.
    now rewrite E, IH.
Qed.

Lemma split_on_join (p : str) (ps : list str) :
  All seg_char p -> Forall (fun g => All seg_char g) ps ->
  split_on c_dot (join (lit ".") (p :: ps)) = p :: ps.
Proof.
  intros Hp Hps. revert p Hp.
  induction Hps as [|q qs Hq _ IH]; intros p Hp.
  - now apply split_on_undotted.
  - change (join (lit ".") (p :: q :: qs))
      with (p ++ c_dot :: join (lit ".") (q :: qs)).
    rewrite split_on_app by assumption. now rewrite IH.
Qed.

Lemma seg_ok_chars (g : str) : seg_ok g -> All seg_char g.
Proof.
  intros (c & r & -> & Hc & Hr). constructor; auto. blia.
Qed.

Lemma re_sub_dots_All (s run : str) :
  All pkg_char s -> All pkg_char (re_sub_plus is_dot (fun _ => lit ".") run s).
Proof.
  assert (Hf : forall run', All pkg_char (flush (fun _ => lit ".") run')).
  { intros [|a t]; cbn [flush]; repeat constructor. }
  intros H. revert run. induction H as [|c r Hc _ IH]; intros run.
  - apply Hf.
  - cbn [re_sub_plus]. destruct (is_dot c); [apply IH|].
    apply Forall_app. split; [apply Hf|]. constructor; auto.
Qed.

Section Pkg.
Context {UT : UnicodeTables}.

Lemma pkg_segment_ok (p : str) :
  p <> [] -> All seg_char p -> seg_ok (pkg_segment p).
Proof.
  intros Hne Hp. destruct p as [|c r]; [congruence|]. clear Hne.
  inversion Hp as [|? ? Hc Hr]; subst. unfold pkg_segment.
  destruct (isalpha c || (c =? c_under)) eqn:E.
  - exists c, r. repeat split; auto.
    unfold isalpha in E. assert (Ea : is_ascii c = true) by blia.
    rewrite Ea in E. blia.
  - exists (cp "p"), (c :: r). repeat split; auto.
Qed.

Lemma pkg_parts_ok (s : str) :
  Forall (fun g => g <> [] /\ All seg_char g) (pkg_parts s).
Proof.
  unfold pkg_parts. set (s1 := re_keep pkg_char _).
  assert (H1 : All pkg_char s1).
  { apply Forall_forall. intros c Hc. apply filter_In in Hc. tauto. }
  set (s2 := re_sub_plus is_dot _ [] s1).
  assert (H2 : All pkg_char s2).
  { apply re_sub_dots_All; assumption. }
  unfold strip_chars.
  destruct (strip_by_split (mem (lit ".")) s2) as (pre & post & E & _ & _).
  assert (H3 : All pkg_char (strip_by (mem (lit ".")) s2)).
  { rewrite E in H2. apply Forall_app in H2. destruct H2 as [_ H2].
    apply Forall_app in H2. tauto. }
  apply split_on_pkg in H3. apply Forall_forall. intros g Hg.
  apply filter_In in Hg. destruct Hg as [Hg Ht].
  rewrite Forall_forall in H3. split; [|now apply H3].
  destruct g; [discriminate | congruence].
Qed.

Lemma pkg_segments_ok (s : str) : Forall seg_ok (map pkg_segment (pkg_parts s)).
Proof.
  apply Forall_map. eapply Forall_impl; [|apply pkg_parts_ok].
  intros g [H1 H2]. now apply pkg_segment_ok.
Qed.

(** The result is the fallback or the joined segments. *)
Lemma safe_pkg_cases (s : str) :
  (pkg_parts s = [] /\ safe_pkg s = lit "com.example") \/
  (exists g gs, map pkg_segment (pkg_parts s) = g :: gs /\
                safe_pkg s = join (lit ".") (g :: gs)).
Proof.
  unfold safe_pkg. pose proof (pkg_segments_ok s) as H.
  destruct (pkg_parts s) as [|p ps]; [left; auto|]. right.
  cbn [map] in *. exists (pkg_segment p), (map pkg_segment ps). split; auto.
  inversion H as [|? ? (c & r & E & _) _]; subst.
  rewrite join_cons, E. reflexivity.
Qed.

Lemma seg_ok_com_example : seg_ok (lit "com") /\ seg_ok (lit "example").
Proof.
  split; eexists; eexists; (split; [reflexivity|]); split;
    try reflexivity; repeat constructor.
Qed.

Lemma safe_pkg_fullmatch (s : str) : fullmatch pkg_re (safe_pkg s).
Proof.
  destruct seg_ok_com_example as [Hcom Hex].
  destruct (safe_pkg_cases s) as [[_ ->]|(g & gs & E & ->)].
  - apply (pkg_re_join (lit "com") [lit "example"]); auto.
  - pose proof (pkg_segments_ok s) as H. rewrite E in H.
    inversion H; subst. now apply pkg_re_join.
Qed.

Lemma safe_pkg_segments (s : str) :
  Forall seg_ok (split_on c_dot (safe_pkg s)).
Proof.
  destruct seg_ok_com_example as [Hcom Hex].
  destruct (safe_pkg_cases s) as [[_ ->]|(g & gs & E & ->)].
  - change (split_on c_dot (lit "com.example"))
      with [lit "com"; lit "example"]. auto.
  - pose proof (pkg_segments_ok s) as H. rewrite E in H.
    rewrite split_on_join; auto.
    + inversion H; subst. now apply seg_ok_chars.
    + inversion H; subst. eapply Forall_impl; [|eassumption].
      apply seg_ok_chars.
Qed.

(** C3.  For every input string, [safe_pkg] returns a string that matches
    the pattern of dotted names, [[a-z_][a-z0-9_]*] segments separated by
    single dots: split at the dots it is a non-empty list of segments, each
    a non-empty string over [[a-z0-9_]] that starts with a letter or an
    underscore; when no segment survives the result is [com.example]. *)
Theorem safe_pkg_matches_pkg_re (s : str) :
  fullmatch pkg_re (safe_pkg s) /\
  split_on c_dot (safe_pkg s) <> [] /\
  Forall seg_ok (split_on c_dot (safe_pkg s)) /\
  (pkg_parts s = [] -> safe_pkg s = lit "com.example").
Proof.
  split; [apply safe_pkg_fullmatch|].
  split; [apply split_on_nonempty|].
  split; [apply safe_pkg_segments|].
  intros H. destruct (safe_pkg_cases s) as [[_ ->]|(g & gs & E & _)]; auto.
  rewrite H in E. discriminate.
Qed.

End Pkg.

(** ** The metadata normalisation *)

Lemma lstrip_by_nil (p : codepoint -> bool) (s : str) :
  lstrip_by p s = [] <-> forallb p s = true.
Proof.
  induction s as [|c r IH]; simpl; [tauto|].
  destruct (p c); simpl; [exact IH|]. split; discriminate.
Qed.

Lemma strip_by_nil (p : codepoint -> bool) (s : str) :
  strip_by p s = [] <-> forallb p s = true.
Proof.
  rewrite <- lstrip_by_nil. unfold strip_by. split.
  - intros H. destruct (lstrip_by p s) as [|c r] eqn:E; auto.
    destruct (rstrip_by_split p (c :: r)) as (post & E1 & E2).
    rewrite H in E1. simpl in E1. subst post.
    apply lstrip_by_head in E. inversion E2; congruence.
  - intros ->. reflexivity.
Qed.

Lemma strip_by_idem (p : codepoint -> bool) (s : str) :
  strip_by p (strip_by p s) = strip_by p s.
Proof.
  apply strip_by_id; [|apply strip_by_end].
  destruct (strip_by p s) eqn:E; auto. eapply strip_by_head; eauto.
Qed.


Lemma strip_blank (s : str) : truthy (strip s) = negb (blank s).
Proof.
  unfold strip, blank. destruct (forallb isspace s) eqn:E.
  - apply strip_by_nil in E. now rewrite E.
  - destruct (strip_by isspace s) eqn:E'; auto.
    apply strip_by_nil in E'. congruence.
Qed.

Lemma blank_strip (s : str) : blank (strip s) = blank s.
Proof.
  unfold blank, strip. destruct (forallb isspace s) eqn:E.
  - apply strip_by_nil in E. now rewrite E.
  - destruct (forallb isspace (strip_by isspace s)) eqn:E'; auto.
    apply strip_by_nil in E'. rewrite strip_by_idem in E'.
    apply strip_by_nil in E'. congruence.
Qed.

Section MetadataFacts.
Context {UT : UnicodeTables}.


Lemma kept_authors_filter (l : list str) :
  map strip (filter (fun a => truthy (strip a)) l) = kept_authors l.
Proof.
  unfold kept_authors. f_equal. apply filter_ext. intros a. apply strip_blank.
Qed.

(** C7.  The normalised authors are the trimmed non-blank input authors in
    their order, or the one placeholder [Unknown] when there is none; the
    list is never empty and each entry is trimmed and not blank. *)
Theorem normalized_authors (m : Meta) :
  authors (normalized m)
  = match kept_authors (authors m) with
    | [] => [lit "Unknown"]
    | a :: l => a :: l
    end
  /\ authors (normalized m) <> []
  /\ Forall (fun a => blank a = false /\ strip a = a) (authors (normalized m))
  /\ (forallb blank (authors m) = true ->
      authors (normalized m) = [lit "Unknown"]).
Proof.
  cbn [authors normalized]. rewrite kept_authors_filter.
  split; [|split; [|split]].
  - destruct (kept_authors (authors m)); reflexivity.
  - destruct (kept_authors (authors m)); discriminate.
  - assert (H : Forall (fun a => blank a = false /\ strip a = a)
                       (kept_authors (authors m))).
    { unfold kept_authors. apply Forall_map, Forall_forall. intros a Ha.
      apply filter_In in Ha. destruct Ha as [_ Ha].
      apply negb_true_iff in Ha.
      split; [now rewrite blank_strip | apply strip_by_idem]. }
    destruct (kept_authors (authors m)); auto.
    constructor; auto.
  - intros H. unfold kept_authors.
    replace (filter (fun a => negb (blank a)) (authors m)) with (@nil str);
      [reflexivity|].
    induction (authors m) as [|a l IH]; auto. simpl in *.
    apply andb_true_iff in H. destruct H as [-> H]. simpl. auto.
Qed.

(** The description of the normalised record: the default is taken for the
    empty description only. *)
Lemma normalized_description_empty (m : Meta) :
  description m = [] ->
  description (normalized m) = strip (client_name m ++ lit " - Fabric client mod")
  /\ blank (description (normalized m)) = false.
Proof.
  intros H. cbn [description normalized]. rewrite H. cbn [str_or truthy].
  split; auto. rewrite blank_strip. unfold blank. rewrite forallb_app.
  apply andb_false_iff. right. reflexivity.
Qed.

Lemma normalized_description_kept (m : Meta) :
  description m <> [] -> description (normalized m) = strip (description m).
Proof.
  intros H. cbn [description normalized]. unfold str_or.
  destruct (description m); [congruence | reflexivity].
Qed.

End MetadataFacts.

(** C5.  A description of white space only is not replaced by the default:
    the normalised description is the empty string, for every table. *)
Theorem normalized_blank_description_is_empty (UT : UnicodeTables) :
  blank (description blank_description_meta) = true /\
  description (normalized blank_description_meta) = [].
Proof. split; reflexivity. Qed.


(** ** Examples *)

Example slugify_modid_example (UT : UnicodeTables) :
  slugify_modid (lit "123 Cool!!") = lit "ccool"
  /\ slugify_modid (lit " My Mod! ") = lit "my_mod"
  /\ slugify_modid (lit "__--") = lit "c".
Proof. repeat split. Qed.

Example safe_pkg_example (UT : UnicodeTables) :
  safe_pkg (lit "Com-Example..Test") = lit "com_example.test"
  /\ safe_pkg (lit "123") = lit "p123"
  /\ safe_pkg (lit "!!") = lit "com.example".
Proof. repeat split. Qed.

Example normalized_authors_example (UT : UnicodeTables) :
  kept_authors [lit ""] = []
  /\ kept_authors [lit " Ann "; lit "  "; lit "Bob"] = [lit "Ann"; lit "Bob"].
Proof. split; reflexivity. Qed.

Example re_sub_plus_example :
  re_sub_plus is_sep (firstn 1) [] (lit "a_-_b--c_") = lit "a_b-c_"
  /\ re_sub_plus is_dot (fun _ => lit ".") [] (lit "..a...b.") = lit ".a.b.".
Proof. split; reflexivity. Qed.

Example strip_example :
  strip (lit "  a b " ++ [c_nl]) = lit "a b"
  /\ strip_chars (lit "_-") (lit "-_a_-") = lit "a"
  /\ split_on c_dot (lit "a..b") = [lit "a"; []; lit "b"]
  /\ split_on c_dot [] = [[]].
Proof. repeat split. Qed.

Example path_example :
  path_of_str (lit "/a/./b//c") = {| anchor := lit "/"; names := [lit "a"; lit "b"; lit "c"] |}
  /\ path_str (path_of_str (lit "a") // lit "b/c") = lit "a/b/c"
  /\ path_of_str (lit "a") // lit "/etc" = path_of_str (lit "/etc")
  /\ path_str (path_of_str (lit "")) = lit "."
  /\ relative_to (path_of_str (lit "/a")) (path_of_str (lit "/a/b/c"))
     = Some (path_of_str (lit "b/c")).
Proof. repeat split. Qed.

Example format_example :
  format (lit "${{v}} {{}} {pkg}.x;") [(lit "pkg", lit "a.b")]
  = inr (lit "${v} {} a.b.x;")
  /\ format (lit "{missing}") [] = inl (KeyError (lit "missing"))
  /\ format (lit "}") [] = inl ValueError.
Proof. repeat split. Qed.

Example dumps_example :
  dumps (JDict [(lit "a", JList []); (lit "b", JList [JInt 1; JBool true]);
                (lit "c", JStr ([233; 128512; 34; 10; 127]))])
  = unlines [ lit "{";
              lit "  " ++ dq ++ lit "a" ++ dq ++ lit ": [],";
              lit "  " ++ dq ++ lit "b" ++ dq ++ lit ": [";
              lit "    1,";
              lit "    true";
              lit "  ],";
              lit "  " ++ dq ++ lit "c" ++ dq ++ lit ": " ++ dq
                ++ lit "\u00e9\ud83d\ude00\" ++ dq ++ lit "\n\u007f" ++ dq;
              lit "}" ].
Proof. reflexivity. Qed.

Example utf8_example :
  utf8_encode [97; 233; 8364; 128512]
  = Some [97; 195; 169; 226; 130; 172; 240; 159; 152; 128]
  /\ utf8_encode [55296] = None.
Proof. split; reflexivity. Qed.

Example timestamp_example : timestamp some_time = lit "20240517_083009".
Proof. reflexivity. Qed.

(** ** The effects of [generate] *)


(** *** Calls made one after the other *)

Lemma perform_app (os : system) (done a b : list event) :
  perform os done (a ++ b)
  = match perform os done a with
    | (tr, inl x) => (tr, inl x)
    | (tr, inr _) => let (tr', r) := perform os (done ++ a) b in (a ++ tr', r)
    end.
Proof.
  revert done. induction a as [|e a' IH]; intros done.
  - cbn [app perform]. rewrite app_nil_r. now destruct (perform os done b).
  - cbn [app perform]. destruct (raises os done e); [reflexivity|].
    rewrite IH. destruct (perform os (done ++ [e]) a') as [tr [x|[]]];
      [reflexivity|].
    rewrite <- app_assoc. cbn [app].
    now destruct (perform os (done ++ e :: a') b).
Qed.

(** The calls made are the first of the calls asked for, all of them when
    no call raises. *)
Lemma perform_prefix (os : system) (done calls : list event) :
  exists rest, calls = fst (perform os done calls) ++ rest.
Proof.
  revert done. induction calls as [|e l IH]; intros done.
  - exists []. reflexivity.
  - cbn [perform]. destruct (raises os done e).
    + exists l. reflexivity.
    + destruct (IH (done ++ [e])) as [rest E].
      destruct (perform os (done ++ [e]) l) as [tr r]. cbn [fst] in *.
      exists rest. cbn [app]. now rewrite <- E.
Qed.

Lemma perform_ok (os : system) (done calls : list event) :
  snd (perform os done calls) = inr tt -> fst (perform os done calls) = calls.
Proof.
  revert done. induction calls as [|e l IH]; intros done; [reflexivity|].
  cbn [perform]. destruct (raises os done e); [discriminate|].
  specialize (IH (done ++ [e])).
  destruct (perform os (done ++ [e]) l) as [tr r]. cbn [fst snd] in *.
  intros H. now rewrite IH.
Qed.

Lemma perform_healthy (os : system) (done calls : list event) :
  healthy os ->
  Forall (fun f => snd f <> None) (written_files calls) ->
  perform os done calls = (calls, inr tt).
Proof.
  intros Hos. revert done. induction calls as [|e l IH]; intros done H;
    [reflexivity|].
  cbn [perform]. unfold raises. rewrite Hos.
  destruct e as [q|q b|q s|line]; cbn [written_files] in H.
  - now rewrite IH.
  - inversion H; subst. now rewrite IH.
  - inversion H as [|? ? Hs Hl]; subst. cbn [snd] in Hs.
    destruct (utf8_encode s); [|congruence]. now rewrite IH.
  - now rewrite IH.
Qed.

Lemma perform_head (os : system) (done : list event) (e : event)
    (l : list event) :
  exists tr, fst (perform os done (e :: l)) = e :: tr.
Proof.
  cbn [perform]. destruct (raises os done e); [eexists; reflexivity|].
  destruct (perform os (done ++ [e]) l). eexists. reflexivity.
Qed.

(** A run that raises stops at the call that raises. *)
Lemma perform_raises (os : system) (done calls : list event) (x : exn) :
  snd (perform os done calls) = inl x ->
  exists pre e post,
    calls = pre ++ e :: post /\
    fst (perform os done calls) = pre ++ [e] /\
    raises os (done ++ pre) e = Some x.
Proof.
  revert done. induction calls as [|e l IH]; intros done; [discriminate|].
  cbn [perform]. destruct (raises os done e) as [y|] eqn:E.
  - intros [= ->]. exists [], e, l. rewrite app_nil_r. auto.
  - specialize (IH (done ++ [e])).
    destruct (perform os (done ++ [e]) l) as [tr r]. cbn [fst snd] in *.
    intros H. destruct (IH H) as (pre & e' & post & -> & -> & Hr).
    exists (e :: pre), e', post. rewrite <- app_assoc in Hr. auto.
Qed.

(** *** The steps of [write_tree] *)

Lemma emit_last (line : str) (os : system) (done : list event) :
  emit (Log line) os done = perform os done [Log line].
Proof.
  unfold emit. cbn [perform]. unfold raises.
  destruct (os done (Log line)); reflexivity.
Qed.

Lemma emit_step (line : str) (k : io unit) (rest : list event)
    (os : system) (done : list event) :
  (forall done', k os done' = perform os done' rest) ->
  (emit (Log line) ;; k) os done = perform os done (Log line :: rest).
Proof.
  intros H. unfold bind, emit. cbn [perform]. unfold raises.
  destruct (os done (Log line)); [reflexivity|]. now rewrite H.
Qed.

Lemma write_file_run (path : Path) (c : content) (os : system) (done : list event) :
  write_file path c os done
  = perform os done [Mkdir (parent path); written path c].
Proof.
  unfold write_file, bind, emit. cbn [perform]. unfold raises.
  destruct (os done (Mkdir (parent path))); [reflexivity|].
  destruct c as [s|b]; cbn [written]; cbv zeta.
  - destruct (os (done ++ [Mkdir (parent path)])
                 (WriteText path (strip s ++ [c_nl]))); [reflexivity|].
    destruct (utf8_encode (strip s ++ [c_nl])); reflexivity.
  - destruct (os (done ++ [Mkdir (parent path)]) (WriteBytes path b));
      reflexivity.
Qed.

Lemma write_file_step (path : Path) (c : content) (k : io unit)
    (rest : list event) (os : system) (done : list event) :
  (forall done', k os done' = perform os done' rest) ->
  (write_file path c ;; k) os done
  = perform os done (Mkdir (parent path) :: written path c :: rest).
Proof.
  intros H. unfold bind at 1. rewrite write_file_run.
  change (Mkdir (parent path) :: written path c :: rest)
    with ([Mkdir (parent path); written path c] ++ rest).
  rewrite perform_app.
  destruct (perform os done [Mkdir (parent path); written path c])
    as [tr [x|[]]] eqn:E; [reflexivity|].
  assert (Etr : tr = [Mkdir (parent path); written path c]).
  { change tr with (fst (tr, @inr exn unit tt)). rewrite <- E.
    apply perform_ok. now rewrite E. }
  subst tr. now rewrite H.
Qed.

Lemma t_step {B : Type} (template : str) (kw : list (str * str))
    (k : str -> io B) (r : outcome B) (os : system) (done : list event) :
  format_ok template kw ->
  k (render template kw) os done = r ->
  (c <- t template kw ;; k c) os done = r.
Proof.
  intros [s H] <-. unfold t, render. rewrite H.
  cbv [bind try ret]. cbn [app]. rewrite app_nil_r.
  now destruct (k (strip s) os done).
Qed.

Lemma try_step {A B : Type} (a : A) (k : A -> io B) (r : outcome B)
    (os : system) (done : list event) :
  k a os done = r -> (x <- try (inr a) ;; k x) os done = r.
Proof.
  intros <-. cbv [bind try]. rewrite app_nil_r.
  now destruct (k a os done).
Qed.

Ltac format_ok := eexists; vm_compute; reflexivity.

Lemma settings_gradle_ok (a : str) :
  format_ok tpl_settings_gradle [(lit "project_name", a)].
Proof. format_ok. Qed.

Lemma gradle_properties_ok (a b c : str) :
  format_ok tpl_gradle_properties
    [(lit "maven_group", a); (lit "mod_id", b); (lit "mod_version", c)].
Proof. format_ok. Qed.

Lemma build_gradle_ok : format_ok tpl_build_gradle [].
Proof. format_ok. Qed.

Lemma readme_ok (a : str) : format_ok tpl_readme [(lit "client_name", a)].
Proof. format_ok. Qed.

Lemma cbclient_java_ok (a b c : str) :
  format_ok tpl_cbclient_java
    [(lit "pkg", a); (lit "mod_id", b); (lit "client_name", c)].
Proof. format_ok. Qed.

Lemma module_java_ok (a : str) : format_ok tpl_module_java [(lit "pkg", a)].
Proof. format_ok. Qed.

Lemma module_manager_java_ok (a : str) :
  format_ok tpl_module_manager_java [(lit "pkg", a)].
Proof. format_ok. Qed.

Lemma example_module_java_ok (a : str) :
  format_ok tpl_example_module_java [(lit "pkg", a)].
Proof. format_ok. Qed.

Lemma client_screen_java_ok (a : str) :
  format_ok tpl_client_screen_java [(lit "pkg", a)].
Proof. format_ok. Qed.

Lemma mixin_java_ok (a : str) : format_ok tpl_mixin_java [(lit "pkg", a)].
Proof. format_ok. Qed.

Lemma b64decode_icon : b64decode ICON_B64 = inr icon_png.
Proof. vm_compute. reflexivity. Qed.

(** ** Lemmas on paths *)


Lemma split_on_absent (sep : codepoint) (s : str) :
  All (fun c => negb (c =? sep)) s -> split_on sep s = [s].
Proof.
  induction 1 as [|c r Hc _ IH]; simpl; auto.
  apply negb_true_iff in Hc. now rewrite Hc, IH.
Qed.

Lemma split_on_sep_app (sep : codepoint) (a b : str) :
  split_on sep (a ++ sep :: b) = split_on sep a ++ split_on sep b.
Proof.
  induction a as [|c a' IH]; simpl.
  - now rewrite N.eqb_refl.
  - destruct (c =? sep); rewrite IH; auto.
    pose proof (split_on_nonempty sep a') as H.
    destruct (split_on sep a'); [congruence | reflexivity].
Qed.

Lemma parse_names_app (a b : str) :
  parse_names (a ++ c_slash :: b) = parse_names a ++ parse_names b.
Proof. unfold parse_names. now rewrite split_on_sep_app, filter_app. Qed.

Lemma parse_names_name (n : str) :
  no_slash n -> is_name n = true -> parse_names n = [n].
Proof.
  intros H1 H2. unfold parse_names. rewrite split_on_absent by assumption.
  simpl. now rewrite H2.
Qed.

Lemma str_eqb_refl (a : str) : str_eqb a a = true.
Proof. unfold str_eqb. destruct (list_eq_dec N.eq_dec a a); congruence. Qed.

Lemma str_eqb_neq (a b : str) : a <> b -> str_eqb a b = false.
Proof. unfold str_eqb. destruct (list_eq_dec N.eq_dec a b); congruence. Qed.

Lemma is_name_cons (c : codepoint) (r : str) :
  c <> c_dot -> is_name (c :: r) = true.
Proof.
  intros H. unfold is_name. simpl. rewrite str_eqb_neq; auto.
  intros E. injection E as E _. contradiction.
Qed.

Lemma parse_anchor_rel (c : codepoint) (r : str) :
  c <> c_slash -> parse_anchor (c :: r) = [].
Proof.
  intros H. unfold parse_anchor.
  destruct (N.eq_dec c 47) as [->|Hc]; [contradiction|].
  destruct c as [|p]; auto.
  do 6 (destruct p as [p|p|]; auto). congruence.
Qed.

Lemma joinpath_rel (p : Path) (s : str) :
  parse_anchor s = [] -> p // s = below p (parse_names s).
Proof. unfold joinpath, path_of_str. simpl. now intros ->. Qed.

Lemma below_below (p : Path) (a b : list str) :
  below (below p a) b = below p (a ++ b).
Proof. unfold below. simpl. now rewrite app_assoc. Qed.

Lemma strip_prefix_app (a b : list str) : strip_prefix a (a ++ b) = Some b.
Proof.
  induction a as [|x a' IH]; simpl; auto. now rewrite str_eqb_refl.
Qed.

Lemma relative_to_below (root : Path) (ns : list str) :
  relative_to root (below root ns) = Some {| anchor := []; names := ns |}.
Proof.
  unfold relative_to, below. simpl.
  now rewrite str_eqb_refl, strip_prefix_app.
Qed.

Lemma parent_below (root : Path) (ns : list str) (n : str) :
  parent (below root (ns ++ [n])) = below root ns.
Proof.
  unfold parent, below. simpl. now rewrite app_assoc, removelast_last.
Qed.

Lemma name_below (root : Path) (ns : list str) (n : str) :
  name (below root (ns ++ [n])) = n.
Proof. unfold name, below. simpl. now rewrite app_assoc, last_last. Qed.

(** *** Names built from the module id and the derived namespace *)

Lemma slug_ok_no_slash (y : str) : slug_ok y -> no_slash y.
Proof.
  intros (c & r & -> & Hc & Hr & _).
  constructor; [blia|]. eapply Forall_impl; [|exact Hr].
  intros x Hx. cbv beta in *. blia.
Qed.

Lemma slug_ok_path (p : Path) (y suf : str) :
  slug_ok y -> no_slash suf -> p // (y ++ suf) = below p [y ++ suf].
Proof.
  intros Hy Hs. pose proof (slug_ok_no_slash y Hy) as Hn.
  destruct Hy as (c & r & -> & Hc & _).
  rewrite joinpath_rel by (apply parse_anchor_rel; blia).
  rewrite parse_names_name; auto.
  - apply Forall_app. auto.
  - apply is_name_cons. blia.
Qed.

Lemma slug_ok_names (y : str) : slug_ok y -> parse_names y = [y].
Proof.
  intros Hy. pose proof (slug_ok_no_slash y Hy) as Hn.
  destruct Hy as (c & r & -> & Hc & _).
  apply parse_names_name; auto. apply is_name_cons. blia.
Qed.

(** [assets/<id>/<leaf>] below a directory. *)
Lemma assets_path (p : Path) (y leaf : str) :
  slug_ok y -> no_slash leaf -> is_name leaf = true ->
  p // (lit "assets/" ++ y ++ c_slash :: leaf)
  = below p [lit "assets"; y; leaf].
Proof.
  intros Hy Hl Hn. rewrite joinpath_rel by reflexivity.
  change (lit "assets/" ++ y ++ c_slash :: leaf)
    with (lit "assets" ++ c_slash :: (y ++ c_slash :: leaf)).
  rewrite !parse_names_app, (slug_ok_names y) by assumption.
  rewrite (parse_names_name leaf) by assumption. reflexivity.
Qed.

Lemma split_on_replace (s : str) :
  no_slash s ->
  split_on c_slash (replace_char c_dot c_slash s) = split_on c_dot s.
Proof.
  unfold replace_char. induction 1 as [|c r Hc _ IH]; simpl; auto.
  apply negb_true_iff in Hc.
  destruct (c =? c_dot) eqn:E; simpl.
  - now rewrite IH.
  - now rewrite Hc, IH.
Qed.

Lemma seg_ok_is_name (g : str) : seg_ok g -> is_name g = true.
Proof. intros (c & r & -> & Hc & _). apply is_name_cons. blia. Qed.

Lemma join_no_slash (p : str) (ps : list str) :
  Forall seg_ok (p :: ps) -> no_slash (join (lit ".") (p :: ps)).
Proof.
  assert (Hs : forall g, seg_ok g -> no_slash g).
  { intros g Hg. apply seg_ok_chars in Hg.
    eapply Forall_impl; [|exact Hg]. intros x Hx. cbv beta in *. blia. }
  intros H. rewrite join_cons. inversion H as [|? ? Hp Hps]; subst. clear H.
  apply Forall_app. split; [auto|].
  induction Hps as [|q qs Hq _ IH]; simpl; [constructor|].
  constructor; [reflexivity|]. apply Forall_app. split; auto.
Qed.

Section PackagePaths.
Context {UT : UnicodeTables}.

Lemma safe_pkg_no_slash (s : str) : no_slash (safe_pkg s).
Proof.
  destruct (safe_pkg_cases s) as [[_ ->]|(g & gs & E & ->)].
  - repeat constructor.
  - apply join_no_slash. rewrite <- E. apply pkg_segments_ok.
Qed.

Lemma java_path (root : Path) (meta : Meta) :
  root // (lit "src/main/java/" ++ replace_char c_dot c_slash (base_package meta))
  = below root (java_dir meta).
Proof.
  rewrite joinpath_rel by reflexivity.
  change (lit "src/main/java/" ++ ?x)
    with (lit "src/main/java" ++ c_slash :: x).
  rewrite parse_names_app. unfold java_dir. f_equal. f_equal.
  unfold parse_names.
  rewrite split_on_replace by apply safe_pkg_no_slash.
  pose proof (safe_pkg_segments
                (maven_group meta ++ lit "." ++ mod_id meta)) as H.
  fold (base_package meta) in H.
  induction H as [|g gs Hg _ IH]; simpl; auto.
  now rewrite seg_ok_is_name, IH.
Qed.

(** C4.  The derived namespace of the normalised record is the namespace
    normaliser applied once more to the normalised namespace, a dot and the
    normalised module id; it is a dotted name, and the directory in which
    [generate] places the Java sources has one name for each of its
    segments, below [src/main/java]. *)
Theorem base_package_normalized (m : Meta) :
  base_package (normalized m)
  = safe_pkg (safe_pkg (maven_group m) ++ lit "." ++ slugify_modid (mod_id m))
  /\ fullmatch pkg_re (base_package (normalized m))
  /\ (forall root : Path,
        root // (lit "src/main/java/"
                 ++ replace_char c_dot c_slash (base_package (normalized m)))
        = below root ([lit "src"; lit "main"; lit "java"]
                      ++ split_on c_dot (base_package (normalized m)))).
Proof.
  split; [reflexivity|]. split; [apply safe_pkg_fullmatch|].
  intros root. apply java_path.
Qed.

End PackagePaths.

(** ** [write_tree] and the template set *)

Create HintDb templates.
#[local] Hint Resolve settings_gradle_ok gradle_properties_ok build_gradle_ok
  readme_ok cbclient_java_ok module_java_ok module_manager_java_ok
  example_module_java_ok client_screen_java_ok mixin_java_ok : templates.

Section WriteTree.
Context {UT : UnicodeTables}.

(** What [write_tree] does is: the first log line, the writes of the
    template set in order, the last log line, up to the first call that
    raises; the templates themselves are well formed, so that nothing else
    raises. *)
Theorem write_tree_writes_template_set
    (root : Path) (meta : Meta) (os : system) (done : list event) :
  slug_ok (mod_id meta) ->
  write_tree root meta os done = perform os done (calls_at root meta).
Proof.
  intros Hid.
  assert (E : exists calls,
             (forall done', write_tree root meta os done' = perform os done' calls)
             /\ calls = calls_at root meta).
  { eexists. split.
    - intros done'. unfold write_tree. cbv zeta.
      repeat first [ eapply emit_step; intros ?
                   | eapply write_file_step; intros ?
                   | eapply t_step; [solve [auto with templates]|]
                   | rewrite b64decode_icon; eapply try_step ].
      apply emit_last.
    - unfold calls_at.
      rewrite (slug_ok_path _ (mod_id meta) (lit ".mixins.json"))
        by (auto; repeat constructor).
      change (lit "/lang") with (c_slash :: lit "lang").
      change (lit "/icon.png") with (c_slash :: lit "icon.png").
      rewrite !assets_path by (auto; repeat constructor).
      rewrite java_path.
      rewrite !joinpath_rel by reflexivity.
      rewrite !below_below.
      reflexivity. }
  destruct E as (calls & H & <-). apply H.
Qed.

End WriteTree.

(** ** [generate] *)

Lemma project_char_no_slash {UT : UnicodeTables} (c : codepoint) :
  project_char c = true -> negb (c =? c_slash) = true.
Proof.
  unfold project_char, isword. destruct (is_ascii c) eqn:E; blia.
Qed.

Lemma timestamp_no_slash (now : datetime) : no_slash (timestamp now).
Proof.
  unfold timestamp, pad4, pad2. cbn [app lit].
  repeat constructor.
  all: unfold digit;
    match goal with |- context [?a mod 10] => generalize (a mod 10) end;
    intros d; blia.
Qed.

Lemma timestamp_length (now : datetime) : length (timestamp now) = 15%nat.
Proof. reflexivity. Qed.

(** *** The digits of the time stamp *)

Lemma digit_is_digit (n : N) : is_digit (digit n) = true.
Proof.
  unfold digit. pose proof (N.mod_lt n 10) as H.
  revert H. generalize (n mod 10). intros d H.
  assert (Hd : d < 10) by (apply H; discriminate).
  unfold is_digit. blia.
Qed.

Lemma digit_inj (a b : N) : digit a = digit b -> a mod 10 = b mod 10.
Proof. unfold digit. intros H. now apply N.add_cancel_l in H. Qed.

Lemma digits2 (a : N) : a < 100 -> a = 10 * ((a / 10) mod 10) + a mod 10.
Proof.
  intros H. pose proof (N.div_mod a 10) as E1.
  assert (H4 : a / 10 < 10) by (apply N.Div0.div_lt_upper_bound; exact H).
  rewrite (N.mod_small (a / 10) 10 H4).
  revert E1. generalize (a / 10), (a mod 10). intros. lia.
Qed.

Lemma digits4 (a : N) : a < 10000 ->
  a = 1000 * ((a / 1000) mod 10) + 100 * ((a / 100) mod 10)
      + 10 * ((a / 10) mod 10) + a mod 10.
Proof.
  intros H.
  pose proof (N.div_mod a 10) as E1.
  pose proof (N.div_mod (a / 10) 10) as E2.
  pose proof (N.div_mod (a / 100) 10) as E3.
  rewrite N.Div0.div_div in E2. change (10 * 10) with 100 in E2.
  pose proof (N.Div0.div_div a 100 10) as E4. change (100 * 10) with 1000 in E4.
  rewrite E4 in E3.
  assert (H4 : a / 1000 < 10) by (apply N.Div0.div_lt_upper_bound; exact H).
  rewrite (N.mod_small (a / 1000) 10 H4).
  revert E1 E2 E3.
  generalize (a / 1000), (a / 100), (a / 10), (a mod 10),
             ((a / 100) mod 10), ((a / 10) mod 10).
  intros. lia.
Qed.

Lemma app_same_length {A : Type} (a b c d : list A) :
  length a = length c -> a ++ b = c ++ d -> a = c /\ b = d.
Proof.
  revert c. induction a as [|x a' IH]; intros [|y c'] L E;
    try discriminate; [auto|].
  cbn [app] in E. injection E as -> E. injection L as L.
  destruct (IH c' L E) as [-> ->]. auto.
Qed.

Lemma pad2_inj (a b : N) : a < 100 -> b < 100 -> pad2 a = pad2 b -> a = b.
Proof.
  intros Ha Hb H. unfold pad2 in H. injection H as H1 H2.
  apply digit_inj in H1, H2.
  rewrite (digits2 a Ha), (digits2 b Hb). now rewrite H1, H2.
Qed.

Lemma pad4_inj (a b : N) : a < 10000 -> b < 10000 -> pad4 a = pad4 b -> a = b.
Proof.
  intros Ha Hb H. unfold pad4 in H. injection H as H1 H2 H3 H4.
  apply digit_inj in H1, H2, H3, H4.
  rewrite (digits4 a Ha), (digits4 b Hb). now rewrite H1, H2, H3, H4.
Qed.

(** The time stamp is [YYYYmmdd_HHMMSS]: eight digits, an underscore, six
    digits. *)
Lemma timestamp_shape (now : datetime) :
  exists d t, timestamp now = d ++ lit "_" ++ t /\
              length d = 8%nat /\ length t = 6%nat /\
              All is_digit d /\ All is_digit t.
Proof.
  exists (pad4 (year now) ++ pad2 (month now) ++ pad2 (day now)),
         (pad2 (hour now) ++ pad2 (minute now) ++ pad2 (second now)).
  split; [unfold timestamp; now rewrite <- !app_assoc|].
  split; [reflexivity|]. split; [reflexivity|].
  split; unfold pad4, pad2; cbn [app]; repeat constructor;
    apply digit_is_digit.
Qed.

(** It has the resolution of a second: two times of the clock have the
    same stamp exactly when they are in the same second. *)
Lemma timestamp_second (a b : datetime) :
  calendar a -> calendar b ->
  (timestamp a = timestamp b <-> same_second a b).
Proof.
  intros (Ya & Ma & Da & Ha & Mia & Sa & _) (Yb & Mb & Db & Hb & Mib & Sb & _).
  split.
  - unfold timestamp. intros E.
    assert (L4 : forall x, length (pad4 x) = 4%nat) by reflexivity.
    assert (L2 : forall x, length (pad2 x) = 2%nat) by reflexivity.
    apply app_same_length in E as [E1 E]; [|now rewrite !L4].
    apply app_same_length in E as [E2 E]; [|now rewrite !L2].
    apply app_same_length in E as [E3 E]; [|now rewrite !L2].
    apply app_same_length in E as [_ E]; [|reflexivity].
    apply app_same_length in E as [E4 E]; [|now rewrite !L2].
    apply app_same_length in E as [E5 E6]; [|now rewrite !L2].
    repeat split;
      first [ apply pad4_inj; [lia | lia | assumption]
            | apply pad2_inj; [lia | lia | assumption] ].
  - intros (E1 & E2 & E3 & E4 & E5 & E6). unfold timestamp.
    now rewrite E1, E2, E3, E4, E5, E6.
Qed.

(** ** The files of a run *)

Lemma written_files_app (a b : list event) :
  written_files (a ++ b) = written_files a ++ written_files b.
Proof.
  induction a as [|e a' IH]; simpl; auto.
  destruct e; simpl; now rewrite ?IH.
Qed.

Lemma written_files_log (line : str) (tr : list event) :
  written_files (Log line :: tr) = written_files tr.
Proof. reflexivity. Qed.

Lemma written_files_tree_writer (root : Path) (entries : list (list str * content)) :
  written_files (tree_writer root entries)
  = map (fun e => (below root (fst e), content_bytes (snd e))) entries.
Proof.
  induction entries as [|[ns c] l IH]; simpl; auto.
  destruct c; simpl; now rewrite IH.
Qed.

Section GenerateFacts.
Context {UT : UnicodeTables}.

Lemma normalized_mod_id_ok (m : Meta) : slug_ok (mod_id (normalized m)).
Proof. apply slugify_modid_ok. Qed.

Lemma normalized_project_name_ok (m : Meta) :
  project_name (normalized m) <> [] /\ no_slash (project_name (normalized m)).
Proof.
  cbn [project_name normalized]. unfold str_or.
  destruct (strip (re_keep project_char (project_name m))) as [|c r] eqn:E.
  - split; [discriminate | repeat constructor].
  - cbn [truthy]. split; [discriminate|]. rewrite <- E. unfold strip.
    destruct (strip_by_split isspace (re_keep project_char (project_name m)))
      as (pre & post & E' & _ & _).
    assert (H : All project_char (re_keep project_char (project_name m))).
    { apply Forall_forall. intros x Hx. apply filter_In in Hx. tauto. }
    rewrite E' in H. apply Forall_app in H. destruct H as [_ H].
    apply Forall_app in H. destruct H as [H _].
    eapply Forall_impl; [|exact H]. intros x. apply project_char_no_slash.
Qed.

(** The primary candidate, and the candidate with the time stamp. *)
Lemma primary_path (m : Meta) :
  let cm := normalized m in
  out_dir cm // project_name cm
  = below (out_dir cm) (if is_name (project_name cm) then [project_name cm] else []).
Proof.
  cbv zeta. destruct (normalized_project_name_ok m) as [H1 H2].
  destruct (project_name (normalized m)) as [|c r] eqn:E; [congruence|].
  rewrite joinpath_rel.
  - unfold parse_names. rewrite split_on_absent by assumption. reflexivity.
  - apply parse_anchor_rel. inversion H2; subst. blia.
Qed.

Lemma stamped_path (m : Meta) (now : datetime) :
  let cm := normalized m in
  out_dir cm // (project_name cm ++ lit "_" ++ timestamp now)
  = below (out_dir cm) [project_name cm ++ lit "_" ++ timestamp now].
Proof.
  cbv zeta. destruct (normalized_project_name_ok m) as [H1 H2].
  destruct (project_name (normalized m)) as [|c r] eqn:E; [congruence|].
  rewrite joinpath_rel.
  - rewrite parse_names_name; auto.
    + apply Forall_app. split; auto. apply Forall_app.
      split; [repeat constructor | apply timestamp_no_slash].
    + unfold is_name. cbn [app truthy andb]. rewrite str_eqb_neq; auto.
      intros H. apply (f_equal (@length codepoint)) in H.
      cbn [length app] in H. rewrite length_app in H. simpl in H. lia.
  - apply parse_anchor_rel. inversion H2; subst. blia.
Qed.

Lemma stamped_not_primary (m : Meta) (now : datetime) :
  let cm := normalized m in
  out_dir cm // (project_name cm ++ lit "_" ++ timestamp now)
  <> out_dir cm // project_name cm.
Proof.
  cbv zeta. rewrite stamped_path, primary_path.
  generalize (project_name (normalized m)) as pn. intros pn.
  unfold below. intros H.
  injection H as H. apply app_inv_head in H.
  destruct (is_name pn); [|discriminate].
  injection H as H. apply (f_equal (@length codepoint)) in H.
  rewrite length_app in H. simpl in H. lia.
Qed.

Lemma generate_run (fs : filesystem) (now : datetime) (m : Meta) (os : system) :
  generate fs now m os []
  = match resolve_root fs now (normalized m) with
    | inl e => ([], inl e)
    | inr root =>
        let (tr, r) := perform os [] (calls_at root (normalized m)) in
        (tr, match r with
             | inl e => inl e
             | inr _ => inr root
             end)
    end.
Proof.
  unfold generate. cbv zeta. cbv [bind try ret].
  destruct (resolve_root fs now (normalized m)) as [e|root]; [reflexivity|].
  cbn [app]. rewrite write_tree_writes_template_set
    by apply normalized_mod_id_ok.
  destruct (perform os [] (calls_at root (normalized m))) as [tr [x|[]]];
    [reflexivity|]. now rewrite app_nil_r.
Qed.

(** A run whose target is [root] takes place there. *)
Lemma generate_runs_at (fs : filesystem) (now : datetime) (m : Meta)
    (os : system) (root : Path) :
  resolve_root fs now (normalized m) = inr root ->
  runs_at os (generate fs now m os []) root (normalized m).
Proof.
  intros E. rewrite generate_run, E.
  pose proof (perform_prefix os [] (calls_at root (normalized m))) as Hpre.
  pose proof (perform_ok os [] (calls_at root (normalized m))) as Hok.
  pose proof (fun H => perform_healthy os [] (calls_at root (normalized m)) H)
    as Hh.
  assert (Hhd : exists tr, fst (perform os [] (calls_at root (normalized m)))
                           = Log (lit "Generating: " ++ path_str root) :: tr).
  { apply perform_head. }
  destruct (perform os [] (calls_at root (normalized m))) as [tr r].
  cbn [fst snd] in *. unfold runs_at. cbn [fst snd].
  split; [exact Hhd|]. split; [exact Hpre|]. split.
  - intros root' H. destruct r as [x|[]]; [discriminate|].
    injection H as <-. split; [reflexivity|]. now apply Hok.
  - intros Hos Henc. unfold run_at.
    assert (E' : (tr, r) = (calls_at root (normalized m), inr tt)).
    { apply Hh; [exact Hos|]. unfold calls_at.
      rewrite written_files_log, written_files_app, written_files_tree_writer.
      rewrite written_files_log, app_nil_r. apply Forall_map. exact Henc. }
    injection E' as -> ->. reflexivity.
Qed.


End GenerateFacts.

Lemma written_files_run_at {UT : UnicodeTables} (root : Path) (meta : Meta) :
  map (relativize root) (written_files (fst (run_at root meta)))
  = map (fun e => (Some {| anchor := []; names := fst e |}, content_bytes (snd e)))
        (template_set meta).
Proof.
  unfold run_at, calls_at, fst.
  rewrite written_files_log, written_files_app, written_files_tree_writer.
  rewrite written_files_log, app_nil_r, map_map. apply map_ext. intros [ns c].
  unfold relativize. cbn [fst snd]. now rewrite relative_to_below.
Qed.

Section Determinism.
Context {UT : UnicodeTables}.

Lemma generate_ok_run (fs : filesystem) (now : datetime) (m : Meta)
    (os : system) (root : Path) :
  snd (generate fs now m os []) = inr root ->
  generate fs now m os [] = run_at root (normalized m).
Proof.
  rewrite generate_run.
  destruct (resolve_root fs now (normalized m)) as [e|r]; [discriminate|].
  pose proof (perform_ok os [] (calls_at r (normalized m))) as Hok.
  destruct (perform os [] (calls_at r (normalized m))) as [tr [x|[]]];
    cbn [fst snd] in *; [discriminate|].
  intros [= ->]. unfold run_at. now rewrite Hok.
Qed.

(** The calls of a run are the first calls of a run at its target. *)
Lemma generate_calls (fs : filesystem) (now : datetime) (m : Meta) (os : system) :
  fst (generate fs now m os []) = []
  \/ exists root rest,
       resolve_root fs now (normalized m) = inr root /\
       calls_at root (normalized m) = fst (generate fs now m os []) ++ rest.
Proof.
  rewrite generate_run.
  destruct (resolve_root fs now (normalized m)) as [e|root]; [left; reflexivity|].
  right. exists root.
  destruct (perform_prefix os [] (calls_at root (normalized m))) as [rest E].
  exists rest. split; [reflexivity|].
  destruct (perform os [] (calls_at root (normalized m))). exact E.
Qed.

(** C8.  Two runs on the same canonical metadata that both end well write
    the same files with the same bytes, seen from their target
    directories, whatever the file systems, the systems and the times of
    the two runs:
    the files are those of the template set, a function of the canonical
    metadata (and of the locked constants) alone. *)
Theorem generate_deterministic
    (fs1 fs2 : filesystem) (os1 os2 : system) (now1 now2 : datetime)
    (m1 m2 : Meta) (root1 root2 : Path) :
  normalized m1 = normalized m2 ->
  snd (generate fs1 now1 m1 os1 []) = inr root1 ->
  snd (generate fs2 now2 m2 os2 []) = inr root2 ->
  map (relativize root1) (written_files (fst (generate fs1 now1 m1 os1 [])))
  = map (relativize root2) (written_files (fst (generate fs2 now2 m2 os2 [])))
  /\ map (relativize root1) (written_files (fst (generate fs1 now1 m1 os1 [])))
     = map (fun e => (Some {| anchor := []; names := fst e |},
                      content_bytes (snd e)))
           (template_set (normalized m1)).
Proof.
  intros E H1 H2.
  rewrite (generate_ok_run _ _ _ _ _ H1), (generate_ok_run _ _ _ _ _ H2).
  rewrite !written_files_run_at, E. auto.
Qed.

End Determinism.

Lemma generate_deterministic_witness :
  let fs2 := one_dir (path_of_str (lit "/home/user/CBClient_client")) [lit "old"] in
  let root1 := path_of_str (lit "/home/user/CBClient_client") in
  let root2 := path_of_str (lit "/home/user/CBClient_client_20251201_235958") in
  (@normalized ascii_tables main_meta = @normalized ascii_tables main_meta_spaced
   /\ snd (@generate ascii_tables no_files some_time main_meta no_failure []) = inr root1
   /\ snd (@generate ascii_tables fs2 later_time main_meta_spaced no_failure []) = inr root2)
  /\ map (relativize root1)
         (written_files (fst (@generate ascii_tables no_files some_time main_meta no_failure [])))
     = map (relativize root2)
         (written_files (fst (@generate ascii_tables fs2 later_time main_meta_spaced no_failure []))).
Proof.
  cbv zeta.
  assert (H : @normalized ascii_tables main_meta
              = @normalized ascii_tables main_meta_spaced
              /\ snd (@generate ascii_tables no_files some_time main_meta no_failure [])
                 = inr (path_of_str (lit "/home/user/CBClient_client"))
              /\ snd (@generate ascii_tables
                        (one_dir (path_of_str (lit "/home/user/CBClient_client"))
                                 [lit "old"])
                        later_time main_meta_spaced no_failure [])
                 = inr (path_of_str
                          (lit "/home/user/CBClient_client_20251201_235958"))).
  { split; [|split]; vm_compute; reflexivity. }
  split; [exact H|].
  destruct H as (E & H1 & H2).
  exact (proj1 (@generate_deterministic ascii_tables _ _ _ _ _ _ _ _ _ _ E H1 H2)).
Defined.


(** ** Text files end with one newline *)

Lemma utf8_encode_app (a b : str) :
  utf8_encode (a ++ b)
  = match utf8_encode a, utf8_encode b with
    | Some x, Some y => Some (x ++ y)
    | _, _ => None
    end.
Proof.
  induction a as [|c r IH]; simpl.
  - destruct (utf8_encode b); reflexivity.
  - rewrite IH. destruct (utf8_char c), (utf8_encode r), (utf8_encode b);
      try reflexivity. now rewrite app_assoc.
Qed.

Lemma ascii_space_isspace (b : N) : ascii_space b = true -> isspace b = true.
Proof.
  unfold ascii_space, isspace. intros H.
  apply orb_true_iff in H. destruct H as [H|H]; rewrite H;
    now rewrite ?orb_true_r.
Qed.

(** The last byte of the encoding of a character that is not white space
    is not an ASCII white space. *)
Lemma utf8_char_end (c : codepoint) (b : list N) :
  utf8_char c = Some b -> isspace c = false ->
  b <> [] /\ ends_with ascii_space b = false.
Proof.
  unfold utf8_char. intros H Hs.
  destruct (c <? 128) eqn:E1.
  { injection H as <-. split; [discriminate|]. unfold ends_with. simpl.
    destruct (ascii_space c) eqn:E; auto.
    apply ascii_space_isspace in E. congruence. }
  assert (Hhigh : forall x, ascii_space (128 + x) = false).
  { intros x. unfold ascii_space. blia. }
  destruct (c <? 2048); [injection H as <-; split; [discriminate | apply Hhigh]|].
  destruct (in_range 55296 57343 c); [discriminate|].
  destruct (c <? 65536); [injection H as <-; split; [discriminate | apply Hhigh]|].
  destruct (c <? 1114112); [injection H as <-; split; [discriminate | apply Hhigh]|].
  discriminate.
Qed.

Lemma utf8_encode_end (s : str) (b : list N) :
  utf8_encode s = Some b -> ends_with isspace s = false ->
  ends_with ascii_space b = false.
Proof.
  revert b. induction s as [|c r _] using rev_ind; intros b H Hs.
  - injection H as <-. reflexivity.
  - rewrite ends_with_app in Hs. rewrite utf8_encode_app in H.
    destruct (utf8_encode r) as [x|]; [|discriminate]. simpl in H.
    destruct (utf8_char c) as [y|] eqn:Ec; [|discriminate].
    rewrite app_nil_r in H. injection H as <-.
    destruct (utf8_char_end c y Ec Hs) as [Hy He].
    now rewrite ends_with_suffix.
Qed.

(** C9.  The bytes that [write_file] writes for a text [c] are the UTF-8
    bytes of the trimmed text followed by one newline byte: the trimmed text
    does not end with white space, so the byte before the final newline
    (if there is one) is not an ASCII white space, and in particular not
    another newline.  This is the one file of every call of [write_file]
    that returns, in every system, and the call returns when no call to
    the system raises. *)
Theorem write_file_text_ends_with_newline
    (path : Path) (c : str) (bs : list N) (os : system) (done : list event) :
  utf8_encode (strip c ++ [c_nl]) = Some bs ->
  (snd (write_file path (Text c) os done) = inr tt ->
   written_files (fst (write_file path (Text c) os done)) = [(path, Some bs)]) /\
  (healthy os ->
   snd (write_file path (Text c) os done) = inr tt /\
   written_files (fst (write_file path (Text c) os done)) = [(path, Some bs)]) /\
  exists body,
    bs = body ++ [10] /\
    utf8_encode (strip c) = Some body /\
    ends_with isspace (strip c) = false /\
    ends_with ascii_space body = false /\
    ends_with (N.eqb 10) body = false.
Proof.
  intros H.
  assert (Hok : snd (write_file path (Text c) os done) = inr tt ->
                written_files (fst (write_file path (Text c) os done))
                = [(path, Some bs)]).
  { rewrite write_file_run. intros Hr. rewrite (perform_ok _ _ _ Hr).
    cbn [written written_files]. now rewrite H. }
  assert (Hh : healthy os ->
               snd (write_file path (Text c) os done) = inr tt).
  { intros Hos. rewrite write_file_run, perform_healthy; auto.
    cbn [written written_files]. rewrite H. repeat constructor. discriminate. }
  split; [exact Hok|]. split; [auto|].
  rewrite utf8_encode_app in H.
  destruct (utf8_encode (strip c)) as [body|] eqn:E; [|discriminate].
  simpl in H. injection H as <-. exists body.
  assert (Hs : ends_with isspace (strip c) = false) by apply strip_by_end.
  assert (Hb : ends_with ascii_space body = false)
    by (eapply utf8_encode_end; eauto).
  split; [reflexivity|]. split; [reflexivity|].
  split; [exact Hs|]. split; [exact Hb|].
  revert Hb. unfold ends_with. destruct (@rev codepoint body) as [|b r]; auto.
  intros Hb. destruct (N.eqb_spec 10 b) as [<-|]; auto.
Qed.

Lemma write_file_text_ends_with_newline_witness :
  let path := path_of_str (lit "/home/user/CBClient_client/README.md") in
  let c := lit "  # CBClient  " ++ [c_nl; c_nl] in
  let bs := lit "# CBClient" ++ [10] in
  utf8_encode (strip c ++ [c_nl]) = Some bs /\
  snd (write_file path (Text c) no_failure []) = inr tt /\
  written_files (fst (write_file path (Text c) no_failure [])) = [(path, Some bs)].
Proof.
  cbv zeta. split; [reflexivity|].
  assert (Hh : healthy no_failure) by (intros done e; reflexivity).
  exact (proj1 (proj2 (write_file_text_ends_with_newline
                  (path_of_str (lit "/home/user/CBClient_client/README.md"))
                  (lit "  # CBClient  " ++ [c_nl; c_nl])
                  (lit "# CBClient" ++ [10]) no_failure [] eq_refl)) Hh).
Defined.

Lemma text_writes_log (line : str) (tr : list event) :
  text_writes (Log line :: tr) = text_writes tr.
Proof. reflexivity. Qed.

Lemma text_writes_app (a b : list event) :
  text_writes (a ++ b) = text_writes a ++ text_writes b.
Proof.
  induction a as [|e a' IH]; simpl; auto.
  destruct e; simpl; now rewrite ?IH.
Qed.

Lemma text_writes_tree_writer (root : Path) (entries : list (list str * content)) :
  Forall (fun f => exists c, snd f = strip c ++ [c_nl])
         (text_writes (tree_writer root entries)).
Proof.
  induction entries as [|[ns c] l IH]; simpl.
  - constructor.
  - destruct c; simpl; auto. constructor; auto. simpl. eauto.
Qed.

(** Every text that [generate] writes has this form. *)
Lemma generate_texts_trimmed {UT : UnicodeTables}
    (fs : filesystem) (now : datetime) (m : Meta) (os : system) :
  Forall (fun f => exists c, snd f = strip c ++ [c_nl])
         (text_writes (fst (generate fs now m os []))).
Proof.
  destruct (generate_calls fs now m os) as [->|(root & rest & _ & E)];
    [constructor|].
  assert (H : Forall (fun f => exists c, snd f = strip c ++ [c_nl])
                     (text_writes (calls_at root (normalized m)))).
  { unfold calls_at.
    rewrite text_writes_log, text_writes_app, text_writes_log, app_nil_r.
    apply text_writes_tree_writer. }
  rewrite E, text_writes_app in H. now apply Forall_app in H.
Qed.

(** ** The manifest and the files it names *)

Lemma bytes_writes_log (line : str) (tr : list event) :
  bytes_writes (Log line :: tr) = bytes_writes tr.
Proof. reflexivity. Qed.

Lemma bytes_writes_app (a b : list event) :
  bytes_writes (a ++ b) = bytes_writes a ++ bytes_writes b.
Proof.
  induction a as [|e a' IH]; simpl; auto.
  destruct e; simpl; now rewrite ?IH.
Qed.

Lemma bytes_writes_tree_writer (root : Path) (entries : list (list str * content)) :
  bytes_writes (tree_writer root entries)
  = map (fun x => (below root (fst x), snd x)) (binary_entries entries).
Proof.
  induction entries as [|[ns c] l IH]; simpl; auto.
  destruct c; simpl; now rewrite IH.
Qed.

Lemma text_writes_entry (root : Path) (entries : list (list str * content))
    (ns : list str) (s : str) :
  In (ns, Text s) entries ->
  In (below root ns, strip s ++ [c_nl]) (text_writes (tree_writer root entries)).
Proof.
  induction entries as [|[ns' c] l IH]; simpl; [tauto|].
  intros [H|H].
  - injection H as -> ->. simpl. auto.
  - destruct c; simpl; auto.
Qed.

Lemma below_nil (p : Path) : below p [] = p.
Proof. destruct p. unfold below. simpl. now rewrite app_nil_r. Qed.

Lemma parent_below_one (p : Path) (n : str) : parent (below p [n]) = p.
Proof.
  change [n] with ([] ++ [n]). now rewrite parent_below, below_nil.
Qed.

Lemma name_below_one (p : Path) (n : str) : name (below p [n]) = n.
Proof. change [n] with ([] ++ [n]). apply name_below. Qed.

Section Manifest.
Context {UT : UnicodeTables}.

Lemma template_set_binary (meta : Meta) :
  binary_entries (template_set meta)
  = [(resources_dir ++ [lit "assets"; mod_id meta; lit "icon.png"], icon_png)].
Proof. reflexivity. Qed.

Lemma template_set_manifest (meta : Meta) :
  In (resources_dir ++ [lit "fabric.mod.json"], Text (dumps (fabric_mod_json meta)))
     (template_set meta).
Proof. unfold template_set. do 5 right. left. reflexivity. Qed.

Lemma template_set_mixins (meta : Meta) :
  In (resources_dir ++ [mod_id meta ++ lit ".mixins.json"],
      Text (dumps (mixins_json meta)))
     (template_set meta).
Proof. unfold template_set. do 6 right. left. reflexivity. Qed.

(** C10, as amended.  In a run that ends well, the [icon] value of the
    manifest is the path, relative to the resources directory
    [src/main/resources] of the target (the directory that holds the
    manifest), of the one binary file that is written, the icon; and the one
    name in the [mixins] entry of the manifest is the name of the mixins
    file, which is written in the same directory as the manifest. *)
Theorem manifest_paths_consistent
    (fs : filesystem) (os : system) (now : datetime) (m : Meta) (root : Path) :
  snd (generate fs now m os []) = inr root ->
  let cm := normalized m in
  let tr := fst (generate fs now m os []) in
  let res := below root resources_dir in
  exists icon mixins,
    json_get (lit "icon") (fabric_mod_json cm) = Some (JStr icon) /\
    json_get (lit "mixins") (fabric_mod_json cm) = Some (JList [JStr mixins]) /\
    In (below res [lit "fabric.mod.json"],
        strip (dumps (fabric_mod_json cm)) ++ [c_nl]) (text_writes tr) /\
    bytes_writes tr = [(res // icon, icon_png)] /\
    option_map path_str (relative_to res (res // icon)) = Some icon /\
    In (res // mixins, strip (dumps (mixins_json cm)) ++ [c_nl]) (text_writes tr) /\
    parent (res // mixins) = res /\
    name (res // mixins) = mixins /\
    parent (below res [lit "fabric.mod.json"]) = res.
Proof.
  intros H. cbv zeta. rewrite (generate_ok_run _ _ _ _ _ H).
  pose proof (normalized_mod_id_ok m) as Hid.
  clear H. revert Hid. generalize (normalized m). intros cm Hid.
  exists (lit "assets/" ++ mod_id cm ++ lit "/icon.png"),
         (mod_id cm ++ lit ".mixins.json").
  unfold run_at, calls_at, fst.
  rewrite !text_writes_log, !text_writes_app, !text_writes_log, !app_nil_r.
  rewrite bytes_writes_log, bytes_writes_app, bytes_writes_log, app_nil_r.
  rewrite bytes_writes_tree_writer, template_set_binary.
  change (lit "/icon.png") with (c_slash :: lit "icon.png").
  rewrite assets_path by (auto; repeat constructor).
  rewrite slug_ok_path by (auto; repeat constructor).
  rewrite relative_to_below, !parent_below_one, name_below_one.
  rewrite !below_below.
  split; [reflexivity|]. split; [reflexivity|]. split.
  { apply text_writes_entry. apply template_set_manifest. }
  split; [reflexivity|]. split; [reflexivity|]. split.
  { apply text_writes_entry. apply template_set_mixins. }
  auto.
Qed.

End Manifest.

Lemma manifest_paths_consistent_witness :
  let root := path_of_str (lit "/home/user/CBClient_client") in
  let res := below root resources_dir in
  snd (@generate ascii_tables no_files some_time main_meta no_failure []) = inr root /\
  exists icon mixins,
    json_get (lit "icon") (@fabric_mod_json ascii_tables (@normalized ascii_tables main_meta))
    = Some (JStr icon) /\
    json_get (lit "mixins") (@fabric_mod_json ascii_tables (@normalized ascii_tables main_meta))
    = Some (JList [JStr mixins]) /\
    bytes_writes (fst (@generate ascii_tables no_files some_time main_meta no_failure []))
    = [(res // icon, icon_png)] /\
    name (res // mixins) = mixins.
Proof.
  cbv zeta.
  assert (H : snd (@generate ascii_tables no_files some_time main_meta no_failure [])
              = inr (path_of_str (lit "/home/user/CBClient_client"))).
  { vm_compute. reflexivity. }
  split; [exact H|].
  destruct (@manifest_paths_consistent ascii_tables _ _ _ _ _ H)
    as (icon & mixins & H1 & H2 & _ & H4 & _ & _ & _ & H8 & _).
  exists icon, mixins. auto.
Defined.

(** The [icon] value is not the path of the icon relative to the target
    itself.  On the record of [main], whatever the Unicode tables, the icon
    is written at [src/main/resources/assets/cbclient/icon.png] below the
    target, and the manifest says [assets/cbclient/icon.png]. *)
Lemma manifest_icon_not_relative_to_target :
  ~ (exists UT : UnicodeTables,
        let run := generate no_files some_time main_meta no_failure [] in
        forall root p b icon,
          snd run = inr root ->
          In (p, b) (bytes_writes (fst run)) ->
          json_get (lit "icon") (fabric_mod_json (normalized main_meta))
          = Some (JStr icon) ->
          option_map path_str (relative_to root p) = Some icon).
Proof.
  intros [UT H]. cbv zeta in H.
  specialize (H (path_of_str (lit "/home/user/CBClient_client"))
                (path_of_str (lit "/home/user/CBClient_client/src/main/resources/assets/cbclient/icon.png"))
                icon_png (lit "assets/cbclient/icon.png")).
  vm_compute in H.
  specialize (H eq_refl (or_introl eq_refl) eq_refl). discriminate H.
Qed.


(** ** A whole run *)

(** The run of [main]: fifteen files below the primary candidate; a second
    run that finds this directory with entries goes to the stamped one. *)
Example generate_example (UT : UnicodeTables) :
  let first := generate no_files some_time main_meta no_failure [] in
  let target := path_of_str (lit "/home/user/CBClient_client") in
  let second :=
    generate (one_dir target [lit "build.gradle"]) later_time main_meta
             no_failure [] in
  snd first = inr target
  /\ length (written_files (fst first)) = 15%nat
  /\ snd second
     = inr (path_of_str (lit "/home/user/CBClient_client_20251201_235958"))
  /\ map (relativize target) (written_files (fst first))
     = map (relativize (path_of_str (lit "/home/user/CBClient_client_20251201_235958")))
           (written_files (fst second)).
Proof. cbv zeta. split; [|split; [|split]]; vm_compute; reflexivity. Qed.

(** * Further properties of the normalisers *)

(** ** [slugify_modid] on well-formed ids *)

Lemma rstrip_by_keeps_head (p : codepoint -> bool) (c : codepoint) (r : str) :
  p c = false -> exists r', rstrip_by p (c :: r) = c :: r'.
Proof.
  intros Hc. destruct (rstrip_by_split p (c :: r)) as (post & E & Hp).
  destruct (rstrip_by p (c :: r)) as [|c' r'] eqn:Er.
  - simpl in E. subst post. inversion Hp; congruence.
  - simpl in E. injection E as <- _. eauto.
Qed.

Lemma rstrip_by_length (p : codepoint -> bool) (s : str) :
  (length (rstrip_by p s) <= length s)%nat.
Proof.
  destruct (rstrip_by_split p s) as (post & E & _).
  rewrite E at 2. rewrite length_app. lia.
Qed.

Section SlugValid.
Context {UT : UnicodeTables}.

(** On a well-formed id the normaliser does one thing only: it removes a
    separator at the end. *)
Lemma slugify_modid_valid (y : str) :
  slug_ok y -> slugify_modid y = rstrip_by is_sep y.
Proof.
  intros (c & r & -> & Hc & Hr & Hl & Ha).
  assert (Hy : All slug_char (c :: r)).
  { constructor; auto. now apply lower_is_slug_char. }
  assert (Hsep : is_sep c = false) by blia.
  unfold slugify_modid.
  rewrite lower_slug by assumption.
  rewrite replace_char_absent.
  2:{ eapply Forall_impl; [|exact Hy]. intros x Hx. cbv beta in *. blia. }
  rewrite re_keep_all by assumption.
  rewrite (proj1 (re_sub_first_id is_sep (c :: r) Ha)).
  unfold strip_chars. rewrite (strip_by_ext _ is_sep) by apply mem_seps.
  unfold strip_by. rewrite lstrip_by_id by exact Hsep.
  pose proof (rstrip_by_length is_sep (c :: r)) as Hlen.
  destruct (rstrip_by_keeps_head is_sep c r Hsep) as [r' E].
  rewrite E in *.
  rewrite isalpha_slug_char, Hc by (now apply lower_is_slug_char).
  change (str_or (c :: r') (lit "cbclient")) with (c :: r').
  apply firstn_all2. simpl in *. lia.
Qed.

(** X1.  The ids that [slugify_modid] leaves as they are, are exactly the
    well-formed ids that do not end with a separator. *)
Theorem slugify_modid_fixed_points (y : str) :
  slugify_modid y = y <-> slug_ok y /\ ends_with is_sep y = false.
Proof.
  split.
  - intros E. assert (Hy : slug_ok y) by (rewrite <- E; apply slugify_modid_ok).
    split; [exact Hy|].
    rewrite <- E, (slugify_modid_valid y Hy). apply rstrip_by_end.
  - intros [Hy He]. now apply slugify_modid_fixed.
Qed.

(** X2.  Two applications of [slugify_modid] settle the id: a third one
    changes nothing, for every input (this is the [Fix] button pressed
    again and again). *)
Theorem slugify_modid_settles (x : str) :
  slugify_modid (slugify_modid (slugify_modid x))
  = slugify_modid (slugify_modid x)
  /\ slugify_modid (slugify_modid x) = rstrip_by is_sep (slugify_modid x).
Proof.
  assert (E : slugify_modid (slugify_modid x) = rstrip_by is_sep (slugify_modid x)).
  { apply slugify_modid_valid, slugify_modid_ok. }
  split; [|exact E].
  apply slugify_modid_fixed; [apply slugify_modid_ok|].
  rewrite E. apply rstrip_by_end.
Qed.

End SlugValid.

(** ** [safe_pkg] on dotted names *)

Lemma pkg_re_dotted (y : str) : fullmatch pkg_re y <-> dotted y.
Proof.
  split.
  - unfold pkg_re. intros H.
    inversion H as [| |? ? s1 s2 H1 H2| | | |]; subst.
    apply seg_re_spec in H1.
    assert (Hs : exists gs, s2 = concat (map (fun q => lit "." ++ q) gs)
                            /\ Forall seg_ok gs).
    { clear H H1. remember (Star (Cat (Chr c_dot) seg_re)) as re eqn:E.
      induction H2; try discriminate.
      - exists []. auto.
      - injection E as ->. destruct (IHfullmatch2 eq_refl) as (gs & -> & Hgs).
        inversion H2_ as [| |? ? t1 t2 Ht1 Ht2| | | |]; subst.
        inversion Ht1; subst. apply seg_re_spec in Ht2.
        exists (t2 :: gs). split; [reflexivity | constructor; auto]. }
    destruct Hs as (gs & -> & Hgs). exists s1, gs.
    split; [now rewrite join_cons | constructor; auto].
  - intros (g & gs & -> & H). inversion H; subst. now apply pkg_re_join.
Qed.

Lemma re_sub_skip (cls : codepoint -> bool) (repl : str -> str) (g s : str) :
  All (fun c => negb (cls c)) g ->
  re_sub_plus cls repl [] (g ++ s) = g ++ re_sub_plus cls repl [] s.
Proof.
  induction 1 as [|c r Hc _ IH]; auto.
  apply negb_true_iff in Hc. cbn [app re_sub_plus]. rewrite Hc.
  cbn [flush app]. now rewrite IH.
Qed.

Lemma re_sub_one (cls : codepoint -> bool) (repl : str -> str)
    (d : codepoint) (t : str) :
  cls d = true ->
  match t with [] => True | c :: _ => cls c = false end ->
  re_sub_plus cls repl [] (d :: t) = repl [d] ++ re_sub_plus cls repl [] t.
Proof.
  intros Hd Ht. cbn [re_sub_plus]. rewrite Hd.
  destruct t as [|c t']; cbn [re_sub_plus].
  - cbn [flush rev app]. now rewrite app_nil_r.
  - rewrite Ht. reflexivity.
Qed.

Lemma seg_ok_undotted (g : str) :
  seg_ok g -> All (fun c => negb (is_dot c)) g.
Proof.
  intros H. apply seg_ok_chars in H. eapply Forall_impl; [|exact H].
  intros c Hc. cbv beta in *. blia.
Qed.

Lemma re_sub_dots_dotted (g : str) (gs : list str) :
  Forall seg_ok (g :: gs) ->
  re_sub_plus is_dot (fun _ => lit ".") [] (join (lit ".") (g :: gs))
  = join (lit ".") (g :: gs).
Proof.
  intros H. inversion H as [|? ? Hg Hgs]; subst. rewrite join_cons.
  rewrite re_sub_skip by now apply seg_ok_undotted. f_equal.
  clear H Hg. induction Hgs as [|q qs Hq _ IH]; [reflexivity|].
  cbn [map concat]. change (lit "." ++ q) with (c_dot :: q).
  cbn [app]. rewrite re_sub_one; [|reflexivity|].
  - cbn [app]. f_equal. rewrite re_sub_skip by now apply seg_ok_undotted.
    now rewrite IH.
  - destruct Hq as (c & r & -> & Hc & _). cbn [app]. blia.
Qed.

Lemma ends_with_All (p q : codepoint -> bool) (s : str) :
  All q s -> (forall c, q c = true -> p c = false) -> ends_with p s = false.
Proof.
  intros H Hq. unfold ends_with. apply Forall_rev in H.
  destruct (rev s); auto. inversion H; subst. auto.
Qed.

Lemma dotted_end (g : str) (gs : list str) :
  Forall seg_ok (g :: gs) ->
  ends_with is_dot (join (lit ".") (g :: gs)) = false.
Proof.
  revert g. induction gs as [|q qs IH]; intros g H.
  - inversion H; subst. simpl. apply (ends_with_All _ seg_char).
    + now apply seg_ok_chars.
    + intros c Hc. blia.
  - inversion H as [|? ? Hg Hr]; subst.
    change (join (lit ".") (g :: q :: qs))
      with (g ++ c_dot :: join (lit ".") (q :: qs)).
    change (g ++ c_dot :: join (lit ".") (q :: qs))
      with (g ++ [c_dot] ++ join (lit ".") (q :: qs)).
    rewrite app_assoc, ends_with_suffix; auto.
    rewrite join_cons. inversion Hr as [|? ? (c & r & -> & _) _]; subst.
    discriminate.
Qed.

Lemma dotted_chars (y : str) :
  dotted y -> All (fun c => seg_char c || is_dot c) y.
Proof.
  intros (g & gs & -> & H). rewrite join_cons.
  assert (Hs : forall q, seg_ok q -> All (fun c => seg_char c || is_dot c) q).
  { intros q Hq. apply seg_ok_chars in Hq. eapply Forall_impl; [|exact Hq].
    intros c Hc. cbv beta in *. now rewrite Hc. }
  inversion H as [|? ? Hg Hgs]; subst. apply Forall_app. split; auto.
  clear H Hg. induction Hgs as [|q qs Hq _ IH]; cbn [map concat]; auto.
  apply Forall_app. split; auto.
  change (lit "." ++ q) with (c_dot :: q). constructor; auto.
Qed.

Section PkgValid.
Context {UT : UnicodeTables}.

Lemma safe_pkg_halves (s : str) : safe_pkg s = pkg_finish (pkg_clean s).
Proof. reflexivity. Qed.

Lemma pkg_segment_valid (g : str) : seg_ok g -> pkg_segment g = g.
Proof.
  intros (c & r & -> & Hc & _). unfold pkg_segment, isalpha.
  assert (E : is_ascii c = true) by blia. rewrite E.
  assert (E' : is_lower c || is_upper c || (c =? c_under) = true) by blia.
  now rewrite E'.
Qed.

Lemma pkg_finish_dotted (y : str) : dotted y -> pkg_finish y = y.
Proof.
  intros (g & gs & -> & H). unfold pkg_finish.
  rewrite re_sub_dots_dotted by assumption.
  unfold strip_chars. rewrite (strip_by_ext _ is_dot) by apply mem_dot.
  rewrite strip_by_id.
  - rewrite split_on_join.
    + assert (E : filter truthy (g :: gs) = g :: gs).
      { clear - H. induction H as [|q qs (c & r & -> & _) _ IH]; auto.
        cbn [filter truthy]. now rewrite IH. }
      rewrite E.
      assert (E' : map pkg_segment (g :: gs) = g :: gs).
      { clear - H. induction H as [|q qs Hq _ IH]; auto.
        cbn [map]. now rewrite pkg_segment_valid, IH. }
      rewrite E'. unfold str_or.
      inversion H as [|? ? (c & r & -> & _) _]; subst.
      rewrite join_cons. reflexivity.
    + inversion H; subst. now apply seg_ok_chars.
    + inversion H; subst. eapply Forall_impl; [|eassumption].
      apply seg_ok_chars.
  - inversion H as [|? ? (c & r & -> & Hc & _) _]; subst.
    rewrite join_cons. cbn [app]. blia.
  - now apply dotted_end.
Qed.

Lemma pkg_clean_valid (y : str) :
  All (fun c => seg_char c || is_dot c) y -> pkg_clean y = y.
Proof.
  intros H. unfold pkg_clean.
  unfold lower. rewrite lower_from_ascii.
  - rewrite !replace_char_absent.
    + apply re_keep_all. eapply Forall_impl; [|exact H].
      intros c Hc. cbv beta in *. blia.
    + eapply Forall_impl; [|exact H]. intros c Hc. cbv beta in *. blia.
    + rewrite replace_char_absent;
        eapply Forall_impl; try exact H; intros c Hc; cbv beta in *; blia.
  - eapply Forall_impl; [|exact H]. intros c Hc. cbv beta in *.
    apply andb_true_iff. rewrite negb_true_iff. blia.
Qed.

End PkgValid.

Lemma join_snoc (sep : str) (g : str) (gs : list str) (b : str) :
  join sep ((g :: gs) ++ [b]) = join sep (g :: gs) ++ sep ++ b.
Proof.
  cbn [app]. rewrite !join_cons, map_app, concat_app. cbn [map concat].
  now rewrite app_nil_r, app_assoc.
Qed.

Lemma replace_char_app (x y : codepoint) (s1 s2 : str) :
  replace_char x y (s1 ++ s2) = replace_char x y s1 ++ replace_char x y s2.
Proof. apply map_app. Qed.

Lemma replace_hyphen_slug (b : str) :
  slug_ok b -> seg_ok (replace_char c_hyphen c_under b).
Proof.
  intros (c & r & -> & Hc & Hr & _). unfold replace_char. cbn [map].
  assert (E : (c =? c_hyphen) = false) by blia. rewrite E.
  exists c, (map (fun x => if x =? c_hyphen then c_under else x) r).
  split; [reflexivity|]. split; [blia|].
  apply Forall_map. eapply Forall_impl; [|exact Hr].
  intros x Hx. cbv beta in *. destruct (x =? c_hyphen) eqn:Ex; blia.
Qed.

Section PkgTheorems.
Context {UT : UnicodeTables}.

Lemma safe_pkg_dotted (s : str) : dotted (safe_pkg s).
Proof. apply pkg_re_dotted, safe_pkg_fullmatch. Qed.

Lemma safe_pkg_of_dotted (y : str) : dotted y -> safe_pkg y = y.
Proof.
  intros H. rewrite safe_pkg_halves.
  rewrite pkg_clean_valid by now apply dotted_chars.
  now apply pkg_finish_dotted.
Qed.

(** X3.  The names that [safe_pkg] leaves as they are, are exactly the
    dotted names (the strings that match its pattern), and [safe_pkg] is
    idempotent on every input. *)
Theorem safe_pkg_fixed_points (y : str) :
  (safe_pkg y = y <-> fullmatch pkg_re y)
  /\ safe_pkg (safe_pkg y) = safe_pkg y.
Proof.
  split.
  - split.
    + intros E. rewrite <- E. apply safe_pkg_fullmatch.
    + intros H. apply safe_pkg_of_dotted, pkg_re_dotted, H.
  - apply safe_pkg_of_dotted, safe_pkg_dotted.
Qed.

Lemma pkg_clean_joined (a b : str) :
  dotted a -> slug_ok b ->
  pkg_clean (a ++ lit "." ++ b)
  = a ++ lit "." ++ replace_char c_hyphen c_under b.
Proof.
  intros Ha Hb. unfold pkg_clean.
  pose proof (dotted_chars a Ha) as Hca.
  pose proof (seg_ok_chars _ (replace_hyphen_slug b Hb)) as Hcb'.
  assert (Hcb : All slug_char b).
  { destruct Hb as (c & r & -> & Hc & Hr & _). constructor; auto.
    now apply lower_is_slug_char. }
  assert (Hl : lower (a ++ lit "." ++ b) = a ++ lit "." ++ b).
  { unfold lower. apply lower_from_ascii. apply Forall_app. split.
    - eapply Forall_impl; [|exact Hca]. intros c Hc. cbv beta in *.
      apply andb_true_iff. rewrite negb_true_iff. blia.
    - constructor; [reflexivity|].
      eapply Forall_impl; [|exact Hcb]. intros c Hc. cbv beta in *.
      apply andb_true_iff. rewrite negb_true_iff. blia. }
  rewrite Hl.
  assert (Hh : replace_char c_hyphen c_under (a ++ lit "." ++ b)
               = a ++ lit "." ++ replace_char c_hyphen c_under b).
  { rewrite !replace_char_app.
    rewrite (replace_char_absent _ _ a); [reflexivity|].
    eapply Forall_impl; [|exact Hca]. intros c Hc. cbv beta in *. blia. }
  rewrite Hh.
  assert (Hall : All (fun c => seg_char c || is_dot c)
                     (a ++ lit "." ++ replace_char c_hyphen c_under b)).
  { apply Forall_app. split; auto. constructor; [reflexivity|].
    eapply Forall_impl; [|exact Hcb']. intros c Hc. cbv beta in *.
    now rewrite Hc. }
  rewrite replace_char_absent.
  - apply re_keep_all. eapply Forall_impl; [|exact Hall].
    intros c Hc. cbv beta in *. blia.
  - eapply Forall_impl; [|exact Hall]. intros c Hc. cbv beta in *. blia.
Qed.

(** X4.  The derived namespace of a normalised record is its namespace, a
    dot, and its module id with every hyphen turned into an underscore. *)
Theorem base_package_is_group_dot_id (m : Meta) :
  base_package (normalized m)
  = maven_group (normalized m) ++ lit "."
    ++ replace_char c_hyphen c_under (mod_id (normalized m)).
Proof.
  unfold base_package. cbn [maven_group mod_id normalized].
  pose proof (safe_pkg_dotted (maven_group m)) as Ha.
  pose proof (slugify_modid_ok (mod_id m)) as Hb.
  rewrite safe_pkg_halves, pkg_clean_joined by assumption.
  apply pkg_finish_dotted.
  destruct Ha as (g & gs & -> & Hg).
  exists g, (gs ++ [replace_char c_hyphen c_under (slugify_modid (mod_id m))]).
  split.
  - change (g :: gs ++ [?b]) with ((g :: gs) ++ [b]). now rewrite join_snoc.
  - change (g :: gs ++ [?b]) with ((g :: gs) ++ [b]).
    apply Forall_app. split; auto. constructor; auto.
    now apply replace_hyphen_slug.
Qed.

End PkgTheorems.

(** * Further properties of the metadata normalisation *)

Lemma strip_or_trimmed (x d : str) :
  trimmed d -> trimmed (str_or (strip x) d).
Proof.
  intros Hd. unfold str_or. destruct (truthy (strip x)) eqn:E; auto.
  rewrite strip_blank in E. apply negb_true_iff in E.
  split; [now rewrite blank_strip | apply strip_by_idem].
Qed.

Lemma trimmed_chars (q : codepoint -> bool) (c : codepoint) (r : str) :
  All q (c :: r) -> (forall x, q x = true -> isspace x = false) ->
  trimmed (c :: r).
Proof.
  intros H Hq. inversion H as [|? ? Hc Hr]; subst. split.
  - unfold blank. cbn [forallb]. now rewrite (Hq c Hc).
  - unfold strip. apply strip_by_id; [now apply Hq|].
    now apply (ends_with_All _ q).
Qed.

Lemma trimmed_or_fixed (x d : str) :
  trimmed d -> str_or (strip (str_or (strip x) d)) d = str_or (strip x) d.
Proof.
  intros Hd. destruct (strip_or_trimmed x d Hd) as [H1 H2].
  rewrite H2. unfold str_or at 1. rewrite <- H2 at 1.
  now rewrite strip_blank, H1.
Qed.

Lemma kept_authors_trimmed (l : list str) : Forall trimmed (kept_authors l).
Proof.
  unfold kept_authors. apply Forall_map, Forall_forall. intros a Ha.
  apply filter_In in Ha. destruct Ha as [_ Ha]. apply negb_true_iff in Ha.
  split; [now rewrite blank_strip | apply strip_by_idem].
Qed.

Lemma kept_authors_of_trimmed (l : list str) :
  Forall trimmed l -> kept_authors l = l.
Proof.
  unfold kept_authors. induction 1 as [|a l [H1 H2] _ IH]; auto.
  cbn [filter]. rewrite H1. cbn [negb map]. now rewrite H2, IH.
Qed.

Section NormalizedInvariant.
Context {UT : UnicodeTables}.

Lemma slug_ok_trimmed (y : str) : slug_ok y -> trimmed y.
Proof.
  intros (c & r & -> & Hc & Hr & _). apply (trimmed_chars slug_char).
  - constructor; auto. now apply lower_is_slug_char.
  - intros x Hx. unfold isspace. blia.
Qed.

Lemma dotted_trimmed (y : str) : dotted y -> trimmed y.
Proof.
  intros H. pose proof (dotted_chars y H) as Hc.
  destruct H as (g & gs & -> & Hg).
  inversion Hg as [|? ? (c & r & -> & _) _]; subst.
  rewrite join_cons in *. cbn [app] in *.
  apply (trimmed_chars _ _ _ Hc). intros x Hx. unfold isspace. blia.
Qed.

Lemma normalized_authors_trimmed (m : Meta) :
  Forall trimmed (authors (normalized m)).
Proof.
  cbn [authors normalized]. rewrite kept_authors_filter.
  pose proof (kept_authors_trimmed (authors m)) as H.
  destruct (kept_authors (authors m)); auto.
  constructor; [split; reflexivity | constructor].
Qed.

(** X5.  In a normalised record no text but the description can be blank
    or carry white space around it: the project folder, the client name,
    the module id, the namespace, the version, the license and every
    author are trimmed and not blank. *)
Theorem normalized_fields_trimmed (m : Meta) :
  trimmed (project_name (normalized m))
  /\ trimmed (client_name (normalized m))
  /\ trimmed (mod_id (normalized m))
  /\ trimmed (maven_group (normalized m))
  /\ trimmed (mod_version (normalized m))
  /\ trimmed (license_name (normalized m))
  /\ Forall trimmed (authors (normalized m)).
Proof.
  assert (Hd : forall d, blank d = false -> strip d = d -> trimmed d)
    by (intros; split; assumption).
  repeat match goal with |- _ /\ _ => split end.
  - apply strip_or_trimmed, Hd; reflexivity.
  - apply strip_or_trimmed, Hd; reflexivity.
  - apply slug_ok_trimmed, slugify_modid_ok.
  - apply dotted_trimmed, safe_pkg_dotted.
  - apply strip_or_trimmed, Hd; reflexivity.
  - apply strip_or_trimmed, Hd; reflexivity.
  - apply normalized_authors_trimmed.
Qed.

(** X6.  Normalising a normalised record changes two things at most: a
    separator at the end of the module id goes, and an empty description
    gets the default; every other field stays. *)
Theorem normalized_twice (m : Meta) :
  let n := normalized m in
  let nn := normalized n in
  out_dir nn = out_dir n
  /\ project_name nn = project_name n
  /\ client_name nn = client_name n
  /\ maven_group nn = maven_group n
  /\ mod_version nn = mod_version n
  /\ license_name nn = license_name n
  /\ authors nn = authors n
  /\ mod_id nn = rstrip_by is_sep (mod_id n)
  /\ description nn
     = match description n with
       | [] => strip (client_name n ++ lit " - Fabric client mod")
       | _ => description n
       end.
Proof.
  cbv zeta.
  assert (Hd : forall d, blank d = false -> strip d = d -> trimmed d)
    by (intros; split; assumption).
  repeat match goal with |- _ /\ _ => split end.
  - reflexivity.
  - cbn [project_name normalized].
    set (w := strip (re_keep project_char (project_name m))).
    change (str_or w (lit "CBClient"))
      with (if truthy w then w else lit "CBClient").
    destruct (truthy w) eqn:E.
    + assert (Hw : re_keep project_char w = w).
      { apply re_keep_all. subst w. unfold strip.
        destruct (strip_by_split isspace (re_keep project_char (project_name m)))
          as (pre & post & E' & _ & _).
        assert (H : All project_char (re_keep project_char (project_name m))).
        { apply Forall_forall. intros x Hx. apply filter_In in Hx. tauto. }
        rewrite E' in H. apply Forall_app in H. destruct H as [_ H].
        apply Forall_app in H. tauto. }
      rewrite Hw. subst w. unfold strip at 1. rewrite strip_by_idem.
      fold (strip (re_keep project_char (project_name m))).
      unfold str_or. now rewrite E.
    + reflexivity.
  - apply trimmed_or_fixed, Hd; reflexivity.
  - apply safe_pkg_of_dotted, safe_pkg_dotted.
  - apply trimmed_or_fixed, Hd; reflexivity.
  - apply trimmed_or_fixed, Hd; reflexivity.
  - pose proof (normalized_authors_trimmed m) as H.
    cbn [authors normalized] in *. rewrite !kept_authors_filter in *.
    rewrite kept_authors_of_trimmed by assumption.
    destruct (kept_authors (authors m)); reflexivity.
  - apply slugify_modid_valid, slugify_modid_ok.
  - cbn [description client_name normalized].
    set (d := strip (str_or (description m) _)).
    destruct d as [|c r] eqn:E; [reflexivity|].
    cbn [str_or truthy]. rewrite <- E. subst d. apply strip_by_idem.
Qed.

End NormalizedInvariant.

(** * Further properties of [write_file] and [generate] *)

Lemma lstrip_by_all_app (p : codepoint -> bool) (a b : str) :
  All p a -> lstrip_by p (a ++ b) = lstrip_by p b.
Proof. induction 1 as [|c r Hc _ IH]; simpl; auto. now rewrite Hc. Qed.

Lemma lstrip_by_app_keep (p : codepoint -> bool) (s t : str) :
  lstrip_by p s <> [] -> lstrip_by p (s ++ t) = lstrip_by p s ++ t.
Proof.
  induction s as [|c r IH]; simpl; [congruence|].
  destruct (p c); auto.
Qed.

Lemma rstrip_by_app_all (p : codepoint -> bool) (s t : str) :
  All p t -> rstrip_by p (s ++ t) = rstrip_by p s.
Proof.
  intros H. unfold rstrip_by. rewrite rev_app_distr.
  rewrite lstrip_by_all_app; auto. now apply Forall_rev.
Qed.

Lemma strip_by_app_all (p : codepoint -> bool) (s t : str) :
  All p t -> strip_by p (s ++ t) = strip_by p s.
Proof.
  intros H. unfold strip_by.
  destruct (lstrip_by p s) as [|c r] eqn:E.
  - apply lstrip_by_nil in E.
    assert (Hs : All p s) by (apply Forall_forall; apply forallb_forall; exact E).
    rewrite lstrip_by_all_app by assumption.
    assert (Et : lstrip_by p t = []).
    { apply lstrip_by_nil. apply forallb_forall. now apply Forall_forall. }
    now rewrite Et.
  - rewrite lstrip_by_app_keep by (rewrite E; discriminate).
    rewrite E. now apply rstrip_by_app_all.
Qed.

(** X7.  [write_file] writes the same text for a content, for the content
    already trimmed (as [t] hands it over), and for the text of a file it
    has written: writing a file back leaves it as it is. *)
Theorem write_file_text_stable (path : Path) (c : str) :
  write_file path (Text (strip c)) = write_file path (Text c)
  /\ write_file path (Text (strip c ++ [c_nl])) = write_file path (Text c).
Proof.
  assert (E1 : strip (strip c) = strip c) by apply strip_by_idem.
  assert (E2 : strip (strip c ++ [c_nl]) = strip c).
  { unfold strip at 1. rewrite strip_by_app_all by (repeat constructor).
    exact E1. }
  unfold write_file. now rewrite E1, E2.
Qed.

(** ** Where a run writes *)

Lemma safe_name_cons (c : codepoint) (r : str) :
  c <> c_dot -> no_slash (c :: r) -> safe_name (c :: r) = true.
Proof.
  intros Hc Hs. unfold safe_name.
  rewrite is_name_cons by assumption.
  rewrite str_eqb_neq by (intros E; injection E as E _; contradiction).
  apply forallb_forall. now apply Forall_forall.
Qed.

Lemma safe_name_slug (y suf : str) :
  slug_ok y -> no_slash suf -> safe_name (y ++ suf) = true.
Proof.
  intros Hy Hs. pose proof (slug_ok_no_slash y Hy) as Hn.
  destruct Hy as (c & r & -> & Hc & _).
  change ((c :: r) ++ suf) with (c :: (r ++ suf)).
  apply safe_name_cons; [blia|].
  change (c :: (r ++ suf)) with ((c :: r) ++ suf).
  apply Forall_app. split; assumption.
Qed.

Lemma safe_name_seg (g : str) : seg_ok g -> safe_name g = true.
Proof.
  intros Hg. pose proof (seg_ok_chars g Hg) as Hc.
  destruct Hg as (c & r & -> & Hs & _). apply safe_name_cons; [blia|].
  eapply Forall_impl; [|exact Hc]. intros x Hx. cbv beta in *. blia.
Qed.

Lemma safe_names_removelast (ns : list str) :
  safe_names ns -> safe_names (removelast ns).
Proof.
  induction 1 as [|n l Hn Hl IH]; simpl; auto.
  destruct l; auto.
Qed.

Section Targets.
Context {UT : UnicodeTables}.

Lemma java_dir_safe (meta : Meta) : safe_names (java_dir meta).
Proof.
  unfold java_dir. apply Forall_app. split; [repeat constructor|].
  eapply Forall_impl; [|apply safe_pkg_segments]. apply safe_name_seg.
Qed.

Lemma template_set_safe (meta : Meta) :
  slug_ok (mod_id meta) ->
  Forall (fun e => safe_names (fst e)) (template_set meta).
Proof.
  intros Hid.
  assert (Hm : safe_name (mod_id meta) = true).
  { rewrite <- (app_nil_r (mod_id meta)). apply safe_name_slug; auto. }
  assert (Hx : safe_name (mod_id meta ++ lit ".mixins.json") = true).
  { apply safe_name_slug; auto. repeat constructor. }
  pose proof (java_dir_safe meta) as Hj.
  assert (Hr : safe_names resources_dir) by (repeat constructor).
  unfold template_set. cbv zeta.
  repeat lazymatch goal with
  | |- Forall _ (fst _) => cbn [fst]
  | |- Forall _ (_ ++ _) => apply Forall_app; split; [assumption|]
  | |- Forall _ (_ :: _) => apply Forall_cons
  | |- Forall _ [] => apply Forall_nil
  | |- safe_name (mod_id _) = true => exact Hm
  | |- safe_name (mod_id _ ++ _) = true => exact Hx
  | |- safe_name _ = true => reflexivity
  end.
Qed.

Lemma template_set_named (meta : Meta) :
  Forall (fun e => fst e <> []) (template_set meta).
Proof.
  unfold template_set. cbv zeta.
  repeat (apply Forall_cons;
          [cbn [fst]; first [discriminate | apply app_nonempty_r]|]).
  apply Forall_nil.
Qed.

(** The directories above a path below the target are above the target,
    or the target followed by the first names of the path. *)
Lemma ancestors_below (root : Path) (ns : list str) (d : Path) :
  In d (below root ns :: ancestors (below root ns)) ->
  In d (ancestors root)
  \/ exists ms rest, d = below root ms /\ ns = ms ++ rest.
Proof.
  intros [<-|H].
  - right. exists ns, []. now rewrite app_nil_r.
  - unfold ancestors in H. apply in_map_iff in H as (k & <- & Hk).
    apply in_seq in Hk. cbn [names below anchor] in *.
    rewrite firstn_app.
    destruct (Nat.lt_ge_cases k (length (names root))) as [Hlt|Hge].
    + left. replace (k - length (names root))%nat with 0%nat by lia.
      cbn [firstn]. rewrite app_nil_r. unfold ancestors.
      apply in_map_iff. exists k. split; [reflexivity|].
      apply in_seq. lia.
    + right. exists (firstn (k - length (names root)) ns),
                    (skipn (k - length (names root)) ns).
      rewrite firstn_all2 by exact Hge.
      split; [reflexivity | now rewrite firstn_skipn].
Qed.

Lemma tree_writer_inside (root : Path) (entries : list (list str * content)) :
  Forall (fun e => fst e <> []) entries ->
  Forall (fun e => safe_names (fst e)) entries ->
  Forall (inside root) (tree_writer root entries).
Proof.
  induction 1 as [|[ns c] l Hne _ IH]; intros Hs;
    cbn [tree_writer flat_map app fst snd].
  - constructor.
  - inversion Hs as [|? ? Hn Hl]; subst. cbn [fst] in Hne, Hn.
    assert (Ep : parent (below root ns) = below root (removelast ns)).
    { unfold parent, below. cbn [anchor names]. now rewrite removelast_app. }
    pose proof (safe_names_removelast ns Hn) as Hr.
    constructor; [|constructor; auto].
    + cbn [inside]. rewrite Ep. split; [eauto|].
      intros d Hd. apply ancestors_below in Hd as [Hd|(ms & rest & -> & E)];
        [now left|].
      right. exists ms. split; [reflexivity|].
      rewrite E in Hr. now apply Forall_app in Hr.
    + destruct c; cbn [written inside]; eauto.
Qed.

Lemma calls_at_inside (root : Path) (m : Meta) :
  Forall (inside root) (calls_at root (normalized m)).
Proof.
  unfold calls_at. constructor; [exact I|]. apply Forall_app. split.
  - apply tree_writer_inside;
      [apply template_set_named
      |apply template_set_safe, normalized_mod_id_ok].
  - repeat constructor.
Qed.

(** X8.  A run with the target [root] asks for nothing outside the
    target: every file it writes is the target followed by one name or
    more, every directory it asks to make is the target or the target
    followed by names, and these names have no slash and are neither [.]
    nor [..], whatever the metadata and whether or not the run ends well.
    With [parents=True] a call of [mkdir] also makes the missing
    directories above its path: each of them is the target, below the
    target in this way, or above the target. *)
Theorem generate_stays_below_target
    (fs : filesystem) (os : system) (now : datetime) (m : Meta) (root : Path) :
  resolve_root fs now (normalized m) = inr root ->
  Forall (inside root) (fst (generate fs now m os [])).
Proof.
  intros H.
  destruct (generate_calls fs now m os) as [->|(root' & rest & E1 & E2)];
    [constructor|].
  assert (root' = root) by congruence. subst root'.
  pose proof (calls_at_inside root m) as Hin.
  rewrite E2 in Hin. now apply Forall_app in Hin.
Qed.

End Targets.

Lemma generate_stays_below_target_witness :
  let root := path_of_str (lit "/home/user/CBClient_client") in
  resolve_root no_files some_time (@normalized ascii_tables main_meta) = inr root
  /\ Forall (inside root)
            (fst (@generate ascii_tables no_files some_time main_meta
                    no_failure [])).
Proof.
  cbv zeta.
  assert (H : resolve_root no_files some_time (@normalized ascii_tables main_meta)
              = inr (path_of_str (lit "/home/user/CBClient_client"))).
  { vm_compute. reflexivity. }
  split; [exact H|].
  exact (@generate_stays_below_target ascii_tables _ no_failure _ _ _ H).
Defined.

(** ** No file is written twice *)

Lemma nodupb_NoDup (l : list str) : nodupb l = true -> NoDup l.
Proof.
  induction l as [|x r IH]; cbn [nodupb]; intros H; constructor.
  - intros Hin. apply andb_prop in H as [H _].
    apply negb_true_iff in H.
    assert (E : existsb (str_eqb x) r = true).
    { apply existsb_exists. exists x. split; auto. apply str_eqb_refl. }
    congruence.
  - apply IH. now apply andb_prop in H as [_ H].
Qed.

Lemma NoDup_map_injective {A B : Type} (f : A -> B) (l : list A) :
  (forall a b, f a = f b -> a = b) -> NoDup l -> NoDup (map f l).
Proof.
  intros Hf. induction 1 as [|x r Hx _ IH]; cbn [map]; constructor; auto.
  intros Hin. apply in_map_iff in Hin as (y & E & Hy).
  apply Hf in E. now subst.
Qed.

Lemma below_injective (root : Path) (a b : list str) :
  below root a = below root b -> a = b.
Proof.
  unfold below. intros E. injection E as E. now apply app_inv_head in E.
Qed.

Lemma name_key_app (a b : list str) :
  b <> [] -> name_key (a ++ b) = name_key b.
Proof.
  intros Hb. unfold name_key. f_equal. f_equal.
  induction a as [|x a' IH]; auto.
  cbn [app]. destruct (a' ++ b) eqn:E; [|exact IH].
  apply app_eq_nil in E as [_ E]. contradiction.
Qed.

Lemma name_key_cons (x y : str) (l : list str) :
  name_key (x :: y :: l) = name_key (y :: l).
Proof. reflexivity. Qed.

Lemma name_key_mixins (y : str) :
  name_key [y ++ lit ".mixins.json"] = rev (lit ".mixins.json").
Proof.
  unfold name_key. cbn [last]. rewrite rev_app_distr, firstn_app.
  change (length (rev (lit ".mixins.json"))) with 12%nat.
  change (12 - 12)%nat with 0%nat. cbn [firstn].
  rewrite app_nil_r. reflexivity.
Qed.

Ltac name_keys :=
  unfold template_set; cbv zeta; cbn [map fst];
  rewrite !name_key_app by discriminate;
  rewrite !name_key_cons, !name_key_mixins.

(** The last names of the catalogue do not depend on the metadata, and no
    two of them end alike. *)
Lemma template_set_keys {UT : UnicodeTables} (meta : Meta) :
  map (fun e => name_key (fst e)) (template_set meta)
  = map (fun e => name_key (fst e)) (@template_set ascii_tables main_meta).
Proof. name_keys. reflexivity. Qed.

Lemma template_set_NoDup {UT : UnicodeTables} (meta : Meta) :
  NoDup (map fst (template_set meta)).
Proof.
  apply (NoDup_map_inv name_key). rewrite map_map, template_set_keys.
  apply nodupb_NoDup. vm_compute. reflexivity.
Qed.

(** X9.  No run writes a file twice: the paths of the files that
    [generate] writes are pairwise distinct, so that nothing it has
    written is overwritten later in the same run. *)
Theorem generate_writes_each_file_once
    {UT : UnicodeTables} (fs : filesystem) (os : system) (now : datetime)
    (m : Meta) :
  NoDup (map fst (written_files (fst (generate fs now m os [])))).
Proof.
  destruct (generate_calls fs now m os) as [->|(root & rest & _ & E)];
    [constructor|].
  assert (H : NoDup (map fst (written_files (calls_at root (normalized m))))).
  { unfold calls_at.
    rewrite written_files_log, written_files_app, written_files_tree_writer.
    rewrite written_files_log, app_nil_r, map_map. cbn [fst].
    rewrite <- (map_map fst (below root)).
    apply NoDup_map_injective; [apply below_injective|].
    apply template_set_NoDup. }
  rewrite E, written_files_app, map_app in H.
  now apply NoDup_app_remove_r in H.
Qed.

(** ** Directories come first *)

Lemma tree_writer_mkdir_first
    (root : Path) (entries : list (list str * content)) (line : str)
    (pre post : list event) (e : event) (p : Path) :
  tree_writer root entries ++ [Log line] = pre ++ e :: post ->
  write_path e = Some p ->
  exists pre', pre = pre' ++ [Mkdir (parent p)].
Proof.
  revert pre. induction entries as [|[ns c] l IH]; intros pre E He.
  - destruct pre as [|x pre']; cbn in E.
    + injection E as <- _. discriminate.
    + injection E as _ E. now destruct pre'.
  - change (tree_writer root ((ns, c) :: l))
      with (Mkdir (parent (below root ns)) :: written (below root ns) c
              :: tree_writer root l) in E.
    cbn [app] in E.
    destruct pre as [|x [|y pre']]; cbn [app] in E.
    + injection E as <- _. discriminate.
    + injection E as <- <- _. exists [].
      destruct c; cbn [written write_path] in He; injection He as <-;
        reflexivity.
    + injection E as <- <- E. destruct (IH pre' E He) as (pre'' & ->).
      eexists (_ :: _ :: pre''). reflexivity.
Qed.

Lemma log_mkdir_first
    (line : str) (tr pre post : list event) (e : event) (p : Path) :
  (forall pre0, tr = pre0 ++ e :: post ->
                exists pre', pre0 = pre' ++ [Mkdir (parent p)]) ->
  Log line :: tr = pre ++ e :: post ->
  write_path e = Some p ->
  exists pre', pre = pre' ++ [Mkdir (parent p)].
Proof.
  intros Htr E He. destruct pre as [|x pre0]; cbn [app] in E.
  - assert (E' : e = Log line) by congruence. subst e. discriminate.
  - assert (E' : tr = pre0 ++ e :: post) by congruence.
    destruct (Htr pre0 E') as (pre'' & ->).
    exists (x :: pre''). reflexivity.
Qed.

(** X10.  Wherever a run writes a file, the event just before is the
    making of the directory that holds the file: [generate] writes
    nothing except through [write_file], which makes the parent first. *)
Theorem generate_makes_directory_first
    {UT : UnicodeTables} (fs : filesystem) (os : system) (now : datetime)
    (m : Meta) (pre post : list event) (e : event) (p : Path) :
  fst (generate fs now m os []) = pre ++ e :: post ->
  write_path e = Some p ->
  exists pre', pre = pre' ++ [Mkdir (parent p)].
Proof.
  destruct (generate_calls fs now m os) as [->|(root & rest & _ & E)].
  - intros E. now destruct pre.
  - intros E' He. rewrite E', <- app_assoc in E. cbn [app] in E.
    unfold calls_at in E.
    eapply log_mkdir_first; [|exact E|exact He].
    intros pre0 E0. eapply tree_writer_mkdir_first; eauto.
Qed.

Lemma generate_makes_directory_first_witness :
  let tr := fst (@generate ascii_tables no_files some_time main_meta no_failure []) in
  let e := nth 2 tr (Log []) in
  let p := path_of_str (lit "/home/user/CBClient_client/settings.gradle") in
  tr = firstn 2 tr ++ e :: skipn 3 tr /\
  write_path e = Some p /\
  exists pre', firstn 2 tr = pre' ++ [Mkdir (parent p)].
Proof.
  cbv zeta.
  assert (E : fst (@generate ascii_tables no_files some_time main_meta no_failure [])
              = firstn 2 (fst (@generate ascii_tables no_files some_time main_meta no_failure []))
                ++ nth 2 (fst (@generate ascii_tables no_files some_time main_meta no_failure []))
                         (Log [])
                   :: skipn 3 (fst (@generate ascii_tables no_files some_time main_meta no_failure []))).
  { vm_compute. reflexivity. }
  assert (He : write_path
                 (nth 2 (fst (@generate ascii_tables no_files some_time main_meta no_failure []))
                      (Log []))
               = Some (path_of_str (lit "/home/user/CBClient_client/settings.gradle"))).
  { vm_compute. reflexivity. }
  split; [exact E|]. split; [exact He|].
  exact (@generate_makes_directory_first ascii_tables _ _ _ _ _ _ _ _ E He).
Defined.

(** ** The Java sources and their packages *)

(** *** [str.format] on a template that starts with plain text and a field *)

Lemma format_from_plain (env : list (str * str)) (pre r : str) :
  plain pre ->
  format_from env None (pre ++ r)
  = match format_from env None r with
    | inr out => inr (pre ++ out)
    | inl e => inl e
    end.
Proof.
  induction pre as [|c pre' IH]; intros H.
  - cbn [app]. now destruct (format_from env None r).
  - cbn [forallb] in H. apply andb_prop in H as [Hc H].
    apply andb_prop in Hc as [H1 H2].
    apply negb_true_iff in H1, H2.
    cbn [app format_from]. rewrite H1, H2, (IH H).
    now destruct (format_from env None r).
Qed.

Lemma format_from_field (env : list (str * str)) (acc name r : str) :
  forallb (fun c => negb (c =? 125)) name = true ->
  format_from env (Some acc) (name ++ 125 :: r)
  = match assoc (rev acc ++ name) env with
    | None => inl (KeyError (rev acc ++ name))
    | Some v =>
        match format_from env None r with
        | inr out => inr (v ++ out)
        | inl e => inl e
        end
    end.
Proof.
  revert acc. induction name as [|c n IH]; intros acc H.
  - cbn [app format_from]. rewrite app_nil_r.
    change (125 =? 125) with true. reflexivity.
  - cbn [forallb] in H. apply andb_prop in H as [Hc H].
    apply negb_true_iff in Hc.
    cbn [app format_from]. rewrite Hc, (IH _ H).
    cbn [rev]. now rewrite <- app_assoc.
Qed.

Lemma format_package (tpl : str) (env : list (str * str)) (pkg sub rest s : str) :
  tpl = c_nl :: lit "        package {pkg}" ++ sub ++ rest ->
  plain sub ->
  assoc (lit "pkg") env = Some pkg ->
  format tpl env = inr s ->
  exists out, s = c_nl :: lit "        package " ++ pkg ++ sub ++ out.
Proof.
  intros -> Hsub Hpkg. unfold format.
  change (c_nl :: lit "        package {pkg}" ++ sub ++ rest)
    with ((c_nl :: lit "        package ")
            ++ 123 :: 112 :: (lit "kg" ++ 125 :: sub ++ rest)).
  rewrite format_from_plain by reflexivity.
  change (format_from env None (123 :: 112 :: (lit "kg" ++ 125 :: sub ++ rest)))
    with (format_from env (Some [112]) (lit "kg" ++ 125 :: sub ++ rest)).
  rewrite format_from_field by reflexivity.
  change (rev [112] ++ lit "kg") with (lit "pkg"). rewrite Hpkg.
  rewrite format_from_plain by assumption.
  destruct (format_from env None rest) as [e|out]; [discriminate|].
  intros [= <-]. exists out. reflexivity.
Qed.

Lemma rstrip_by_keeps_prefix (p : codepoint -> bool) (a : str) (c : codepoint) (r : str) :
  p c = false -> exists r', rstrip_by p (a ++ c :: r) = a ++ c :: r'.
Proof.
  intros Hc. unfold rstrip_by. rewrite rev_app_distr. cbn [rev].
  rewrite <- app_assoc. cbn [app].
  destruct (lstrip_by p (rev r)) as [|x t] eqn:E.
  - apply lstrip_by_nil in E.
    rewrite lstrip_by_all_app
      by (apply Forall_forall; apply forallb_forall; exact E).
    cbn [lstrip_by]. rewrite Hc. exists [].
    change (c :: rev a) with ([c] ++ rev a).
    rewrite rev_app_distr, rev_involutive. reflexivity.
  - rewrite lstrip_by_app_keep by (rewrite E; discriminate).
    rewrite E. exists (rev (x :: t)).
    rewrite rev_app_distr.
    change (c :: rev a) with ([c] ++ rev a).
    rewrite rev_app_distr, rev_involutive, <- app_assoc. reflexivity.
Qed.

Lemma strip_render (tpl : str) (kw : list (str * str)) :
  strip (render tpl kw) = render tpl kw.
Proof.
  unfold render. destruct (format tpl (kw ++ LOCKED)); [reflexivity|].
  apply strip_by_idem.
Qed.

(** The rendered text of a template that starts with a package line. *)
Lemma render_package (tpl : str) (kw : list (str * str)) (pkg sub : str) (n : nat) :
  tpl = c_nl :: lit "        package {pkg}" ++ (sub ++ lit ";") ++ skipn n tpl ->
  plain sub ->
  assoc (lit "pkg") (kw ++ LOCKED) = Some pkg ->
  format_ok tpl kw ->
  exists rest, render tpl kw = lit "package " ++ pkg ++ sub ++ lit ";" ++ rest.
Proof.
  intros Htpl Hsub Hpkg [s Hs]. unfold render. rewrite Hs.
  assert (Hplain : plain (sub ++ lit ";")).
  { rewrite forallb_app. apply andb_true_intro.
    split; [exact Hsub | reflexivity]. }
  destruct (format_package _ _ _ _ _ _ Htpl Hplain Hpkg Hs) as (out & ->).
  unfold strip, strip_by.
  change (c_nl :: lit "        package " ++ pkg ++ (sub ++ lit ";") ++ out)
    with ((c_nl :: lit "        ") ++ lit "package " ++ pkg ++ (sub ++ lit ";") ++ out).
  rewrite lstrip_by_all_app by (repeat constructor).
  change (lstrip_by isspace (lit "package " ++ pkg ++ (sub ++ lit ";") ++ out))
    with (lit "package " ++ pkg ++ (sub ++ lit ";") ++ out).
  replace (lit "package " ++ pkg ++ (sub ++ lit ";") ++ out)
    with ((lit "package " ++ pkg ++ sub) ++ 59 :: out)
    by (rewrite <- !app_assoc; reflexivity).
  destruct (rstrip_by_keeps_prefix isspace (lit "package " ++ pkg ++ sub) 59 out)
    as (r' & E); [reflexivity|].
  exists r'. etransitivity; [exact E|].
  rewrite <- !app_assoc. reflexivity.
Qed.

(** *** Names and their joins *)

Lemma join_split_on (sep : codepoint) (s : str) :
  join [sep] (split_on sep s) = s.
Proof.
  induction s as [|c r IH]; [reflexivity|]. cbn [split_on].
  pose proof (split_on_nonempty sep r) as Hne.
  destruct (c =? sep) eqn:E.
  - apply N.eqb_eq in E. subst c.
    destruct (split_on sep r) as [|p ps]; [congruence|].
    change (join [sep] ([] :: p :: ps)) with (sep :: join [sep] (p :: ps)).
    now rewrite IH.
  - destruct (split_on sep r) as [|p ps]; [congruence|].
    rewrite join_cons. rewrite join_cons in IH. rewrite <- IH. reflexivity.
Qed.

Lemma join_dotted_app (gs subs : list str) :
  gs <> [] ->
  join (lit ".") (gs ++ subs)
  = join (lit ".") gs ++ concat (map (fun q => lit "." ++ q) subs).
Proof.
  destruct gs as [|g gs']; [congruence|]. intros _.
  cbn [app]. rewrite !join_cons, map_app, concat_app.
  now rewrite app_assoc.
Qed.

Lemma seg_ok_subpackages :
  seg_ok (lit "module") /\ seg_ok (lit "gui") /\ seg_ok (lit "mixin").
Proof.
  repeat split; eexists; eexists; (split; [reflexivity|]); split;
    try reflexivity; repeat constructor.
Qed.

Lemma last_app_nonempty {A : Type} (a b : list A) (d : A) :
  b <> [] -> last (a ++ b) d = last b d.
Proof.
  intros Hb. induction a as [|x a' IH]; auto.
  cbn [app]. destruct (a' ++ b) eqn:E; [|exact IH].
  apply app_eq_nil in E as [_ E]. contradiction.
Qed.

Section JavaSources.
Context {UT : UnicodeTables}.

(** One Java source of the catalogue: its names and its first line. *)
Lemma java_entry (meta : Meta) (subs : list str) (file : str)
    (tpl : str) (kw : list (str * str)) (n : nat) :
  let gs := split_on c_dot (base_package meta) ++ subs in
  Forall seg_ok subs ->
  tpl = c_nl :: lit "        package {pkg}"
          ++ (concat (map (fun q => lit "." ++ q) subs) ++ lit ";") ++ skipn n tpl ->
  plain (concat (map (fun q => lit "." ++ q) subs)) ->
  assoc (lit "pkg") (kw ++ LOCKED) = Some (base_package meta) ->
  format_ok tpl kw ->
  Forall seg_ok gs /\
  java_dir meta ++ subs ++ [file] = java_names ++ gs ++ [file] /\
  join (lit ".") gs
  = base_package meta ++ concat (map (fun q => lit "." ++ q) subs) /\
  exists rest,
    strip (render tpl kw) ++ [c_nl]
    = lit "package " ++ join (lit ".") gs ++ lit ";" ++ rest.
Proof.
  intros gs Hsubs Htpl Hplain Hpkg Hok. subst gs.
  destruct (render_package _ _ _ _ _ Htpl Hplain Hpkg Hok) as (rest & E).
  assert (Hj : join (lit ".") (split_on c_dot (base_package meta) ++ subs)
               = base_package meta ++ concat (map (fun q => lit "." ++ q) subs)).
  { rewrite join_dotted_app by apply split_on_nonempty.
    change (lit ".") with [c_dot]. now rewrite join_split_on. }
  split; [|split; [|split]].
  - apply Forall_app. split; [apply safe_pkg_segments | assumption].
  - unfold java_dir. now rewrite <- !app_assoc.
  - exact Hj.
  - exists (rest ++ [c_nl]).
    rewrite strip_render, Hj, E, <- !app_assoc. reflexivity.
Qed.

Ltac java_entry_at subs file n :=
  destruct seg_ok_subpackages as (Hmod & Hgui & Hmix);
  apply (java_entry _ subs file _ _ n);
    [ repeat constructor; assumption
    | vm_compute; reflexivity
    | reflexivity
    | reflexivity
    | auto with templates ].

Lemma cbclient_entry (meta : Meta) :
  java_entry_ok meta (@nil str) (lit "CBClient.java") tpl_cbclient_java
    [(lit "pkg", base_package meta); (lit "mod_id", mod_id meta);
     (lit "client_name", client_name meta)].
Proof. java_entry_at (@nil str) (lit "CBClient.java") 23%nat. Qed.

Lemma module_entry (meta : Meta) :
  java_entry_ok meta [lit "module"] (lit "Module.java") tpl_module_java
    [(lit "pkg", base_package meta)].
Proof. java_entry_at [lit "module"] (lit "Module.java") 30%nat. Qed.

Lemma module_manager_entry (meta : Meta) :
  java_entry_ok meta [lit "module"] (lit "ModuleManager.java")
    tpl_module_manager_java [(lit "pkg", base_package meta)].
Proof. java_entry_at [lit "module"] (lit "ModuleManager.java") 30%nat. Qed.

Lemma example_module_entry (meta : Meta) :
  java_entry_ok meta [lit "module"] (lit "ExampleModule.java")
    tpl_example_module_java [(lit "pkg", base_package meta)].
Proof. java_entry_at [lit "module"] (lit "ExampleModule.java") 30%nat. Qed.

Lemma client_screen_entry (meta : Meta) :
  java_entry_ok meta [lit "gui"] (lit "ClientScreen.java")
    tpl_client_screen_java [(lit "pkg", base_package meta)].
Proof. java_entry_at [lit "gui"] (lit "ClientScreen.java") 27%nat. Qed.

Lemma mixin_entry (meta : Meta) :
  java_entry_ok meta [lit "mixin"] (lit "MinecraftClientMixin.java")
    tpl_mixin_java [(lit "pkg", base_package meta)].
Proof. java_entry_at [lit "mixin"] (lit "MinecraftClientMixin.java") 29%nat. Qed.

(** Every entry of the catalogue whose name ends with [.java] is a Java
    source in the directory of the package that its first line names. *)
Lemma template_set_java (meta : Meta) :
  Forall (fun e =>
            firstn 5 (name_key (fst e)) = rev (lit ".java") ->
            exists gs file s rest,
              Forall seg_ok gs /\
              fst e = java_names ++ gs ++ [file] /\
              snd e = Text s /\
              strip s ++ [c_nl]
              = lit "package " ++ join (lit ".") gs ++ lit ";" ++ rest)
         (template_set meta).
Proof.
  pose proof (cbclient_entry meta) as (A1 & A2 & _ & r1 & A3).
  pose proof (module_entry meta) as (B1 & B2 & _ & r2 & B3).
  pose proof (module_manager_entry meta) as (C1 & C2 & _ & r3 & C3).
  pose proof (example_module_entry meta) as (D1 & D2 & _ & r4 & D3).
  pose proof (client_screen_entry meta) as (E1 & E2 & _ & r5 & E3).
  pose proof (mixin_entry meta) as (F1 & F2 & _ & r6 & F3).
  unfold template_set. cbv zeta.
  repeat lazymatch goal with
  | |- Forall _ [] => apply Forall_nil
  | |- Forall _ ((java_dir _ ++ _, _) :: _) =>
      apply Forall_cons;
      [ intros _; cbn [fst snd];
        eexists; eexists; eexists; eexists;
        first
          [ solve [split; [exact A1|split; [exact A2|split; [reflexivity|exact A3]]]]
          | solve [split; [exact B1|split; [exact B2|split; [reflexivity|exact B3]]]]
          | solve [split; [exact C1|split; [exact C2|split; [reflexivity|exact C3]]]]
          | solve [split; [exact D1|split; [exact D2|split; [reflexivity|exact D3]]]]
          | solve [split; [exact E1|split; [exact E2|split; [reflexivity|exact E3]]]]
          | solve [split; [exact F1|split; [exact F2|split; [reflexivity|exact F3]]]] ]
      | ]
  | |- Forall _ (_ :: _) =>
      apply Forall_cons;
      [ cbn [fst];
        rewrite ?name_key_app by discriminate;
        rewrite ?name_key_cons, ?name_key_mixins;
        intros H; vm_compute in H; discriminate H
      | ]
  end.
Qed.

Lemma template_set_cbclient (meta : Meta) :
  In (java_dir meta ++ [lit "CBClient.java"],
      Text (render tpl_cbclient_java
              [(lit "pkg", base_package meta); (lit "mod_id", mod_id meta);
               (lit "client_name", client_name meta)]))
     (template_set meta).
Proof. unfold template_set. do 9 right. left. reflexivity. Qed.

Lemma template_set_mixin_java (meta : Meta) :
  In (java_dir meta ++ [lit "mixin"; lit "MinecraftClientMixin.java"],
      Text (render tpl_mixin_java [(lit "pkg", base_package meta)]))
     (template_set meta).
Proof. unfold template_set. do 14 right. left. reflexivity. Qed.

End JavaSources.

Lemma text_writes_inv (root : Path) (entries : list (list str * content))
    (p : Path) (txt : str) :
  In (p, txt) (text_writes (tree_writer root entries)) ->
  exists ns s, In (ns, Text s) entries /\ p = below root ns
               /\ txt = strip s ++ [c_nl].
Proof.
  induction entries as [|[ns c] l IH]; [intros []|].
  change (tree_writer root ((ns, c) :: l))
    with (Mkdir (parent (below root ns)) :: written (below root ns) c
            :: tree_writer root l).
  destruct c as [s|b]; cbn [written text_writes].
  - intros [E|H].
    + injection E as <- <-. exists ns, s. cbn [In]. auto.
    + destruct (IH H) as (ns' & s' & H1 & H2 & H3).
      exists ns', s'. cbn [In]. auto.
  - intros H. destruct (IH H) as (ns' & s' & H1 & H2 & H3).
    exists ns', s'. cbn [In]. auto.
Qed.

Section JavaPackages.
Context {UT : UnicodeTables}.

(** X11.  In a run that ends well, every text file whose name ends with
    [.java] lies below [src/main/java] of the target, in the directory
    whose names, joined with dots, are the package that the first line of
    the file declares; each of these names is a valid segment. *)
Theorem java_sources_lie_in_their_packages
    (fs : filesystem) (os : system) (now : datetime) (m : Meta)
    (root p : Path) (txt : str) :
  snd (generate fs now m os []) = inr root ->
  In (p, txt) (text_writes (fst (generate fs now m os []))) ->
  firstn 5 (rev (name p)) = rev (lit ".java") ->
  exists gs file rest,
    Forall seg_ok gs /\
    p = below root (java_names ++ gs ++ [file]) /\
    txt = lit "package " ++ join (lit ".") gs ++ lit ";" ++ rest.
Proof.
  intros H Hin Hname. rewrite (generate_ok_run _ _ _ _ _ H) in Hin.
  unfold run_at, calls_at, fst in Hin.
  rewrite text_writes_log, text_writes_app, text_writes_log, app_nil_r in Hin.
  apply text_writes_inv in Hin as (ns & s & He & -> & ->).
  pose proof (template_set_named (normalized m)) as Hne.
  pose proof (template_set_java (normalized m)) as Hj.
  rewrite Forall_forall in Hne, Hj.
  specialize (Hne _ He). specialize (Hj _ He). cbn [fst snd] in Hne, Hj.
  destruct Hj as (gs & file & s' & rest & H1 & H2 & H3 & H4).
  - unfold name_key. rewrite firstn_firstn. cbn [Nat.min].
    unfold name, below in Hname. cbn [names] in Hname.
    now rewrite last_app_nonempty in Hname.
  - injection H3 as <-. exists gs, file, rest. subst ns. auto.
Qed.

(** X12.  In a run that ends well, the classes that the loader is told
    about are written where it looks for them: the [client] entry point of
    the manifest is the class [CBClient] of a package, and [CBClient.java]
    is written in the directory of that package with that package on its
    first line; the mixins file names the subpackage [mixin] and the class
    [MinecraftClientMixin], and [MinecraftClientMixin.java] is written in
    the directory [mixin] below, with the subpackage on its first line. *)
Theorem manifest_classes_are_written
    (fs : filesystem) (os : system) (now : datetime) (m : Meta) (root : Path) :
  snd (generate fs now m os []) = inr root ->
  let cm := normalized m in
  let tr := fst (generate fs now m os []) in
  exists gs rest1 rest2,
    Forall seg_ok gs /\
    json_get (lit "entrypoints") (fabric_mod_json cm)
    = Some (JDict [(lit "client",
                    JList [JStr (join (lit ".") (gs ++ [lit "CBClient"]))])]) /\
    In (below root (java_names ++ gs ++ [lit "CBClient.java"]),
        lit "package " ++ join (lit ".") gs ++ lit ";" ++ rest1)
       (text_writes tr) /\
    json_get (lit "package") (mixins_json cm)
    = Some (JStr (join (lit ".") (gs ++ [lit "mixin"]))) /\
    json_get (lit "client") (mixins_json cm)
    = Some (JList [JStr (lit "MinecraftClientMixin")]) /\
    In (below root (java_names ++ gs ++ [lit "mixin"; lit "MinecraftClientMixin.java"]),
        lit "package " ++ join (lit ".") (gs ++ [lit "mixin"]) ++ lit ";" ++ rest2)
       (text_writes tr).
Proof.
  intros H. cbv zeta. rewrite (generate_ok_run _ _ _ _ _ H). clear H.
  generalize (normalized m). intros cm.
  unfold run_at, calls_at, fst.
  rewrite !text_writes_log, !text_writes_app, !text_writes_log, !app_nil_r.
  pose proof (cbclient_entry cm) as (A1 & A2 & A3 & r1 & A4).
  pose proof (mixin_entry cm) as (B1 & B2 & B3 & r2 & B4).
  rewrite app_nil_r in A1, A4. clear A2 A3 B2 B3.
  exists (split_on c_dot (base_package cm)), r1, r2.
  assert (Hj : forall q, join (lit ".") (split_on c_dot (base_package cm) ++ [q])
                         = base_package cm ++ lit "." ++ q).
  { intros q. rewrite join_dotted_app by apply split_on_nonempty.
    change (lit ".") with [c_dot]. rewrite join_split_on.
    cbn [map concat]. now rewrite app_nil_r. }
  split; [exact A1|]. split.
  { rewrite Hj. reflexivity. }
  split.
  { rewrite <- A4.
    replace (java_names ++ split_on c_dot (base_package cm) ++ [lit "CBClient.java"])
      with (java_dir cm ++ [lit "CBClient.java"])
      by (unfold java_dir; now rewrite <- !app_assoc).
    apply text_writes_entry, template_set_cbclient. }
  split.
  { rewrite Hj. reflexivity. }
  split; [reflexivity|].
  rewrite <- B4.
  replace (java_names ++ split_on c_dot (base_package cm)
             ++ [lit "mixin"; lit "MinecraftClientMixin.java"])
    with (java_dir cm ++ [lit "mixin"; lit "MinecraftClientMixin.java"])
    by (unfold java_dir; now rewrite <- !app_assoc).
  apply text_writes_entry, template_set_mixin_java.
Qed.

End JavaPackages.

Lemma java_sources_lie_in_their_packages_witness :
  let tr := fst (@generate ascii_tables no_files some_time main_meta no_failure []) in
  let root := path_of_str (lit "/home/user/CBClient_client") in
  let w := nth 8 (text_writes tr) (root, []) in
  snd (@generate ascii_tables no_files some_time main_meta no_failure []) = inr root
  /\ In (fst w, snd w) (text_writes tr)
  /\ firstn 5 (rev (name (fst w))) = rev (lit ".java")
  /\ exists gs file rest,
       Forall seg_ok gs /\
       fst w = below root (java_names ++ gs ++ [file]) /\
       snd w = lit "package " ++ join (lit ".") gs ++ lit ";" ++ rest.
Proof.
  cbv zeta.
  assert (H : snd (@generate ascii_tables no_files some_time main_meta no_failure [])
              = inr (path_of_str (lit "/home/user/CBClient_client"))).
  { vm_compute. reflexivity. }
  assert (Hin : In (fst (nth 8 (text_writes (fst (@generate ascii_tables no_files
                                                     some_time main_meta no_failure [])))
                             (path_of_str (lit "/home/user/CBClient_client"), [])),
                    snd (nth 8 (text_writes (fst (@generate ascii_tables no_files
                                                     some_time main_meta no_failure [])))
                             (path_of_str (lit "/home/user/CBClient_client"), [])))
                   (text_writes (fst (@generate ascii_tables no_files
                                        some_time main_meta no_failure [])))).
  { apply (nth_error_In _ 8). vm_compute. reflexivity. }
  assert (Hn : firstn 5 (rev (name (fst (nth 8 (text_writes (fst (@generate
                   ascii_tables no_files some_time main_meta no_failure [])))
                   (path_of_str (lit "/home/user/CBClient_client"), [])))))
               = rev (lit ".java")).
  { vm_compute. reflexivity. }
  split; [exact H|]. split; [exact Hin|]. split; [exact Hn|].
  exact (@java_sources_lie_in_their_packages ascii_tables _ _ _ _ _ _ _ H Hin Hn).
Defined.

Lemma manifest_classes_are_written_witness :
  let root := path_of_str (lit "/home/user/CBClient_client") in
  snd (@generate ascii_tables no_files some_time main_meta no_failure []) = inr root
  /\ exists gs rest1 rest2,
       Forall seg_ok gs /\
       json_get (lit "entrypoints") (@fabric_mod_json ascii_tables
                                       (@normalized ascii_tables main_meta))
       = Some (JDict [(lit "client",
                       JList [JStr (join (lit ".") (gs ++ [lit "CBClient"]))])]) /\
       In (below root (java_names ++ gs ++ [lit "CBClient.java"]),
           lit "package " ++ join (lit ".") gs ++ lit ";" ++ rest1)
          (text_writes (fst (@generate ascii_tables no_files some_time main_meta no_failure []))) /\
       json_get (lit "package") (@mixins_json ascii_tables
                                   (@normalized ascii_tables main_meta))
       = Some (JStr (join (lit ".") (gs ++ [lit "mixin"]))) /\
       json_get (lit "client") (@mixins_json ascii_tables
                                  (@normalized ascii_tables main_meta))
       = Some (JList [JStr (lit "MinecraftClientMixin")]) /\
       In (below root (java_names ++ gs
                         ++ [lit "mixin"; lit "MinecraftClientMixin.java"]),
           lit "package " ++ join (lit ".") (gs ++ [lit "mixin"]) ++ lit ";" ++ rest2)
          (text_writes (fst (@generate ascii_tables no_files some_time main_meta no_failure []))).
Proof.
  cbv zeta.
  assert (H : snd (@generate ascii_tables no_files some_time main_meta no_failure [])
              = inr (path_of_str (lit "/home/user/CBClient_client"))).
  { vm_compute. reflexivity. }
  split; [exact H|].
  exact (@manifest_classes_are_written ascii_tables _ _ _ _ _ H).
Defined.

(** ** The form *)

Lemma strip_by_All (p q : codepoint -> bool) (s : str) :
  All q s -> All q (strip_by p s).
Proof.
  intros H. destruct (strip_by_split p s) as (pre & post & E & _).
  rewrite E in H. apply Forall_app in H as [_ H].
  now apply Forall_app in H as [H _].
Qed.

Lemma split_on_pieces (sep : codepoint) (s : str) :
  Forall (fun g => All (fun c => negb (c =? sep)) g) (split_on sep s).
Proof.
  induction s as [|c r IH]; cbn [split_on]; [repeat constructor|].
  destruct (c =? sep) eqn:E; [constructor; auto|].
  destruct (split_on sep r) as [|g gs]; [repeat constructor; now rewrite E|].
  inversion IH as [|? ? Hg Hgs]; subst.
  constructor; auto. constructor; auto. now rewrite E.
Qed.

Lemma split_on_join_pieces (sep : codepoint) (g : str) (gs : list str) :
  Forall (fun g => All (fun c => negb (c =? sep)) g) (g :: gs) ->
  split_on sep (join [sep] (g :: gs)) = g :: gs.
Proof.
  revert g. induction gs as [|h gs IH]; intros g H.
  - inversion H; subst. now apply split_on_absent.
  - inversion H as [|? ? Hg Hr]; subst.
    change (join [sep] (g :: h :: gs)) with (g ++ sep :: join [sep] (h :: gs)).
    rewrite split_on_sep_app, (IH h Hr), split_on_absent by assumption.
    reflexivity.
Qed.

Lemma kept_authors_pieces (sep : codepoint) (l : list str) :
  Forall (fun g => All (fun c => negb (c =? sep)) g) l ->
  Forall (fun g => All (fun c => negb (c =? sep)) g) (kept_authors l).
Proof.
  intros H. unfold kept_authors. apply Forall_map.
  apply Forall_forall. intros a Ha. apply filter_In in Ha as [Ha _].
  apply strip_by_All. rewrite Forall_forall in H. auto.
Qed.

Lemma log_lines_tree_writer (self : App) (root : Path)
    (entries : list (list str * content)) (tr : list event) :
  log_lines self (tree_writer root entries ++ tr) = log_lines self tr.
Proof.
  induction entries as [|[ns c] l IH]; [reflexivity|].
  change (tree_writer root ((ns, c) :: l))
    with (Mkdir (parent (below root ns)) :: written (below root ns) c
            :: tree_writer root l).
  destruct c; exact IH.
Qed.

Section FormFacts.
Context {UT : UnicodeTables}.

(** X13.  Through the form the description of a run is never blank: it
    is the trimmed text of the description box when that has a character
    that is not white space, and else the default made from the client
    name as typed.  (The record that [_meta] builds holds the trimmed text,
    so a box of white space only reaches [normalized] as the empty
    string.) *)
Theorem form_description_never_blank (self : App) :
  let d := description (normalized (_meta self)) in
  blank d = false /\
  d = if blank (desc self) then strip (vars_client self ++ lit " - Fabric client mod")
      else strip (desc self).
Proof.
  cbv zeta. cbn [description normalized _meta client_name].
  unfold str_or. rewrite strip_blank.
  destruct (blank (desc self)) eqn:E; cbn [negb].
  - split; [|reflexivity]. rewrite blank_strip. unfold blank.
    rewrite forallb_app. apply andb_false_intro2. reflexivity.
  - unfold strip at 1 3. rewrite strip_by_idem. fold (strip (desc self)).
    split; [|reflexivity]. now rewrite blank_strip.
Qed.

(** X14.  The authors of a run started from the form are never none, each
    is trimmed, not blank and without a comma; and typing them back into
    the authors field, joined with commas, gives the same authors. *)
Theorem form_authors_round_trip (self : App) :
  let a := authors (normalized (_meta self)) in
  a <> [] /\
  Forall (fun x => trimmed x /\ All (fun c => negb (c =? c_comma)) x) a /\
  authors (normalized (_meta (set_authors self (join (lit ",") a)))) = a.
Proof.
  cbv zeta.
  assert (Hn : exists g gs,
             authors (normalized (_meta self)) = g :: gs /\
             Forall trimmed (g :: gs) /\
             Forall (fun g => All (fun c => negb (c =? c_comma)) g) (g :: gs)).
  { pose proof (normalized_authors_trimmed (_meta self)) as Ht.
    cbn [authors normalized _meta] in *. rewrite kept_authors_filter in *.
    pose proof (kept_authors_pieces c_comma _
                  (split_on_pieces c_comma (vars_authors self))) as Hp.
    destruct (kept_authors (split_on c_comma (vars_authors self))) as [|g gs].
    - exists (lit "Unknown"), []. cbn [tuple_or]. split; auto. split; auto.
      repeat constructor.
    - exists g, gs. cbn [tuple_or] in *. auto. }
  destruct Hn as (g & gs & E & Ht & Hp). rewrite E.
  split; [discriminate|]. split.
  - clear E. induction Ht as [|x l Hx _ IH]; constructor.
    + split; auto. now inversion Hp.
    + apply IH. now inversion Hp.
  - cbn [authors normalized _meta set_authors vars_authors].
    rewrite kept_authors_filter.
    change (lit ",") with [c_comma].
    rewrite split_on_join_pieces by assumption.
    now rewrite kept_authors_of_trimmed.
Qed.

(** X15.  The button [Fix]: after one press the id field holds a valid
    module id; after a second press the form does not change any more, and
    a run uses the id that the field shows.  The preview never depends on
    the id field. *)
Theorem fix_modid_settles (self : App) :
  let once := _fix_modid self in
  let twice := _fix_modid once in
  slug_ok (vars_modid once) /\
  _fix_modid twice = twice /\
  mod_id (normalized (_meta twice)) = vars_modid twice /\
  mod_id (normalized (_meta once)) = vars_modid twice /\
  preview once = preview (_update_preview self).
Proof.
  cbv zeta. pose proof (slugify_modid_ok (vars_modid self)) as Hok.
  assert (E3 : slugify_modid (slugify_modid (slugify_modid (vars_modid self)))
               = slugify_modid (slugify_modid (vars_modid self))).
  { apply slugify_modid_fixed; [apply slugify_modid_ok|].
    rewrite (slugify_modid_valid _ Hok). apply rstrip_by_end. }
  split; [exact Hok|]. split; [|split; [|split]].
  - unfold _fix_modid, _update_preview, set_preview, set_modid.
    cbn [vars_out vars_project vars_client vars_modid vars_group vars_version
         vars_authors vars_license desc preview log _meta normalized
         out_dir project_name].
    now rewrite E3.
  - cbn [mod_id normalized _meta _fix_modid _update_preview set_preview
         set_modid vars_modid]. exact E3.
  - reflexivity.
  - reflexivity.
Qed.

Lemma quiet_log_raises (os : system) (done : list event) (line : str) :
  raises (quiet_log os) done (Log line) = None.
Proof. reflexivity. Qed.

Lemma quiet_log_healthy (os : system) : healthy os -> healthy (quiet_log os).
Proof. intros H done [p|p b|p s|line]; cbn [quiet_log]; auto. Qed.

(** A run at [root] in which a call other than a log raises has logged
    its first line and nothing else. *)
Lemma log_lines_interrupted (self : App) (root : Path) (meta : Meta)
    (pre post : list event) (e : event) :
  calls_at root meta = pre ++ e :: post ->
  (forall line, e <> Log line) ->
  log_lines self (pre ++ [e])
  = _log_msg self (lit "Generating: " ++ path_str root).
Proof.
  unfold calls_at. intros E He.
  destruct pre as [|x pre']; cbn [app] in E.
  { exfalso. apply (He (lit "Generating: " ++ path_str root)). congruence. }
  assert (Ex : x = Log (lit "Generating: " ++ path_str root)) by congruence.
  assert (E' : tree_writer root (template_set meta) ++ [Log (lit "Done.")]
               = pre' ++ e :: post) by congruence.
  subst x. clear E. cbn [app log_lines].
  apply app_eq_app in E' as [l [[E1 E2]|[E1 E2]]].
  - destruct l as [|y l']; cbn [app] in E2.
    + exfalso. apply (He (lit "Done.")). congruence.
    + assert (y = e) by congruence. subst y.
      assert (Et : tree_writer root (template_set meta)
                   = (pre' ++ [e]) ++ l').
      { rewrite E1, <- !app_assoc. reflexivity. }
      generalize (_log_msg self (lit "Generating: " ++ path_str root)).
      intros a. revert Et. generalize (pre' ++ [e]). intros tr.
      revert tr. generalize (template_set meta). intros entries.
      induction entries as [|[ns c] l IH]; intros tr Hs.
      * destruct tr; [reflexivity | discriminate].
      * change (tree_writer root ((ns, c) :: l))
          with (Mkdir (parent (below root ns)) :: written (below root ns) c
                  :: tree_writer root l) in Hs.
        destruct tr as [|u [|v tr']]; cbn [app] in Hs.
        -- reflexivity.
        -- injection Hs as <- _. reflexivity.
        -- injection Hs as <- <- Hs. cbn [log_lines].
           destruct c; cbn [written]; now apply IH.
  - destruct l as [|y l']; cbn [app] in E2.
    + exfalso. apply (He (lit "Done.")). congruence.
    + exfalso. assert (El : l' ++ e :: post = []) by congruence.
      now destruct l'.
Qed.


End FormFacts.

(** ** Runs that raise *)

(** A client name that has no encoding: the run stops at the write of
    [README.md], the tenth call after the first log line.  A call that
    fails in the system: the run stops there.  In both cases nothing
    stands at the candidate, and the window shows the error dialog. *)
Example generate_raises_example (UT : UnicodeTables) :
  let target := path_of_str (lit "/home/user/CBClient_client") in
  let first := generate no_files some_time surrogate_meta no_failure [] in
  let second := generate no_files some_time main_meta (fails_at 3) [] in
  snd first = inl UnicodeEncodeError
  /\ length (fst first) = 11%nat
  /\ map fst (written_files (fst first))
     = [below target [lit "settings.gradle"];
        below target [lit "gradle.properties"];
        below target [lit "build.gradle"];
        below target [lit ".gitignore"];
        below target [lit "README.md"]]
  /\ snd second = inl (OSError 28)
  /\ fst second
     = [Log (lit "Generating: /home/user/CBClient_client");
        Mkdir target;
        WriteText (below target [lit "settings.gradle"])
                  (strip (render tpl_settings_gradle
                            [(lit "project_name", lit "CBClient_client")])
                     ++ [c_nl]);
        Mkdir target]
  /\ snd (_generate no_files (fails_at 3) some_time initial_form)
     = showerror (lit "Erro") (OSError 28).
Proof.
  cbv zeta. split; [|split; [|split; [|split; [|split]]]];
    vm_compute; reflexivity.
Qed.
(** ** The JSON files are plain ASCII *)

Lemma uint_digits_ascii (u : Decimal.uint) : All is_ascii (uint_digits u).
Proof. induction u; cbn [uint_digits]; constructor; auto. Qed.

Lemma hex_digit_ascii (d : N) : d < 16 -> is_ascii (hex_digit d) = true.
Proof.
  intros H. unfold hex_digit, is_ascii.
  destruct (d <? 10); apply N.ltb_lt; lia.
Qed.

Lemma u_escape_ascii (n : N) : All is_ascii (u_escape n).
Proof.
  unfold u_escape, hex4. cbn [app].
  repeat constructor; apply hex_digit_ascii; apply N.mod_lt; discriminate.
Qed.

Lemma json_escape_char_ascii (c : codepoint) : All is_ascii (json_escape_char c).
Proof.
  unfold json_escape_char.
  repeat lazymatch goal with
  | |- All _ (if in_range 32 126 c then _ else _) =>
      destruct (in_range 32 126 c) eqn:E;
      [constructor; [unfold is_ascii; blia | constructor]|]
  | |- All _ (if c =? _ then _ else _) =>
      destruct (c =? _); [repeat constructor|]
  end.
  destruct (c <? 65536).
  - apply u_escape_ascii.
  - apply Forall_app. split; apply u_escape_ascii.
Qed.

Lemma json_quote_ascii (s : str) : All is_ascii (json_quote s).
Proof.
  unfold json_quote, dq. constructor; [reflexivity|].
  apply Forall_app. split; [|repeat constructor].
  induction s as [|c r IH]; cbn [flat_map]; [constructor|].
  apply Forall_app. split; [apply json_escape_char_ascii | exact IH].
Qed.

Lemma join_All (q : codepoint -> bool) (sep : str) (l : list str) :
  All q sep -> Forall (fun g => All q g) l -> All q (join sep l).
Proof.
  intros Hs H. induction H as [|g gs Hg Hgs IH]; [constructor|].
  destruct gs as [|h gs']; [exact Hg|].
  change (join sep (g :: h :: gs')) with (g ++ sep ++ join sep (h :: gs')).
  apply Forall_app. split; auto. apply Forall_app. split; auto.
Qed.

Lemma indent_ascii (depth : nat) : All is_ascii (indent depth).
Proof.
  unfold indent. apply Forall_forall. intros c Hc.
  apply repeat_spec in Hc. now subst.
Qed.

Lemma separator_ascii (depth : nat) :
  All is_ascii (lit "," ++ [c_nl] ++ indent depth).
Proof. repeat constructor. apply indent_ascii. Qed.

Lemma dumps_at_ascii (j : json) : forall depth, All is_ascii (dumps_at depth j).
Proof.
  revert j. fix IH 1. intros [n|b|s|l|l] depth; cbn [dumps_at].
  - apply uint_digits_ascii.
  - destruct b; repeat constructor.
  - apply json_quote_ascii.
  - destruct l as [|x l']; [repeat constructor|].
    repeat (apply Forall_app; split);
      try apply indent_ascii; try (repeat constructor; fail).
    apply join_All; [apply separator_ascii|].
    apply Forall_map.
    generalize (x :: l'). clear x l'. intros l.
    induction l as [|y l' IHl]; constructor; [apply IH | exact IHl].
  - destruct l as [|x l']; [repeat constructor|].
    repeat (apply Forall_app; split);
      try apply indent_ascii; try (repeat constructor; fail).
    apply join_All; [apply separator_ascii|].
    apply Forall_map.
    generalize (x :: l'). clear x l'. intros l.
    induction l as [|[k v] l' IHl]; constructor; [|exact IHl].
    cbn [fst snd]. apply Forall_app. split; [apply json_quote_ascii|].
    apply Forall_app. split; [repeat constructor | apply IH].
Qed.

Lemma utf8_encode_ascii (s : str) : All is_ascii s -> utf8_encode s = Some s.
Proof.
  induction 1 as [|c r Hc _ IH]; [reflexivity|].
  cbn [utf8_encode]. unfold utf8_char. unfold is_ascii in Hc.
  now rewrite Hc, IH.
Qed.

(** The entries of the catalogue whose name ends with [.json] hold
    serialised JSON. *)
Lemma template_set_json {UT : UnicodeTables} (meta : Meta) :
  Forall (fun e =>
            firstn 5 (name_key (fst e)) = rev (lit ".json") ->
            exists j, snd e = Text (dumps j))
         (template_set meta).
Proof.
  unfold template_set. cbv zeta.
  repeat lazymatch goal with
  | |- Forall _ [] => apply Forall_nil
  | |- Forall _ ((_, Text (dumps _)) :: _) =>
      apply Forall_cons; [intros _; eexists; reflexivity|]
  | |- Forall _ (_ :: _) =>
      apply Forall_cons;
      [ cbn [fst];
        rewrite ?name_key_app by discriminate;
        rewrite ?name_key_cons, ?name_key_mixins;
        intros H; vm_compute in H; discriminate H
      | ]
  end.
Qed.

(** X17.  The JSON files of a run are plain ASCII, whatever the metadata:
    every text that is written to a file whose name ends with [.json] has
    only characters below 128 (what is outside printable ASCII is written
    as an escape), so that its UTF-8 encoding exists and is the text
    itself. *)
Theorem json_files_are_ascii
    {UT : UnicodeTables} (fs : filesystem) (os : system) (now : datetime)
    (m : Meta) (p : Path) (txt : str) :
  In (p, txt) (text_writes (fst (generate fs now m os []))) ->
  firstn 5 (rev (name p)) = rev (lit ".json") ->
  All is_ascii txt /\ utf8_encode txt = Some txt.
Proof.
  intros Hin Hname.
  destruct (generate_calls fs now m os) as [E|(root & rest & _ & E)];
    [rewrite E in Hin; destruct Hin|].
  assert (Hin' : In (p, txt) (text_writes (calls_at root (normalized m)))).
  { rewrite E, text_writes_app. apply in_or_app. now left. }
  clear Hin E. rename Hin' into Hin. unfold calls_at in Hin.
  rewrite text_writes_log, text_writes_app, text_writes_log, app_nil_r in Hin.
  apply text_writes_inv in Hin as (ns & s & He & -> & ->).
  pose proof (template_set_named (normalized m)) as Hne.
  pose proof (template_set_json (normalized m)) as Hj.
  rewrite Forall_forall in Hne, Hj.
  specialize (Hne _ He). specialize (Hj _ He). cbn [fst snd] in Hne, Hj.
  destruct Hj as (j & Ej).
  - unfold name_key. rewrite firstn_firstn. cbn [Nat.min].
    unfold name, below in Hname. cbn [names] in Hname.
    now rewrite last_app_nonempty in Hname.
  - injection Ej as ->.
    assert (Ha : All is_ascii (strip (dumps j) ++ [c_nl])).
    { apply Forall_app. split; [|repeat constructor].
      apply strip_by_All, dumps_at_ascii. }
    split; [exact Ha | now apply utf8_encode_ascii].
Qed.

Lemma json_files_are_ascii_witness :
  let tr := fst (@generate ascii_tables no_files some_time main_meta no_failure []) in
  let w := nth 5 (text_writes tr) (out_dir main_meta, []) in
  In (fst w, snd w) (text_writes tr)
  /\ firstn 5 (rev (name (fst w))) = rev (lit ".json")
  /\ All is_ascii (snd w) /\ utf8_encode (snd w) = Some (snd w).
Proof.
  cbv zeta.
  assert (Hin : In (fst (nth 5 (text_writes (fst (@generate ascii_tables no_files
                                                     some_time main_meta no_failure [])))
                             (out_dir main_meta, [])),
                    snd (nth 5 (text_writes (fst (@generate ascii_tables no_files
                                                     some_time main_meta no_failure [])))
                             (out_dir main_meta, [])))
                   (text_writes (fst (@generate ascii_tables no_files
                                        some_time main_meta no_failure [])))).
  { apply (nth_error_In _ 5). vm_compute. reflexivity. }
  assert (Hn : firstn 5 (rev (name (fst (nth 5 (text_writes (fst (@generate
                   ascii_tables no_files some_time main_meta no_failure [])))
                   (out_dir main_meta, [])))))
               = rev (lit ".json")).
  { vm_compute. reflexivity. }
  split; [exact Hin|]. split; [exact Hn|].
  exact (@json_files_are_ascii ascii_tables _ _ _ _ _ _ Hin Hn).
Defined.

